(** * zillowsaves: the incremental-sync pipeline of [main.go]

    A shallow embedding of the decision logic of [main.go]: the metric
    extractor [extractZillowSavesCount], the watermark resolution at the
    head of [doZillow], the gate of [processData] and the row builder
    [appendToSheet]; and of the mail step behind [getYahooEmails],
    [connectToYahooIMAP].  The Go library functions the program calls
    (package [time], [strings], [strconv], [regexp], [sort]) are modelled
    next to the code that calls them, each restricted to the behaviour the
    program reaches; the sheet service and the mail server are records of
    what they answer.

    Go strings are byte sequences: [gostring] is a list of [ascii] bytes.
    Go's [int] is taken as 64 bits wide. *)

From Stdlib Require Import ZArith Ascii String List Bool Lia Permutation Sorted.
Import ListNotations.
Open Scope Z_scope.

Set Implicit Arguments.

(* ================================================================= *)
(** ** Bytes and strings *)

Definition gostring := list ascii.

(** A string literal as a Go string. *)
Definition str (s : string) : gostring := list_ascii_of_string s.

(** The numeric value of a byte. *)
Definition code (c : ascii) : Z := Z.of_N (N_of_ascii c).

Definition gostring_eqb (a b : gostring) : bool :=
  if list_eq_dec ascii_dec a b then true else false.

(** [s] starts with [p]. *)
Definition startsWith (p s : gostring) : bool :=
  gostring_eqb (firstn (length p) s) p.

(** [c - '0'] for a decimal digit byte. *)
Definition digitVal (c : ascii) : Z := code c - 48.

(** [isDigit]: the byte is one of ['0'..'9']. *)
Definition isDigit (c : ascii) : bool := (48 <=? code c) && (code c <=? 57).

(* ================================================================= *)
(** ** Package [time]: the calendar *)

Module GoTime.

(** A [time.Time]: an instant, counted in seconds since January 1 of year 1,
    00:00:00 UTC (the epoch of Go's internal representation) with a
    nanosecond part, and the offset in seconds east of UTC of its location.
    Only fixed-offset locations are modelled. *)
Record Time := mkTime { wallSec : Z; nsec : Z; zoneOffset : Z }.

Definition UTC : Z := 0.

Definition secondsPerDay : Z := 86400.
Definition daysPer400Years : Z := 146097.
Definition daysPer100Years : Z := 36524.
Definition daysPer4Years : Z := 1461.

Definition isLeap (year : Z) : bool :=
  (year mod 4 =? 0) && (negb (year mod 100 =? 0) || (year mod 400 =? 0)).

(** [daysBefore[m]]: the number of days in a non-leap year before month
    [m+1]; the table has an entry for [m = 12]. *)
Definition daysBefore (m : Z) : Z :=
  match m with
  | 0 => 0
  | 1 => 31
  | 2 => 59
  | 3 => 90
  | 4 => 120
  | 5 => 151
  | 6 => 181
  | 7 => 212
  | 8 => 243
  | 9 => 273
  | 10 => 304
  | 11 => 334
  | _ => 365
  end.

Definition daysIn (m year : Z) : Z :=
  if (m =? 2) && isLeap year then 29 else daysBefore m - daysBefore (m - 1).

(** [daysSinceEpoch]: days from the epoch to January 1 of [year].  Go counts
    from an "absolute" year that is congruent to 1 modulo 400; counting from
    year 1 gives the same cycles.  The calendar arithmetic here is the one
    of [daysSinceEpoch] and [absDate] of package [time]. *)
Definition daysSinceEpoch (year : Z) : Z :=
  let y := year - 1 in
  let n := y / 400 in
  let y := y - 400 * n in
  let d := daysPer400Years * n in
  let n := y / 100 in
  let y := y - 100 * n in
  let d := d + daysPer100Years * n in
  let n := y / 4 in
  let y := y - 4 * n in
  let d := d + daysPer4Years * n in
  d + 365 * y.

(** [norm]: bring [lo] into [0, base), carrying into [hi]. *)
Definition norm (hi lo base : Z) : Z * Z :=
  let '(hi, lo) :=
    if lo <? 0 then
      let n := (- lo - 1) / base + 1 in (hi - n, lo + n * base)
    else (hi, lo) in
  if lo >=? base then
    let n := lo / base in (hi + n, lo - n * base)
  else (hi, lo).

(** The day number of a calendar date, as [time.Date] computes it once the
    month is in range: the day of the month enters linearly, which is how
    October 32 becomes November 1. *)
Definition dayNumber (year month day : Z) : Z :=
  daysSinceEpoch year + daysBefore (month - 1)
  + (if isLeap year && (3 <=? month) then 1 else 0)
  + (day - 1).

(** [time.Date(year, month, day, hour, min, sec, nsec, loc)]. *)
Definition Date (year month day hour min sec nsec loc : Z) : Time :=
  let '(year, m) := norm year (month - 1) 12 in
  let month := m + 1 in
  let '(sec, nsec) := norm sec nsec 1000000000 in
  let '(min, sec) := norm min sec 60 in
  let '(hour, min) := norm hour min 60 in
  let '(day, hour) := norm day hour 24 in
  let d := dayNumber year month day in
  let abs := d * secondsPerDay + (hour * 3600 + min * 60 + sec) in
  mkTime (abs - loc) nsec loc.

(** The year and the day within it of a day number. *)
Definition yearDay (days : Z) : Z * Z :=
  let d := days in
  let n := d / daysPer400Years in
  let y := 400 * n in
  let d := d - daysPer400Years * n in
  let n := d / daysPer100Years in
  let n := n - Z.shiftr n 2 in
  let y := y + 100 * n in
  let d := d - daysPer100Years * n in
  let n := d / daysPer4Years in
  let y := y + 4 * n in
  let d := d - daysPer4Years * n in
  let n := d / 365 in
  let n := n - Z.shiftr n 2 in
  let y := y + n in
  let d := d - 365 * n in
  (y + 1, d).

(** Month and day of the month from the day of the year. *)
Definition monthDay (leap : bool) (yday : Z) : Z * Z :=
  if leap && (yday =? 31 + 29 - 1) then (2, 29)
  else
    let day := if leap && (yday >? 31 + 29 - 1) then yday - 1 else yday in
    let month := day / 31 in
    let end_ := daysBefore (month + 1) in
    let '(month, begin) :=
      if day >=? end_ then (month + 1, end_) else (month, daysBefore month) in
    (month + 1, day - begin + 1).

(** [absDate]: year, month and day of a day number. *)
Definition absDate (days : Z) : Z * Z * Z :=
  let '(year, yday) := yearDay days in
  let '(month, day) := monthDay (isLeap year) yday in
  (year, month, day).

(** Seconds since the epoch in the time's own location. *)
Definition abs (t : Time) : Z := wallSec t + zoneOffset t.

(** [t.Date()]. *)
Definition civil (t : Time) : Z * Z * Z := absDate (abs t / secondsPerDay).

(** [t.Clock()]. *)
Definition Clock (t : Time) : Z * Z * Z :=
  let s := abs t mod secondsPerDay in
  (s / 3600, (s mod 3600) / 60, s mod 60).

(** [t.AddDate(years, months, days)]. *)
Definition AddDate (t : Time) (years months days : Z) : Time :=
  let '(year, month, day) := civil t in
  let '(hour, min, sec) := Clock t in
  Date (year + years) (month + months) (day + days) hour min sec (nsec t)
       (zoneOffset t).

(** [t.Before(u)]: the instants are compared, whatever the locations. *)
Definition Before (t u : Time) : bool :=
  (wallSec t <? wallSec u) || ((wallSec t =? wallSec u) && (nsec t <? nsec u)).

(** A date of the calendar. *)
Definition validDate (y m d : Z) : Prop :=
  1 <= m <= 12 /\ 1 <= d <= daysIn m y.

(** The day after a calendar date. *)
Definition tomorrow (ymd : Z * Z * Z) : Z * Z * Z :=
  let '(y, m, d) := ymd in
  if d <? daysIn m y then (y, m, d + 1)
  else if m <? 12 then (y, m + 1, 1)
  else (y + 1, 1, 1).

(** Chronological order of calendar dates. *)
Definition dateLe (a b : Z * Z * Z) : Prop :=
  let '(y1, m1, d1) := a in
  let '(y2, m2, d2) := b in
  y1 < y2 \/ (y1 = y2 /\ (m1 < m2 \/ (m1 = m2 /\ d1 <= d2))).


(** *** Layouts

    Go describes a layout by the way the reference time would be printed.
    Of the reference elements [nextStdChunk] recognises, the ones the
    layouts of this program are made of are modelled: ["2006"], ["01"],
    ["02"], ["1"], ["2"] and ["Jan"]. *)

Inductive stdChunk :=
| stdLongYear    (* "2006" *)
| stdZeroMonth   (* "01" *)
| stdNumMonth    (* "1" *)
| stdZeroDay     (* "02" *)
| stdDay         (* "2" *)
| stdMonth.      (* "Jan" *)

Definition startsWithLowerCase (s : gostring) : bool :=
  match s with
  | [] => false
  | c :: _ => (97 <=? code c) && (code c <=? 122)
  end.

(** The reference element that starts at the head of the layout, with what
    follows it. *)
Definition stdAt (layout : gostring) : option (stdChunk * gostring) :=
  match layout with
  | [] => None
  | c :: rest =>
    if (c =? "J")%char then
      if startsWith (str "Jan") layout
         && negb (startsWithLowerCase (skipn 3 layout))
      then Some (stdMonth, skipn 3 layout) else None
    else if (c =? "0")%char then
      match rest with
      | d :: rest' =>
        if (d =? "1")%char then Some (stdZeroMonth, rest')
        else if (d =? "2")%char then Some (stdZeroDay, rest')
        else None
      | [] => None
      end
    else if (c =? "1")%char then Some (stdNumMonth, rest)
    else if (c =? "2")%char then
      if startsWith (str "2006") layout then Some (stdLongYear, skipn 4 layout)
      else Some (stdDay, rest)
    else None
  end.

(** [nextStdChunk]: the literal prefix before the first reference element,
    the element, and the rest of the layout. *)
Fixpoint nextStdChunk (layout : gostring)
  : gostring * option (stdChunk * gostring) :=
  match layout with
  | [] => ([], None)
  | c :: rest =>
    match stdAt layout with
    | Some r => ([], Some r)
    | None => let '(p, r) := nextStdChunk rest in (c :: p, r)
    end
  end.

Fixpoint cutspace (s : gostring) : gostring :=
  match s with
  | c :: s' => if (c =? " ")%char then cutspace s' else s
  | [] => []
  end.

(** [skip]: remove [prefix] from the head of [value]; a space in the prefix
    stands for any run of spaces in the value.  [None] is [errBad]. *)
Fixpoint skipLoop (fuel : nat) (value prefix : gostring) : option gostring :=
  match prefix with
  | [] => Some value
  | p :: prefix' =>
    match fuel with
    | O => None
    | S fuel =>
      if (p =? " ")%char then
        match value with
        | v :: _ =>
          if negb (v =? " ")%char then None
          else skipLoop fuel (cutspace value) (cutspace prefix)
        | [] => skipLoop fuel (cutspace value) (cutspace prefix)
        end
      else
        match value with
        | v :: value' => if (v =? p)%char then skipLoop fuel value' prefix' else None
        | [] => None
        end
    end
  end.

Definition skip (value prefix : gostring) : option gostring :=
  skipLoop (length prefix) value prefix.

(** [getnum]: a one- or two-digit number at the head of [s]; with [fixed]
    both digits are required. *)
Definition getnum (s : gostring) (fixed : bool) : option (Z * gostring) :=
  match s with
  | c0 :: s1 =>
    if negb (isDigit c0) then None
    else
      match s1 with
      | c1 :: s2 =>
        if isDigit c1 then Some (digitVal c0 * 10 + digitVal c1, s2)
        else if fixed then None else Some (digitVal c0, s1)
      | [] => if fixed then None else Some (digitVal c0, s1)
      end
  | [] => None
  end.

(** [leadingInt]: the digits at the head of [s] as a number, and the rest;
    [None] when the number passes [1 << 63]. *)
Fixpoint leadingInt (x : Z) (s : gostring) : option (Z * gostring) :=
  match s with
  | c :: s' =>
    if isDigit c then
      if x >? 2 ^ 63 / 10 then None
      else
        let x := x * 10 + digitVal c in
        if x >? 2 ^ 63 then None else leadingInt x s'
    else Some (x, s)
  | [] => Some (x, s)
  end.

(** The package's own [atoi]: an optional sign and nothing but digits. *)
Definition atoi (s : gostring) : option Z :=
  let '(neg, s) :=
    match s with
    | c :: s' =>
      if (c =? "-")%char || (c =? "+")%char then ((c =? "-")%char, s')
      else (false, s)
    | [] => (false, s)
    end in
  match leadingInt 0 s with
  | Some (q, []) => Some (if neg then - q else q)
  | _ => None
  end.

Definition shortMonthNames : list gostring :=
  map str ["Jan"; "Feb"; "Mar"; "Apr"; "May"; "Jun";
           "Jul"; "Aug"; "Sep"; "Oct"; "Nov"; "Dec"]%string.

(** [match]: equality of two strings of the same length, where letters are
    compared without case. *)
Fixpoint matchFold (s1 s2 : gostring) : bool :=
  match s1, s2 with
  | c1 :: s1', c2 :: s2' =>
    (if (c1 =? c2)%char then true
     else
       let l1 := Z.lor (code c1) 32 in
       let l2 := Z.lor (code c2) 32 in
       (l1 =? l2) && (97 <=? l1) && (l1 <=? 122))
    && matchFold s1' s2'
  | _, _ => true
  end.

(** [lookup]: the index of the first name of [tab] the value starts with. *)
Fixpoint lookup (tab : list gostring) (i : Z) (val : gostring)
  : option (Z * gostring) :=
  match tab with
  | [] => None
  | v :: tab' =>
    if (length v <=? length val)%nat && matchFold (firstn (length v) val) v
    then Some (i, skipn (length v) val)
    else lookup tab' (i + 1) val
  end.

(** The fields [Parse] fills in: year, month, day. *)
Record fields := mkFields { fYear : Z; fMonth : Z; fDay : Z }.

(** One reference element read off the value.  [None] stands for every
    error of [Parse], the range error of the month included. *)
Definition parseChunk (std : stdChunk) (value : gostring) (f : fields)
  : option (gostring * fields) :=
  match std with
  | stdLongYear =>
    match value with
    | c :: _ =>
      if (length value <? 4)%nat || negb (isDigit c) then None
      else
        match atoi (firstn 4 value) with
        | Some year => Some (skipn 4 value, mkFields year (fMonth f) (fDay f))
        | None => None
        end
    | [] => None
    end
  | stdMonth =>
    match lookup shortMonthNames 0 value with
    | Some (month, value) => Some (value, mkFields (fYear f) (month + 1) (fDay f))
    | None => None
    end
  | stdNumMonth | stdZeroMonth =>
    match getnum value (match std with stdZeroMonth => true | _ => false end) with
    | Some (month, value) =>
      if (month <=? 0) || (12 <? month) then None
      else Some (value, mkFields (fYear f) month (fDay f))
    | None => None
    end
  | stdDay | stdZeroDay =>
    match getnum value (match std with stdZeroDay => true | _ => false end) with
    | Some (day, value) => Some (value, mkFields (fYear f) (fMonth f) day)
    | None => None
    end
  end.

Fixpoint parseLoop (fuel : nat) (layout value : gostring) (f : fields)
  : option fields :=
  match fuel with
  | O => None
  | S fuel =>
    let '(prefix, std) := nextStdChunk layout in
    match skip value prefix with
    | None => None
    | Some value =>
      match std with
      | None => match value with [] => Some f | _ :: _ => None end
      | Some (std, suffix) =>
        match parseChunk std value f with
        | Some (value, f) => parseLoop fuel suffix value f
        | None => None
        end
      end
    end
  end.

(** [time.Parse(layout, value)]: the value read against the layout; a missing
    month or day is 1; the day must exist in its month.  The result is at
    midnight UTC.  [None] is a non-nil error. *)
Definition Parse (layout value : gostring) : option Time :=
  match parseLoop (S (length layout)) layout value (mkFields 0 (-1) (-1)) with
  | None => None
  | Some f =>
    let month := if fMonth f <? 0 then 1 else fMonth f in
    let day := if fDay f <? 0 then 1 else fDay f in
    if (day <? 1) || (day >? daysIn month (fYear f)) then None
    else Some (Date (fYear f) month day 0 0 0 0 UTC)
  end.

(** *** Formatting *)

Definition digitChar (d : Z) : ascii := ascii_of_N (Z.to_N (48 + d)).

Fixpoint utoaLoop (fuel : nat) (u : Z) (acc : gostring) : gostring :=
  match fuel with
  | O => acc
  | S fuel =>
    let acc := digitChar (u mod 10) :: acc in
    if u <? 10 then acc else utoaLoop fuel (u / 10) acc
  end.

(** The decimal digits of a number [u >= 0]. *)
Definition utoa (u : Z) : gostring := utoaLoop (S (Z.to_nat (Z.log2 u))) u [].

(** [appendInt]: the decimal form of [x], padded with zeros to [width]. *)
Definition appendInt (x width : Z) : gostring :=
  let u := Z.abs x in
  let digits := utoa u in
  (if x <? 0 then ["-"%char] else [])
  ++ repeat "0"%char (Z.to_nat (width - Z.of_nat (length digits)))
  ++ digits.

Definition formatChunk (std : stdChunk) (ymd : Z * Z * Z) : gostring :=
  let '(year, month, day) := ymd in
  match std with
  | stdLongYear => appendInt year 4
  | stdZeroMonth => appendInt month 2
  | stdNumMonth => appendInt month 0
  | stdZeroDay => appendInt day 2
  | stdDay => appendInt day 0
  | stdMonth => nth (Z.to_nat (month - 1)) shortMonthNames []
  end.

Fixpoint formatLoop (fuel : nat) (layout : gostring) (ymd : Z * Z * Z)
  : gostring :=
  match fuel with
  | O => []
  | S fuel =>
    let '(prefix, std) := nextStdChunk layout in
    match std with
    | None => prefix
    | Some (std, suffix) =>
      prefix ++ formatChunk std ymd ++ formatLoop fuel suffix ymd
    end
  end.

(** [t.Format(layout)]. *)
Definition Format (t : Time) (layout : gostring) : gostring :=
  formatLoop (S (length layout)) layout (civil t).

End GoTime.

(* ================================================================= *)
(** ** Package [strings] *)

Module GoStrings.

Definition byte (n : nat) : ascii := ascii_of_nat n.

(** [strings.Map(unicode.ToLower, s)], the path [ToLower] takes for a string
    with a byte outside ASCII.  The Unicode case tables are not part of the
    program: the mapping is a parameter. *)
Class UnicodeTables := { mapToLower : gostring -> gostring }.

Definition isASCII (s : gostring) : bool := forallb (fun c => code c <? 128) s.

Definition lowerByte (c : ascii) : ascii :=
  if (65 <=? code c) && (code c <=? 90)
  then ascii_of_N (Z.to_N (code c + 32)) else c.

(** [strings.ToLower]. *)
Definition ToLower {tables : UnicodeTables} (s : gostring) : gostring :=
  if isASCII s then map lowerByte s else mapToLower s.

(** The white space of ASCII: ['\t'], ['\n'], ['\v'], ['\f'], ['\r'], [' ']. *)
Definition asciiSpace (c : ascii) : bool :=
  ((9 <=? code c) && (code c <=? 13)) || (code c =? 32).

(** The UTF-8 encodings of the code points outside ASCII that
    [unicode.IsSpace] accepts: U+0085, U+00A0, U+1680, U+2000 to U+200A,
    U+2028, U+2029, U+202F, U+205F, U+3000. *)
Definition unicodeSpaces : list gostring :=
  [ [byte 194; byte 133]; [byte 194; byte 160];
    [byte 225; byte 154; byte 128] ]
  ++ map (fun k => [byte 226; byte 128; byte (128 + k)]) (seq 0 11)
  ++ [ [byte 226; byte 128; byte 168]; [byte 226; byte 128; byte 169];
       [byte 226; byte 128; byte 175]; [byte 226; byte 129; byte 159];
       [byte 227; byte 128; byte 128] ].

(** The length of the white-space character the string starts with, when it
    starts with one. *)
Definition spaceAtHead (encodings : list gostring) (s : gostring) : option nat :=
  match s with
  | [] => None
  | c :: _ =>
    if asciiSpace c then Some 1%nat
    else
      match find (fun e => startsWith e s) encodings with
      | Some e => Some (length e)
      | None => None
      end
  end.

Fixpoint trimHead (encodings : list gostring) (fuel : nat) (s : gostring)
  : gostring :=
  match fuel with
  | O => s
  | S fuel =>
    match spaceAtHead encodings s with
    | Some n => trimHead encodings fuel (skipn n s)
    | None => s
    end
  end.

Definition TrimLeftSpace (s : gostring) : gostring :=
  trimHead unicodeSpaces (length s) s.

(** The trailing white space is found reading backwards. *)
Definition TrimRightSpace (s : gostring) : gostring :=
  rev (trimHead (map (@rev ascii) unicodeSpaces) (length s) (rev s)).

(** [strings.TrimSpace]: all leading and trailing white space removed, as
    Unicode defines it. *)
Definition TrimSpace (s : gostring) : gostring :=
  TrimRightSpace (TrimLeftSpace s).

End GoStrings.

(* ================================================================= *)
(** ** Errors *)

Inductive error :=
| ErrSyntax                 (* strconv.ErrSyntax *)
| ErrRange                  (* strconv.ErrRange *)
| Errorf (msg : string).    (* fmt.Errorf and the errors of the services *)

(* ================================================================= *)
(** ** Package [strconv] *)

Module Strconv.

Definition intSize : Z := 64.
Definition maxInt : Z := 2 ^ 63 - 1.
Definition maxUint64 : Z := 2 ^ 64 - 1.

(** The fast path of [Atoi]: every byte a digit, no check for overflow. *)
Fixpoint smallDigits (n : Z) (s : gostring) : option Z :=
  match s with
  | [] => Some n
  | ch :: s' =>
    if isDigit ch then smallDigits (n * 10 + digitVal ch) s' else None
  end.

(** [ParseUint(s, 10, 64)] on the digits that follow the sign. *)
Fixpoint parseUintLoop (n : Z) (s : gostring) : Z * option error :=
  match s with
  | [] => (n, None)
  | c :: s' =>
    if negb (isDigit c) then (0, Some ErrSyntax)
    else if n >=? maxUint64 / 10 + 1 then (maxUint64, Some ErrRange)
    else
      let n1 := n * 10 + digitVal c in
      if n1 >? maxUint64 then (maxUint64, Some ErrRange)
      else parseUintLoop n1 s'
  end.

Definition ParseUint (s : gostring) : Z * option error :=
  match s with
  | [] => (0, Some ErrSyntax)
  | _ :: _ => parseUintLoop 0 s
  end.

(** [ParseInt(s, 10, 0)]. *)
Definition ParseInt (s : gostring) : Z * option error :=
  match s with
  | [] => (0, Some ErrSyntax)
  | c :: s' =>
    let neg := (c =? "-")%char in
    let body := if (c =? "+")%char || neg then s' else s in
    match ParseUint body with
    | (_, Some ErrSyntax) => (0, Some ErrSyntax)
    | (un, _) =>
      let cutoff := 2 ^ (intSize - 1) in
      if negb neg && (un >=? cutoff) then (cutoff - 1, Some ErrRange)
      else if neg && (un >? cutoff) then (- cutoff, Some ErrRange)
      else (if neg then - un else un, None)
    end
  end.

(** [strconv.Atoi]. *)
Definition Atoi (s : gostring) : Z * option error :=
  if ((0 <? length s) && (length s <? 19))%nat then
    match s with
    | c :: s' =>
      let signed := (c =? "-")%char || (c =? "+")%char in
      let body := if signed then s' else s in
      match body with
      | [] => (0, Some ErrSyntax)
      | _ :: _ =>
        match smallDigits 0 body with
        | Some n => (if (c =? "-")%char then - n else n, None)
        | None => (0, Some ErrSyntax)
        end
      end
    | [] => (0, Some ErrSyntax)
    end
  else ParseInt s.

End Strconv.

(* ================================================================= *)
(** ** Package [regexp] *)

Module Regexp.

(** The syntax the patterns of the program are written in: classes of bytes
    (a literal byte is a class of one), concatenation, the greedy [+] and
    [?], and numbered capturing groups. *)
Inductive regex :=
| Class (p : ascii -> bool)
| Cat (r1 r2 : regex)
| Plus (r : regex)
| Quest (r : regex)
| Group (i : nat) (r : regex).

(** What the groups have captured so far. *)
Definition captures := list (nat * gostring).

Fixpoint getCap (caps : captures) (i : nat) : gostring :=
  match caps with
  | [] => []
  | (j, s) :: caps' => if Nat.eqb i j then s else getCap caps' i
  end.

(** The part of [s] read when [rest] is what remains of it. *)
Definition consumed (s rest : gostring) : gostring :=
  firstn (length s - length rest) s.

(** The backtracking matcher: [k] is what has to match after [r].  The order
    in which the alternatives are tried is the order of preference of Go's
    leftmost-first matching.  A repetition is cut off after more rounds than
    the text has bytes, which no round that reads a byte can reach. *)
Fixpoint rmatch (R : Type) (r : regex) (s : gostring) (caps : captures)
    (k : gostring -> captures -> option R) {struct r} : option R :=
  match r with
  | Class p =>
    match s with
    | c :: s' => if p c then k s' caps else None
    | [] => None
    end
  | Cat r1 r2 => rmatch r1 s caps (fun s1 c1 => rmatch r2 s1 c1 k)
  | Quest r1 =>
    match rmatch r1 s caps k with
    | Some x => Some x
    | None => k s caps
    end
  | Plus r1 =>
    (fix loop (n : nat) (s : gostring) (caps : captures) {struct n}
       : option R :=
       match n with
       | O => None
       | S n' =>
         rmatch r1 s caps (fun s1 c1 =>
           match loop n' s1 c1 with
           | Some x => Some x
           | None => k s1 c1
           end)
       end) (S (length s)) s caps
  | Group i r1 =>
    rmatch r1 s caps (fun s1 c1 => k s1 ((i, consumed s s1) :: c1))
  end.

(** A match that starts at the head of [s]: the text of the match and of
    the groups [1..ngroups]. *)
Definition matchHere (re : regex) (ngroups : nat) (s : gostring)
  : option (list gostring) :=
  rmatch re s [] (fun rest caps =>
    Some (consumed s rest :: map (getCap caps) (seq 1 ngroups))).

(** [re.FindStringSubmatch(s)]: the leftmost match; [nil] when there is
    none.  The patterns of the program start with an ASCII byte, so looking
    at every byte offset finds the same match as looking at every rune. *)
Fixpoint FindStringSubmatch (re : regex) (ngroups : nat) (s : gostring)
  : list gostring :=
  match matchHere re ngroups s with
  | Some m => m
  | None =>
    match s with
    | [] => []
    | _ :: s' => FindStringSubmatch re ngroups s'
    end
  end.

(** [\d] *)
Definition digit : regex := Class isDigit.

(** [\s]: tab, newline, form feed, carriage return, space. *)
Definition isReSpace (c : ascii) : bool :=
  (code c =? 9) || (code c =? 10) || (code c =? 12) || (code c =? 13)
  || (code c =? 32).
Definition space : regex := Class isReSpace.

Definition lit (c : ascii) : regex := Class (fun x => (x =? c)%char).

Fixpoint word (w : gostring) (rest : regex) : regex :=
  match w with
  | [] => rest
  | c :: w' => Cat (lit c) (word w' rest)
  end.

End Regexp.

(* ================================================================= *)
(** ** Package [sort] *)

Module GoSort.

(** What [less] has to be for [sort.Slice]: a strict weak ordering. *)
Definition lessOrder (A : Type) (less : A -> A -> bool) : Prop :=
  (forall x, less x x = false)
  /\ (forall x y z, less x y = true -> less y z = true -> less x z = true)
  /\ (forall x y z, less x y = false -> less y z = false -> less x z = false).

(** No element is [less] than one before it. *)
Definition sortedBy (A : Type) (less : A -> A -> bool) (l : list A) : Prop :=
  StronglySorted (fun x y => less y x = false) l.

(** [sort.Slice(x, less)], by its contract: the slice is rearranged into an
    order in which no element is less than an earlier one.  "The sort is not
    guaranteed to be stable": nothing more is promised. *)
Class SliceSorter := {
  Slice : forall A : Type, (A -> A -> bool) -> list A -> list A;
  Slice_perm : forall A (less : A -> A -> bool) l,
      Permutation l (Slice less l);
  Slice_sorted : forall A (less : A -> A -> bool) l,
      lessOrder less -> sortedBy less (Slice less l)
}.

(** [insertionSort_func], the sort [sort.Slice] runs on a slice of at most
    12 elements: each element in turn moves left past the elements it is
    less than.  [sorted] is the part already in order, last element first. *)
Fixpoint insertLeft (A : Type) (less : A -> A -> bool) (x : A)
    (sorted : list A) : list A :=
  match sorted with
  | y :: sorted' =>
    if less x y then y :: insertLeft less x sorted' else x :: sorted
  | [] => [x]
  end.

Definition insertionSort (A : Type) (less : A -> A -> bool) (l : list A)
  : list A :=
  rev (fold_left (fun sorted x => insertLeft less x sorted) l []).

(** A sort that puts each element to the left of the ones it is not greater
    than: as good a [sort.Slice] as any, and equal elements come out in
    reverse. *)
Fixpoint insertBefore (A : Type) (less : A -> A -> bool) (x : A)
    (sorted : list A) : list A :=
  match sorted with
  | y :: sorted' =>
    if less y x then y :: insertBefore less x sorted' else x :: sorted
  | [] => [x]
  end.

Definition reversingSort (A : Type) (less : A -> A -> bool) (l : list A)
  : list A :=
  fold_left (fun sorted x => insertBefore less x sorted) l [].

(** The elements of [l] that are neither less nor greater than [x], in the
    order they have in [l]. *)
Definition equalTo (A : Type) (less : A -> A -> bool) (x : A) (l : list A)
  : list A :=
  filter (fun y => negb (less x y) && negb (less y x)) l.

(** A stable rearrangement keeps the order of equal elements. *)
Definition stable (A : Type) (less : A -> A -> bool) (before after : list A)
  : Prop :=
  forall x, equalTo less x after = equalTo less x before.

(** *** The sort Go runs

    [sort.Slice] is a pattern-defeating quicksort ([pdqsort_func], Go 1.19
    and later) over the indices of the slice.  The model follows it as long
    as every partition is balanced: where the sort would scatter elements
    ([breakPatterns_func]) or fall back to [heapSort_func] the model gives
    [None]. *)
Section Pdqsort.
Local Open Scope nat_scope.
Variable A : Type.
Variable less : A -> A -> bool.

(** [data.Less(i, j)] and [data.Swap(i, j)] *)
Definition Less (data : list A) (i j : nat) : bool :=
  match nth_error data i, nth_error data j with
  | Some x, Some y => less x y
  | _, _ => false
  end.

Fixpoint setNth (data : list A) (i : nat) (x : A) : list A :=
  match data, i with
  | [], _ => []
  | _ :: rest, O => x :: rest
  | y :: rest, S i' => y :: setNth rest i' x
  end.

Definition Swap (data : list A) (i j : nat) : list A :=
  match nth_error data i, nth_error data j with
  | Some x, Some y => setNth (setNth data i y) j x
  | _, _ => data
  end.

(** [insertionSort_func(data, a, b)], by what it does to [data[a:b]]. *)
Definition insertionSort_func (data : list A) (a b : nat) : list A :=
  firstn a data ++ insertionSort less (firstn (b - a) (skipn a data))
  ++ skipn b data.

Inductive sortedHint := unknownHint | increasingHint | decreasingHint.

(** [order2_func]: the two indices with the smaller element first, and the
    count of swaps. *)
Definition order2_func (data : list A) (a b swaps : nat) : nat * nat * nat :=
  if Less data b a then (b, a, S swaps) else (a, b, swaps).

(** [median_func]: the index of the median of three elements. *)
Definition median_func (data : list A) (a b c swaps : nat) : nat * nat :=
  let '(a, b, swaps) := order2_func data a b swaps in
  let '(b, c, swaps) := order2_func data b c swaps in
  let '(a, b, swaps) := order2_func data a b swaps in
  (b, swaps).

Definition medianAdjacent_func (data : list A) (a swaps : nat) : nat * nat :=
  median_func data (a - 1) a (a + 1) swaps.

(** [choosePivot_func] *)
Definition choosePivot_func (data : list A) (a b : nat) : nat * sortedHint :=
  let shortestNinther := 50 in
  let maxSwaps := (4 * 3) in
  let l := (b - a) in
  let i := (a + l / 4 * 1) in
  let j := (a + l / 4 * 2) in
  let k := (a + l / 4 * 3) in
  let '(j, swaps) :=
    if (8 <=? l) then
      let '(i, j, k, swaps) :=
        if (shortestNinther <=? l) then
          let '(i, swaps) := medianAdjacent_func data i 0 in
          let '(j, swaps) := medianAdjacent_func data j swaps in
          let '(k, swaps) := medianAdjacent_func data k swaps in
          (i, j, k, swaps)
        else (i, j, k, 0) in
      median_func data i j k swaps
    else (j, 0) in
  if (swaps =? 0) then (j, increasingHint)
  else if (swaps =? maxSwaps) then (j, decreasingHint)
  else (j, unknownHint).

(** [reverseRange_func] *)
Fixpoint reverseLoop (fuel : nat) (data : list A) (i j : nat) : list A :=
  match fuel with
  | O => data
  | S fuel =>
    if (i <? j) then reverseLoop fuel (Swap data i j) (i + 1) (j - 1)
    else data
  end.

Definition reverseRange_func (data : list A) (a b : nat) : list A :=
  reverseLoop (b - a) data a (b - 1).

(** The loop [for i < b && !data.Less(i, i-1) { i++ }] *)
Fixpoint skipOrdered (fuel : nat) (data : list A) (i b : nat) : nat :=
  match fuel with
  | O => i
  | S fuel =>
    if (i <? b) && negb (Less data i (i - 1))
    then skipOrdered fuel data (i + 1) b else i
  end.

(** The loop that shifts the smaller element to the left, from [j] down
    to 1. *)
Fixpoint shiftLeft (fuel : nat) (data : list A) (j : nat) : list A :=
  match fuel with
  | O => data
  | S fuel =>
    if (1 <=? j) then
      if negb (Less data j (j - 1)) then data
      else shiftLeft fuel (Swap data j (j - 1)) (j - 1)
    else data
  end.

(** The loop that shifts the greater element to the right, from [j] up
    to [b]. *)
Fixpoint shiftRight (fuel : nat) (data : list A) (j b : nat) : list A :=
  match fuel with
  | O => data
  | S fuel =>
    if (j <? b) then
      if negb (Less data j (j - 1)) then data
      else shiftRight fuel (Swap data j (j - 1)) (j + 1) b
    else data
  end.

(** [partialInsertionSort_func]: the slice, and whether it is sorted at the
    end; [steps] counts the rounds that are left of [maxSteps]. *)
Fixpoint partialInsertionLoop (steps : nat) (data : list A) (a b i : nat)
  : list A * bool :=
  match steps with
  | O => (data, false)
  | S steps =>
    let i := skipOrdered (b - i) data i b in
    if (i =? b) then (data, true)
    else if (b - a <? 50) then (data, false)
    else
      let data := Swap data i (i - 1) in
      let data :=
        if (2 <=? i - a) then shiftLeft (i - 1) data (i - 1) else data in
      let data :=
        if (2 <=? b - i) then shiftRight (b - (i + 1)) data (i + 1) b
        else data in
      partialInsertionLoop steps data a b i
  end.

Definition partialInsertionSort_func (data : list A) (a b : nat)
  : list A * bool :=
  partialInsertionLoop 5 data a b (a + 1).

(** The two scans of a partition: [i] goes up while [up i] holds, then [j]
    goes down while [down j] holds. *)
Fixpoint scanUp (fuel : nat) (up : nat -> bool) (i j : nat) : nat :=
  match fuel with
  | O => i
  | S fuel => if (i <=? j) && up i then scanUp fuel up (i + 1) j else i
  end.

Fixpoint scanDown (fuel : nat) (down : nat -> bool) (i j : nat) : nat :=
  match fuel with
  | O => j
  | S fuel => if (i <=? j) && down j then scanDown fuel down i (j - 1) else j
  end.

(** The loop of [partition_func] and of [partitionEqual_func]: scan, and
    swap while the scans have not met. *)
Fixpoint partitionLoop (fuel : nat) (up down : list A -> nat -> bool)
    (data : list A) (i j : nat) : list A * nat * nat :=
  match fuel with
  | O => (data, i, j)
  | S fuel =>
    let i := scanUp (S j - i) (up data) i j in
    let j := scanDown (S j - i) (down data) i j in
    if j <? i then (data, i, j)
    else partitionLoop fuel up down (Swap data i j) (i + 1) (j - 1)
  end.

(** [partitionEqual_func] *)
Definition partitionEqual_func (data : list A) (a b pivot : nat)
  : list A * nat :=
  let data := Swap data a pivot in
  let '(data, i, _) :=
    partitionLoop (b - a)
      (fun data i => negb (Less data a i)) (fun data j => Less data a j)
      data (a + 1) (b - 1) in
  (data, i).

(** [partition_func]: the slice, the place of the pivot, and whether the
    slice was partitioned already. *)
Definition partition_func (data : list A) (a b pivot : nat)
  : list A * nat * bool :=
  let data := Swap data a pivot in
  let up := fun data i => Less data i a in
  let down := fun data j => negb (Less data j a) in
  let i := scanUp (b - a) (up data) (a + 1) (b - 1) in
  let j := scanDown (b - a) (down data) i (b - 1) in
  if j <? i then (Swap data j a, j, true)
  else
    let data := Swap data i j in
    let '(data, _, j) := partitionLoop (b - a) up down data (i + 1) (j - 1) in
    (Swap data j a, j, false).

(** [pdqsort_func(data, a, b, limit)], with the two flags of its loop. *)
Fixpoint pdqsortLoop (fuel : nat) (data : list A) (a b limit : nat)
    (wasBalanced wasPartitioned : bool) : option (list A) :=
  match fuel with
  | O => None
  | S fuel =>
    let length := (b - a) in
    if (length <=? 12) then Some (insertionSort_func data a b)
    else if (limit =? 0) then None
    else if negb wasBalanced then None
    else
      let '(pivot, hint) := choosePivot_func data a b in
      let '(data, pivot, hint) :=
        match hint with
        | decreasingHint =>
          (reverseRange_func data a b, (b - 1 - (pivot - a)), increasingHint)
        | _ => (data, pivot, hint)
        end in
      let '(data, done) :=
        match wasPartitioned, hint with
        | true, increasingHint => partialInsertionSort_func data a b
        | _, _ => (data, false)
        end in
      if done then Some data
      else if (0 <? a) && negb (Less data (a - 1) pivot) then
        let '(data, mid) := partitionEqual_func data a b pivot in
        pdqsortLoop fuel data mid b limit wasBalanced wasPartitioned
      else
        let '(data, mid, alreadyPartitioned) := partition_func data a b pivot in
        let leftLen := (mid - a) in
        let rightLen := (b - mid) in
        let balanceThreshold := (length / 8) in
        if (leftLen <? rightLen) then
          let wasBalanced := (balanceThreshold <=? leftLen) in
          match pdqsortLoop fuel data a mid limit true true with
          | None => None
          | Some data =>
            pdqsortLoop fuel data (mid + 1) b limit wasBalanced alreadyPartitioned
          end
        else
          let wasBalanced := (balanceThreshold <=? rightLen) in
          match pdqsortLoop fuel data (mid + 1) b limit true true with
          | None => None
          | Some data =>
            pdqsortLoop fuel data a mid limit wasBalanced alreadyPartitioned
          end
  end.

(** [bits.Len] *)
Definition bitsLen (n : nat) : nat :=
  match n with O => O | _ => S (Nat.log2 n) end.

(** [sort.Slice(x, less)] as Go runs it. *)
Definition pdqsortSlice (x : list A) : option (list A) :=
  let length := length x in
  pdqsortLoop (S length) x 0 length (bitsLen length) true true.

End Pdqsort.

End GoSort.

(* ================================================================= *)
(** ** The table service (Google Sheets), as the program uses it *)

Module Sheets.

(** A cell of a row, an [interface{}] in Go: absent, a string, an integer
    (what [appendToSheet] writes), a floating-point number, or a boolean.  A
    floating-point cell is kept as the text [%v] prints for it. *)
Inductive Cell :=
| CNil
| CString (s : gostring)
| CInt (n : Z)
| CFloat (printed : gostring)
| CBool (b : bool).

Definition Row := list Cell.

(** One call of [Spreadsheets.Values.Append]. *)
Record AppendCall := mkAppendCall {
  acSpreadsheet : gostring;
  acRange : gostring;
  acValues : list Row
}.

(** The service: the rows of the sheet, the append calls it has received,
    and whether its reads and its writes succeed. *)
Record Service := mkService {
  sheet : list Row;
  appendCalls : list AppendCall;
  readable : bool;
  writable : bool
}.

(** [srv.Spreadsheets.Values.Get(id, range).Do()] *)
Definition ValuesGet (srv : Service) (spreadsheetID readRange : gostring)
  : list Row * option error :=
  if readable srv then (sheet srv, None)
  else ([], Some (Errorf "get")).

(** [srv.Spreadsheets.Values.Append(id, range, values)...Do()] with
    [INSERT_ROWS]: the rows are added after the last row of the sheet. *)
Definition ValuesAppend (srv : Service) (spreadsheetID sheetRange : gostring)
    (values : list Row) : Service * option error :=
  let calls := appendCalls srv ++ [mkAppendCall spreadsheetID sheetRange values] in
  if writable srv
  then (mkService (sheet srv ++ values) calls (readable srv) (writable srv), None)
  else (mkService (sheet srv) calls (readable srv) (writable srv),
        Some (Errorf "append")).

End Sheets.

(* ================================================================= *)
(** ** [main.go] *)

Module Zillow.
Import GoTime GoStrings Sheets.

Definition dateFormat : gostring := str "2006-01-02".
Definition emailSubject : gostring :=
  str "Your Daily Listing Report: 9121 Blackhawk Rd".
Definition fallbackFilterDate : gostring := str "2025-05-21".

Record Config := mkConfig {
  SpreadsheetID : gostring;
  Range : gostring;
  YahooUsername : gostring;
  YahooAppPassword : gostring
}.

Record EmailMessage := mkEmail {
  Subject : gostring;
  Date : Time;
  Content : gostring;
  ID : gostring;
  ZillowSaves : Z
}.

(** [email.ZillowSaves = n] *)
Definition setZillowSaves (email : EmailMessage) (n : Z) : EmailMessage :=
  mkEmail (Subject email) (Date email) (Content email) (ID email) n.

(** [getSheetData] *)
Definition getSheetData (srv : Service) (spreadsheetID readRange : gostring)
  : list Row * option error :=
  match ValuesGet srv spreadsheetID readRange with
  | (_, Some err) => ([], Some (Errorf "unable to retrieve data from sheet"))
  | (values, None) => (values, None)
  end.

(** The row [appendToSheet] builds for an email: [[Date, Saves Count]]. *)
Definition rowOf (email : EmailMessage) : Row :=
  [CString (Format (Date email) (str "2006-01-02")); CInt (ZillowSaves email)].

(** [appendToSheet] *)
Definition appendToSheet (srv : Service) (spreadsheetID sheetRange : gostring)
    (emails : list EmailMessage) : Service * option error :=
  let values := map rowOf emails in
  if (length values =? 0)%nat then (srv, None)
  else
    match ValuesAppend srv spreadsheetID sheetRange values with
    | (srv, Some err) => (srv, Some (Errorf "unable to append data to sheet"))
    | (srv, None) => (srv, None)
    end.

(** The one active pattern, [(\d+)\s+saves?]. *)
Definition savesPattern : Regexp.regex :=
  Regexp.Cat (Regexp.Group 1 (Regexp.Plus Regexp.digit))
    (Regexp.Cat (Regexp.Plus Regexp.space)
       (Regexp.word (str "save") (Regexp.Quest (Regexp.lit "s")))).

(** The patterns with the number of groups of each. *)
Definition patterns : list (Regexp.regex * nat) := [(savesPattern, 1%nat)].

(** The loop of [extractZillowSavesCount] over the patterns. *)
Fixpoint firstCount (patterns : list (Regexp.regex * nat))
    (lowerContent : gostring) : Z * option error :=
  match patterns with
  | [] => (0, None)
  | (re, ngroups) :: rest =>
    let matches := Regexp.FindStringSubmatch re ngroups lowerContent in
    if (1 <? length matches)%nat then
      match Strconv.Atoi (nth 1 matches []) with
      | (count, None) => (count, None)
      | (_, Some _) => firstCount rest lowerContent
      end
    else firstCount rest lowerContent
  end.

(** [extractZillowSavesCount] *)
Definition extractZillowSavesCount {tables : UnicodeTables} (content : gostring)
  : Z * option error :=
  let lowerContent := ToLower content in
  firstCount patterns lowerContent.

(** The loop of [processData] over the emails: the gate [bOK] and the
    emails as the loop leaves them.  An email whose extraction returns an
    error gets -1 and ends the loop; the emails after it are not touched.
    The extractor is a parameter of the loop. *)
Fixpoint extractLoop (extract : gostring -> Z * option error)
    (emails : list EmailMessage) : bool * list EmailMessage :=
  match emails with
  | [] => (true, [])
  | email :: rest =>
    match extract (Content email) with
    | (count, None) =>
      let '(bOK, rest) := extractLoop extract rest in
      (bOK, setZillowSaves email count :: rest)
    | (_, Some err) => (false, setZillowSaves email (-1) :: rest)
    end
  end.

(** [processData]: the emails are changed in place, and appended when the
    gate is still open; what [appendToSheet] returns is dropped. *)
Definition processDataWith (extract : gostring -> Z * option error)
    (srv : Service) (config : Config) (rows : list Row)
    (emails : list EmailMessage) : Service * list EmailMessage :=
  let '(bOK, emails) := extractLoop extract emails in
  if bOK
  then (fst (appendToSheet srv (SpreadsheetID config) (Range config) emails),
        emails)
  else (srv, emails).

Definition processData {tables : UnicodeTables} :=
  processDataWith extractZillowSavesCount.

(** [fmt.Sprintf("%v", cell)] *)
Definition sprintV (c : Cell) : gostring :=
  match c with
  | CNil => str "<nil>"
  | CString s => s
  | CInt n => appendInt n 0
  | CFloat printed => printed
  | CBool true => str "true"
  | CBool false => str "false"
  end.

(** The alternative date formats, in the order they are tried. *)
Definition formats : list gostring :=
  map str ["1/2/2006"; "01/02/2006"; "2006/01/02"; "Jan 2, 2006"]%string.

(** The loop over the alternative formats: the day after the date of the
    first format that parses. *)
Fixpoint tryFormats (formats : list gostring) (dateStr : gostring)
  : option gostring :=
  match formats with
  | [] => None
  | format :: rest =>
    match Parse format dateStr with
    | Some parsedDate =>
      let nextDay := AddDate parsedDate 0 0 1 in
      Some (Format nextDay (str "2006-01-02"))
    | None => tryFormats rest dateStr
    end
  end.

(** The filter date [doZillow] works out from the last row of the sheet:
    the value of [dynamicFilterDate] when the mail is fetched. *)
Definition dynamicFilterDate (rows : list Row) : gostring :=
  match rev rows with
  | lastRow :: _ =>
    match lastRow with
    | cell :: _ =>
      match cell with
      | CNil => fallbackFilterDate
      | _ =>
        let dateStr := TrimSpace (sprintV cell) in
        match Parse (str "2006-01-02") dateStr with
        | Some parsedDate =>
          let nextDay := AddDate parsedDate 0 0 1 in
          Format nextDay (str "2006-01-02")
        | None =>
          match tryFormats formats dateStr with
          | Some d => d
          | None => fallbackFilterDate
          end
        end
      end
    | [] => fallbackFilterDate
    end
  | [] => fallbackFilterDate
  end.

(** What is outside the program: whether the Google client and the Sheets
    service can be set up, the service, and the mailbox behind
    [getYahooEmails], asked for a subject and a date. *)
Record World := mkWorld {
  clientError : option error;
  serviceError : option error;
  service : Service;
  mailbox : gostring -> gostring -> list EmailMessage * option error
}.

(** How a run ends: [log.Fatalf], or [doZillow] returns, with the service
    and the emails as the run leaves them. *)
Inductive Outcome :=
| Fatal (msg : string)
| Returned (err : option error) (srv : Service) (emails : list EmailMessage).

(** [d.Before] of the dates of two emails: the [less] of [doZillow]. *)
Definition dateBefore (a b : EmailMessage) : bool := Before (Date a) (Date b).

(** [doZillow] *)
Definition doZillow {tables : UnicodeTables} {sorter : GoSort.SliceSorter}
    (config : Config)
    (w : World) : Outcome :=
  match clientError w with
  | Some _ => Fatal "Unable to create Google client"
  | None =>
    match serviceError w with
    | Some _ =>
      Returned (Some (Errorf "unable to retrieve Sheets client")) (service w) []
    | None =>
      let srv := service w in
      match getSheetData srv (SpreadsheetID config) (Range config) with
      | (_, Some _) => Fatal "Failed to get sheet data"
      | (rows, None) =>
        let filterDate := dynamicFilterDate rows in
        match mailbox w emailSubject filterDate with
        | (_, Some _) => Fatal "Failed to get Yahoo emails"
        | (emails, None) =>
          let emails := GoSort.Slice dateBefore emails in
          let '(srv, emails) := processData srv config rows emails in
          Returned None srv emails
        end
      end
    end
  end.

End Zillow.

(* ================================================================= *)
(** ** The notions the properties are stated with *)

Module Notions.
Import GoTime GoStrings Sheets Zillow.

(** [t.Format(layout)] goes by the date of [t] alone. *)
Definition formatDate (layout : gostring) (ymd : Z * Z * Z) : gostring :=
  formatLoop (S (length layout)) layout ymd.

(** A date written [YYYY-MM-DD]. *)
Definition isoDate (ymd : Z * Z * Z) : gostring :=
  let '(y, m, d) := ymd in
  appendInt y 4 ++ str "-" ++ appendInt m 2 ++ str "-" ++ appendInt d 2.

(** The date a value has under a layout. *)
Definition parseDate (layout value : gostring) : option (Z * Z * Z) :=
  option_map civil (Parse layout value).

(** The primary format and the alternative formats. *)
Definition allLayouts : list gostring := str "2006-01-02" :: formats.

(** The number a run of digits stands for, after the digits of [n]. *)
Fixpoint decimalFrom (n : Z) (s : gostring) : Z :=
  match s with
  | [] => n
  | c :: s' => decimalFrom (n * 10 + digitVal c) s'
  end.

Definition decimalValue (s : gostring) : Z := decimalFrom 0 s.

(** The pattern occurs at the head of [s]: digits, white space, ["save"]. *)
Definition occursAt (s : gostring) : Prop :=
  exists ds ws rest,
    s = ds ++ ws ++ str "save" ++ rest
    /\ ds <> [] /\ forallb isDigit ds = true
    /\ ws <> [] /\ forallb Regexp.isReSpace ws = true.

(** Tables for text in ASCII, which [ToLower] does not consult. *)
Definition asciiText : UnicodeTables := {| mapToLower := fun s => s |}.

(** The pattern finds nothing in the content. *)
Definition noMatch (content : gostring) : Prop :=
  Regexp.FindStringSubmatch savesPattern 1 (@ToLower asciiText content) = [].

(** The instant of [t] is not after the instant of [u]. *)
Definition notAfter (t u : Time) : Prop :=
  wallSec t < wallSec u \/ (wallSec t = wallSec u /\ nsec t <= nsec u).

(** The emails with the counts the extractor returns written into them. *)
Definition withCounts (extract : gostring -> Z * option error)
    (emails : list EmailMessage) : list EmailMessage :=
  map (fun email => setZillowSaves email (fst (extract (Content email)))) emails.

(** The first cell of a row. *)
Definition dateCell (row : Row) : Cell := nth 0 row CNil.

(** All the emails carry the same zone offset. *)
Definition sameZone (emails : list EmailMessage) : Prop :=
  forall e1 e2, In e1 emails -> In e2 emails ->
                zoneOffset (Date e1) = zoneOffset (Date e2).

(** *** Runs to try the program on *)

Definition testConfig : Config :=
  mkConfig (str "sheet-id") (str "Sheet1!A:Z") (str "user@yahoo.com") (str "secret").

(** A world in which every service answers: the sheet has [rows], and the
    mailbox returns [emails] whatever it is asked. *)
Definition worldOf (rows : list Row) (emails : list EmailMessage) : World :=
  mkWorld None None (mkService rows [] true true) (fun _ _ => (emails, None)).

Definition emailAt (id : string) (date : Time) (content : string)
  : EmailMessage :=
  mkEmail emailSubject date (str content) (str id) 0.

(** Thirteen emails fetched in the order of their IDs: twelve of the same
    instant, and the one fetched seventh a day earlier. *)
Definition sameDateBatch : list EmailMessage :=
  map (fun id => emailAt id (GoTime.Date 2025 7 21 9 0 0 0 UTC) "5 saves")
      ["0"; "1"; "2"; "3"; "4"; "5"]%string
  ++ [emailAt "6" (GoTime.Date 2025 7 20 9 0 0 0 UTC) "4 saves"]
  ++ map (fun id => emailAt id (GoTime.Date 2025 7 21 9 0 0 0 UTC) "5 saves")
         ["7"; "8"; "9"; "10"; "11"; "12"]%string.

(** Twelve emails of the same instant, fetched before an earlier one. *)
Definition earlierLastBatch : list EmailMessage :=
  map (fun id => emailAt id (GoTime.Date 2025 7 21 9 0 0 0 UTC) "5 saves")
      ["0"; "1"; "2"; "3"; "4"; "5"; "6"; "7"; "8"; "9"; "10"; "11"]%string
  ++ [emailAt "12" (GoTime.Date 2025 7 20 9 0 0 0 UTC) "4 saves"].

End Notions.

(* ================================================================= *)
(** ** The mail client (package [go-imap]), as the program uses it *)

Module Imap.
Import GoTime.

(** [imap.Envelope]: the subject and the date of a message. *)
Record Envelope := mkEnvelope { envSubject : gostring; envDate : Time }.

(** [imap.Message]: the envelope, when the server sent one, the sequence
    number (a [uint32]), and the body sections in the order the loop over
    [msg.Body] meets them, each as what [ioutil.ReadAll] returns for it. *)
Record Message := mkMessage {
  msgEnvelope : option Envelope;
  SeqNum : Z;
  Body : list (gostring * option error)
}.

(** What the client sends. *)
Inductive Command :=
| CmdDialTLS (addr : gostring)
| CmdLogin (username password : gostring)
| CmdSelect (name : gostring) (readOnly : bool)
| CmdSearchSince (since : Time)
| CmdFetch (seqs : list Z)
| CmdLogout.

(** How the server answers.  [fetch] gives the messages that arrive on the
    channel before it is closed and the error [Fetch] returns. *)
Record Server := mkServer {
  dialTLS : gostring -> option error;
  login : gostring -> gostring -> option error;
  select : gostring -> bool -> option error;
  search : Time -> list Z * option error;
  fetch : list Z -> list Message * option error
}.

End Imap.

(* ================================================================= *)
(** ** The mail step: [connectToYahooIMAP] and [getYahooEmails] *)

Module YahooImap.
Import GoTime GoStrings Zillow Imap.

(** [strings.Contains(s, substr)] *)
Fixpoint Contains (s substr : gostring) : bool :=
  startsWith substr s
  || match s with
     | [] => false
     | _ :: s' => Contains s' substr
     end.

(** [fmt.Sprintf("%d", n)] *)
Definition sprintD (n : Z) : gostring := appendInt n 0.

(** The loop over [msg.Body]: the content is the first section that is read
    without an error; with none, the content stays empty. *)
Fixpoint readBody (body : list (gostring * option error)) : gostring :=
  match body with
  | [] => []
  | (b, None) :: _ => b
  | (_, Some _) :: rest => readBody rest
  end.

(** The loop over the messages the fetch delivers. *)
Fixpoint collect {tables : UnicodeTables} (subject : gostring)
    (messages : list Message) : list EmailMessage :=
  match messages with
  | [] => []
  | msg :: rest =>
    match msgEnvelope msg with
    | None => collect subject rest
    | Some envelope =>
      if negb (Contains (ToLower (envSubject envelope)) (ToLower subject))
      then collect subject rest
      else
        mkEmail (envSubject envelope) (envDate envelope) (readBody (Body msg))
                (sprintD (SeqNum msg)) 0
        :: collect subject rest
    end
  end.

Definition yahooAddr : gostring := str "imap.mail.yahoo.com:993".

(** [connectToYahooIMAP]: what it returns, and the commands it has sent.
    [defer c.Logout()] sends the logout on every return after the dial. *)
Definition connectToYahooIMAP {tables : UnicodeTables} (server : Server)
    (username password subject since : gostring)
  : (list EmailMessage * option error) * list Command :=
  match Parse (str "2006-01-02") since with
  | None => (([], Some (Errorf "invalid date format")), [])
  | Some filterTime =>
    match dialTLS server yahooAddr with
    | Some _ =>
      (([], Some (Errorf "failed to connect to Yahoo IMAP")),
       [CmdDialTLS yahooAddr])
    | None =>
      match login server username password with
      | Some _ =>
        (([], Some (Errorf "failed to login")),
         [CmdDialTLS yahooAddr; CmdLogin username password; CmdLogout])
      | None =>
        match select server (str "INBOX") false with
        | Some _ =>
          (([], Some (Errorf "failed to select INBOX")),
           [CmdDialTLS yahooAddr; CmdLogin username password;
            CmdSelect (str "INBOX") false; CmdLogout])
        | None =>
          match search server filterTime with
          | (_, Some _) =>
            (([], Some (Errorf "search failed")),
             [CmdDialTLS yahooAddr; CmdLogin username password;
              CmdSelect (str "INBOX") false; CmdSearchSince filterTime;
              CmdLogout])
          | (uids, None) =>
            if (length uids =? 0)%nat then
              (([], None),
               [CmdDialTLS yahooAddr; CmdLogin username password;
                CmdSelect (str "INBOX") false; CmdSearchSince filterTime;
                CmdLogout])
            else
              let '(messages, done) := fetch server uids in
              let emailMessages := collect subject messages in
              ((emailMessages,
                match done with
                | Some _ => Some (Errorf "fetch failed")
                | None => None
                end),
               [CmdDialTLS yahooAddr; CmdLogin username password;
                CmdSelect (str "INBOX") false; CmdSearchSince filterTime;
                CmdFetch uids; CmdLogout])
          end
        end
      end
    end
  end.

(** [getYahooEmails] *)
Definition getYahooEmails {tables : UnicodeTables} (server : Server)
    (username appPassword subject since : gostring)
  : (list EmailMessage * option error) * list Command :=
  connectToYahooIMAP server username appPassword subject since.

(** The world of a run whose mail comes from [server]: the mailbox of
    [doZillow] is [getYahooEmails] with the credentials of the
    configuration. *)
Definition yahooWorld {tables : UnicodeTables} (config : Config)
    (srv : Sheets.Service) (server : Server) : World :=
  mkWorld None None srv
    (fun subject since =>
       fst (getYahooEmails server (YahooUsername config)
              (YahooAppPassword config) subject since)).

End YahooImap.

(* ================================================================= *)
(** ** What [processData] prints of the sheet *)

Module Console.
Import GoTime Sheets Zillow.

Definition newline : gostring := ["010"%char].

(** [%v] of a row: the cells between brackets, a space between two. *)
Fixpoint joinCells (cells : list Cell) : gostring :=
  match cells with
  | [] => []
  | [cell] => sprintV cell
  | cell :: rest => sprintV cell ++ str " " ++ joinCells rest
  end.

Definition sprintRow (row : Row) : gostring :=
  str "[" ++ joinCells row ++ str "]".

(** [fmt.Printf("Row %d: %v\n", n, row)] *)
Definition rowLine (n : Z) (row : Row) : gostring :=
  str "Row " ++ YahooImap.sprintD n ++ str ": " ++ sprintRow row ++ newline.

(** [fmt.Printf("... and %d more rows\n", n)] *)
Definition moreLine (n : Z) : gostring :=
  str "... and " ++ YahooImap.sprintD n ++ str " more rows" ++ newline.

(** The first loop of [processData], from index [i] on: what each [Printf]
    writes.  [total] is [len(rows)]. *)
Fixpoint printRowsFrom (total i : Z) (rows : list Row) : list gostring :=
  match rows with
  | [] => []
  | row :: rest =>
    rowLine (i + 1) row
    :: (if i >=? 4 then [moreLine (total - 5)]
        else printRowsFrom total (i + 1) rest)
  end.

Definition printRows (rows : list Row) : list gostring :=
  printRowsFrom (Z.of_nat (length rows)) 0 rows.

End Console.

(* ================================================================= *)
(** ** More notions the properties are stated with *)

Module RunNotions.
Import GoTime GoStrings Sheets Zillow Imap YahooImap.

(** A byte that is printed and is no space. *)
Definition printable (c : ascii) : bool := (33 <=? code c) && (code c <=? 126).

(** The text starts and ends with such a byte. *)
Definition printableEnds (s : gostring) : bool :=
  match s, rev s with
  | c1 :: _, c2 :: _ => printable c1 && printable c2
  | _, _ => false
  end.

Definition isLogout (c : Command) : bool :=
  match c with CmdLogout => true | _ => false end.

Definition isLogin (c : Command) : bool :=
  match c with CmdLogin _ _ => true | _ => false end.

(** A server that accepts every step, finds [uids] and delivers
    [messages]. *)
Definition openServer (uids : list Z) (messages : list Message) : Server :=
  mkServer (fun _ => None) (fun _ _ => None) (fun _ _ => None)
           (fun _ => (uids, None)) (fun _ => (messages, None)).

(** Three messages: one with the subject of the report in capitals behind a
    prefix, one with another subject, one without an envelope. *)
Definition threeMessages : list Message :=
  [mkMessage
     (Some (mkEnvelope (str "Fwd: YOUR DAILY LISTING REPORT: 9121 BLACKHAWK RD")
              (GoTime.Date 2025 7 20 6 0 0 0 UTC)))
     41 [(str "partial", Some (Errorf "read")); (str "12 saves", None)];
   mkMessage
     (Some (mkEnvelope (str "Your Weekly Listing Report")
              (GoTime.Date 2025 7 20 7 0 0 0 UTC)))
     42 [(str "99 saves", None)];
   mkMessage None 43 [(str "77 saves", None)]].

(** The sorter does to the batch what Go's sort does to it, wherever the
    model of Go's sort has a result. *)
Definition runsGoSort (sorter : GoSort.SliceSorter)
    (emails : list EmailMessage) : Prop :=
  forall sorted,
    GoSort.pdqsortSlice dateBefore emails = Some sorted ->
    GoSort.Slice dateBefore emails = sorted.

(** *** The texts [%v] prints for a [float64]

    The numbers of a sheet arrive as [float64].  [%v] prints a [float64] the
    way [strconv.FormatFloat(f, 'g', -1, 64)] does: an optional minus sign
    and digits, with a fraction or without, with an exponent [e+dd] or
    [e-dd] of at least two digits or without; or [NaN], [+Inf], [-Inf]. *)






End RunNotions.

Module GoTimeFacts.
Import GoTime.

Lemma shiftr2_small n : 0 <= n <= 4 -> Z.shiftr n 2 = if n =? 4 then 1 else 0.
Proof.
  intros H. rewrite Z.shiftr_div_pow2 by lia. change (2 ^ 2) with 4.
  destruct (n =? 4) eqn:E.
  - apply Z.eqb_eq in E. subst. reflexivity.
  - apply Z.eqb_neq in E. apply Z.div_small. lia.
Qed.

Lemma mod_eqb_top x k : 0 < x <= k -> (x mod k =? 0) = (x =? k).
Proof.
  intros H. destruct (Z.eqb_spec x k) as [->|Hne].
  - rewrite Z_mod_same_full. reflexivity.
  - rewrite Z.mod_small by lia. apply Z.eqb_neq. lia.
Qed.

Lemma isLeap_cycle q a b c :
  0 <= a <= 3 -> 0 <= b <= 24 -> 0 <= c <= 3 ->
  isLeap (400 * q + 100 * a + 4 * b + c + 1)
  = (c =? 3) && (negb (b =? 24) || (a =? 3)).
Proof.
  intros Ha Hb Hc. unfold isLeap.
  set (y := 400 * q + 100 * a + 4 * b + c + 1).
  assert (H4 : y mod 4 = (c + 1) mod 4).
  { unfold y. replace (400 * q + 100 * a + 4 * b + c + 1)
      with (c + 1 + (100 * q + 25 * a + b) * 4) by ring.
    apply Z.mod_add. lia. }
  assert (H100 : y mod 100 = (4 * b + c + 1) mod 100).
  { unfold y. replace (400 * q + 100 * a + 4 * b + c + 1)
      with (4 * b + c + 1 + (4 * q + a) * 100) by ring.
    apply Z.mod_add. lia. }
  assert (H400 : y mod 400 = (100 * a + 4 * b + c + 1) mod 400).
  { unfold y. replace (400 * q + 100 * a + 4 * b + c + 1)
      with (100 * a + 4 * b + c + 1 + q * 400) by ring.
    apply Z.mod_add. lia. }
  rewrite H4, H100, H400.
  rewrite !mod_eqb_top by lia.
  destruct (Z.eqb_spec (c + 1) 4), (Z.eqb_spec c 3); try lia;
    destruct (Z.eqb_spec (4 * b + c + 1) 100), (Z.eqb_spec b 24); try lia;
    destruct (Z.eqb_spec (100 * a + 4 * b + c + 1) 400), (Z.eqb_spec a 3);
    try lia; reflexivity.
Qed.

Lemma daysSinceEpoch_cycle q a b c :
  0 <= a <= 3 -> 0 <= b <= 24 -> 0 <= c <= 3 ->
  daysSinceEpoch (400 * q + 100 * a + 4 * b + c + 1)
  = 146097 * q + 36524 * a + 1461 * b + 365 * c.
Proof.
  intros Ha Hb Hc. unfold daysSinceEpoch, daysPer400Years, daysPer100Years, daysPer4Years.
  replace (400 * q + 100 * a + 4 * b + c + 1 - 1) with (400 * q + (100 * a + 4 * b + c)) by ring.
  assert (E1 : (400 * q + (100 * a + 4 * b + c)) / 400 = q).
  { rewrite Z.mul_comm, Z.div_add_l by lia. rewrite Z.div_small by lia. lia. }
  rewrite E1.
  replace (400 * q + (100 * a + 4 * b + c) - 400 * q) with (100 * a + (4 * b + c)) by ring.
  assert (E2 : (100 * a + (4 * b + c)) / 100 = a).
  { rewrite Z.mul_comm, Z.div_add_l by lia. rewrite Z.div_small by lia. lia. }
  rewrite E2.
  replace (100 * a + (4 * b + c) - 100 * a) with (4 * b + c) by ring.
  assert (E3 : (4 * b + c) / 4 = b).
  { rewrite Z.mul_comm, Z.div_add_l by lia. rewrite Z.div_small by lia. lia. }
  rewrite E3. cbv zeta. ring.
Qed.


(** The year and the day of the year found for a day number are the right
    ones: the year starts [yday] days before that day, and [yday] is a day
    of that year. *)
Lemma yearDay_spec days :
  let '(year, yday) := yearDay days in
  daysSinceEpoch year + yday = days
  /\ 0 <= yday < 365 + (if isLeap year then 1 else 0).
Proof.
  unfold yearDay, daysPer400Years, daysPer100Years, daysPer4Years.
  set (q := days / 146097).
  set (r := days - 146097 * q).
  assert (Hr : 0 <= r < 146097).
  { unfold r, q. pose proof (Z.div_mod days 146097 ltac:(lia)).
    pose proof (Z.mod_pos_bound days 146097 ltac:(lia)). lia. }
  set (n100 := r / 36524).
  assert (Hn100 : 0 <= n100 <= 4 /\ 36524 * n100 <= r < 36524 * n100 + 36524).
  { unfold n100. pose proof (Z.div_mod r 36524 ltac:(lia)).
    pose proof (Z.mod_pos_bound r 36524 ltac:(lia)). lia. }
  rewrite (@shiftr2_small n100) by lia.
  set (a := n100 - (if n100 =? 4 then 1 else 0)).
  assert (Ha : 0 <= a <= 3 /\ (n100 = 4 -> a = 3) /\ (n100 <> 4 -> a = n100)).
  { unfold a. destruct (Z.eqb_spec n100 4); lia. }
  set (r2 := r - 36524 * a).
  set (b := r2 / 1461).
  assert (Hb : 0 <= b <= 24 /\ 1461 * b <= r2 < 1461 * b + 1461).
  { unfold b. pose proof (Z.div_mod r2 1461 ltac:(lia)).
    pose proof (Z.mod_pos_bound r2 1461 ltac:(lia)).
    assert (0 <= r2 <= 36524) by (unfold r2; lia). lia. }
  set (r3 := r2 - 1461 * b).
  set (n1 := r3 / 365).
  assert (Hn1 : 0 <= n1 <= 4 /\ 365 * n1 <= r3 < 365 * n1 + 365).
  { unfold n1. pose proof (Z.div_mod r3 365 ltac:(lia)).
    pose proof (Z.mod_pos_bound r3 365 ltac:(lia)).
    assert (0 <= r3 < 1461) by (unfold r3; lia). lia. }
  rewrite (@shiftr2_small n1) by lia.
  set (c := n1 - (if n1 =? 4 then 1 else 0)).
  assert (Hc : 0 <= c <= 3 /\ (n1 = 4 -> c = 3) /\ (n1 <> 4 -> c = n1)).
  { unfold c. destruct (Z.eqb_spec n1 4); lia. }
  rewrite daysSinceEpoch_cycle, isLeap_cycle by lia.
  split.
  - unfold r3, r2, r. ring.
  - assert (Hr2 : 0 <= r2 <= 36524) by (unfold r2; lia).
    assert (Hr2' : a < 3 -> r2 < 36524) by (unfold r2; lia).
    assert (Hr3 : r3 = r2 - 1461 * b) by reflexivity.
    destruct (Z.eqb_spec c 3), (Z.eqb_spec b 24), (Z.eqb_spec a 3);
      cbn [andb orb negb]; lia.
Qed.


(** [daysIn] with the leap year as a flag. *)
Definition daysInMonth (leap : bool) (m : Z) : Z :=
  if (m =? 2) && leap then 29 else daysBefore m - daysBefore (m - 1).

(** The test [monthDay] has to pass at a day of the year. *)
Definition monthDayOk (leap : bool) (yday : Z) : bool :=
  let '(m, d) := monthDay leap yday in
  (1 <=? m) && (m <=? 12) && (1 <=? d) && (d <=? daysInMonth leap m)
  && (daysBefore (m - 1) + (if leap && (3 <=? m) then 1 else 0) + (d - 1) =? yday).

Lemma monthDayOk_all (leap : bool) :
  forallb (fun k => monthDayOk leap (Z.of_nat k))
          (seq 0 (if leap then 366 else 365)) = true.
Proof. destruct leap; vm_compute; reflexivity. Qed.

Lemma monthDay_spec (leap : bool) (yday : Z) :
  0 <= yday < 365 + (if leap then 1 else 0) ->
  let '(m, d) := monthDay leap yday in
  1 <= m <= 12 /\ 1 <= d <= daysInMonth leap m
  /\ daysBefore (m - 1) + (if leap && (3 <=? m) then 1 else 0) + (d - 1) = yday.
Proof.
  intros H.
  pose proof (monthDayOk_all leap) as Hall.
  rewrite forallb_forall in Hall.
  specialize (Hall (Z.to_nat yday)).
  rewrite Z2Nat.id in Hall by lia.
  assert (Hin : In (Z.to_nat yday) (seq 0 (if leap then 366 else 365))).
  { apply in_seq. destruct leap; lia. }
  specialize (Hall Hin). unfold monthDayOk in Hall.
  destruct (monthDay leap yday) as [m d].
  rewrite !andb_true_iff in Hall.
  destruct Hall as [[[[H1 H2] H3] H4] H5].
  apply Z.leb_le in H1, H2, H3, H4. apply Z.eqb_eq in H5. lia.
Qed.

Lemma daysIn_daysInMonth m y : daysIn m y = daysInMonth (isLeap y) m.
Proof. reflexivity. Qed.

(** [absDate] finds a date of the calendar, and the date of that day. *)
Lemma absDate_sound days :
  let '(y, m, d) := absDate days in
  validDate y m d /\ dayNumber y m d = days.
Proof.
  unfold absDate.
  pose proof (yearDay_spec days) as Hy.
  destruct (yearDay days) as [year yday]. destruct Hy as [Hsum Hrange].
  pose proof (@monthDay_spec (isLeap year) yday Hrange) as Hm.
  destruct (monthDay (isLeap year) yday) as [m d].
  destruct Hm as [Hm [Hd Hyd]].
  unfold validDate, dayNumber. rewrite daysIn_daysInMonth. lia.
Qed.


(** Every year has its place in the 400-year cycle. *)
Lemma year_cycle y :
  exists q a b c, y = 400 * q + 100 * a + 4 * b + c + 1
                  /\ 0 <= a <= 3 /\ 0 <= b <= 24 /\ 0 <= c <= 3.
Proof.
  exists ((y - 1) / 400), ((y - 1) mod 400 / 100),
         ((y - 1) mod 400 mod 100 / 4), ((y - 1) mod 400 mod 100 mod 4).
  pose proof (Z.div_mod (y - 1) 400 ltac:(lia)).
  pose proof (Z.mod_pos_bound (y - 1) 400 ltac:(lia)).
  set (r := (y - 1) mod 400) in *.
  pose proof (Z.div_mod r 100 ltac:(lia)).
  pose proof (Z.mod_pos_bound r 100 ltac:(lia)).
  set (r' := r mod 100) in *.
  pose proof (Z.div_mod r' 4 ltac:(lia)).
  pose proof (Z.mod_pos_bound r' 4 ltac:(lia)).
  lia.
Qed.

Definition yearLength (y : Z) : Z := 365 + (if isLeap y then 1 else 0).

(** The next year starts when the year is over. *)
Lemma daysSinceEpoch_succ y :
  daysSinceEpoch (y + 1) = daysSinceEpoch y + yearLength y.
Proof.
  unfold yearLength.
  destruct (year_cycle y) as (q & a & b & c & -> & Ha & Hb & Hc).
  rewrite (@daysSinceEpoch_cycle q a b c), (@isLeap_cycle q a b c) by lia.
  destruct (Z.eqb_spec c 3) as [->|Hc3].
  - destruct (Z.eqb_spec b 24) as [->|Hb24].
    + destruct (Z.eqb_spec a 3) as [->|Ha3]; cbn [negb andb orb].
      * replace (400 * q + 100 * 3 + 4 * 24 + 3 + 1 + 1)
          with (400 * (q + 1) + 100 * 0 + 4 * 0 + 0 + 1) by ring.
        rewrite daysSinceEpoch_cycle by lia. ring.
      * replace (400 * q + 100 * a + 4 * 24 + 3 + 1 + 1)
          with (400 * q + 100 * (a + 1) + 4 * 0 + 0 + 1) by ring.
        rewrite daysSinceEpoch_cycle by lia. ring.
    + cbn [negb andb orb].
      replace (400 * q + 100 * a + 4 * b + 3 + 1 + 1)
        with (400 * q + 100 * a + 4 * (b + 1) + 0 + 1) by ring.
      rewrite daysSinceEpoch_cycle by lia. ring.
  - cbn [negb andb orb].
    replace (400 * q + 100 * a + 4 * b + c + 1 + 1)
      with (400 * q + 100 * a + 4 * b + (c + 1) + 1) by ring.
    rewrite daysSinceEpoch_cycle by lia. ring.
Qed.

Lemma yearLength_pos y : 365 <= yearLength y <= 366.
Proof. unfold yearLength. destruct (isLeap y); lia. Qed.

(** A later year starts after the earlier year is over. *)
Lemma daysSinceEpoch_lt y1 y2 :
  y1 < y2 -> daysSinceEpoch y1 + yearLength y1 <= daysSinceEpoch y2.
Proof.
  intros H. replace y2 with (y1 + 1 + Z.of_nat (Z.to_nat (y2 - y1 - 1))) by lia.
  induction (Z.to_nat (y2 - y1 - 1)) as [|n IH].
  - rewrite Z.add_0_r, daysSinceEpoch_succ. lia.
  - replace (y1 + 1 + Z.of_nat (S n)) with (y1 + 1 + Z.of_nat n + 1) by lia.
    rewrite daysSinceEpoch_succ.
    pose proof (yearLength_pos (y1 + 1 + Z.of_nat n)). lia.
Qed.

(** The day of the year of a month and day, counted from 0. *)
Definition ydayOf (leap : bool) (m d : Z) : Z :=
  daysBefore (m - 1) + (if leap && (3 <=? m) then 1 else 0) + (d - 1).

Lemma dayNumber_ydayOf y m d :
  dayNumber y m d = daysSinceEpoch y + ydayOf (isLeap y) m d.
Proof. unfold dayNumber, ydayOf. ring. Qed.

Ltac month_cases m :=
  let H := fresh in
  assert (H : m = 1 \/ m = 2 \/ m = 3 \/ m = 4 \/ m = 5 \/ m = 6 \/ m = 7
              \/ m = 8 \/ m = 9 \/ m = 10 \/ m = 11 \/ m = 12) by lia;
  repeat (destruct H as [H|H]; [subst m|]); [..|subst m].

(** The day of the year the month starts on. *)
Definition monthStart (leap : bool) (m : Z) : Z :=
  daysBefore (m - 1) + (if leap && (3 <=? m) then 1 else 0).

Lemma ydayOf_monthStart leap m d : ydayOf leap m d = monthStart leap m + (d - 1).
Proof. reflexivity. Qed.

Lemma monthStart_succ (leap : bool) m :
  1 <= m <= 12 ->
  monthStart leap (m + 1) = monthStart leap m + daysInMonth leap m
  /\ 28 <= daysInMonth leap m <= 31.
Proof.
  intros Hm. month_cases m; destruct leap; vm_compute; intuition congruence.
Qed.

Lemma monthStart_le (leap : bool) m1 m2 :
  1 <= m1 -> m1 <= m2 -> m2 <= 13 -> monthStart leap m1 <= monthStart leap m2.
Proof.
  intros H1 H12 H2. apply Z.leb_le.
  assert (H : m2 = 13 \/ 1 <= m2 <= 12) by lia. destruct H as [->|H].
  - assert (H : m1 = 13 \/ 1 <= m1 <= 12) by lia. destruct H as [->|H].
    + destruct leap; reflexivity.
    + month_cases m1; destruct leap; reflexivity.
  - assert (H' : 1 <= m1 <= 12) by lia.
    month_cases m1; month_cases m2; try lia; destruct leap; reflexivity.
Qed.

Lemma monthStart_ends (leap : bool) :
  monthStart leap 1 = 0 /\ monthStart leap 13 = 365 + (if leap then 1 else 0).
Proof. destruct leap; split; reflexivity. Qed.

Lemma ydayOf_range (leap : bool) m d :
  1 <= m <= 12 -> 1 <= d <= daysInMonth leap m ->
  0 <= ydayOf leap m d < 365 + (if leap then 1 else 0).
Proof.
  intros Hm Hd. rewrite ydayOf_monthStart.
  destruct (@monthStart_succ leap m Hm) as [Hs _].
  pose proof (@monthStart_le leap 1 m ltac:(lia) ltac:(lia) ltac:(lia)).
  pose proof (@monthStart_le leap (m + 1) 13 ltac:(lia) ltac:(lia) ltac:(lia)).
  destruct (monthStart_ends leap) as [E1 E13]. lia.
Qed.

Lemma ydayOf_mono (leap : bool) m1 d1 m2 d2 :
  1 <= m1 <= 12 -> 1 <= d1 <= daysInMonth leap m1 ->
  1 <= m2 <= 12 -> 1 <= d2 ->
  m1 < m2 \/ (m1 = m2 /\ d1 < d2) ->
  ydayOf leap m1 d1 < ydayOf leap m2 d2.
Proof.
  intros Hm1 Hd1 Hm2 Hd2 [Hlt|[-> Hlt]]; rewrite !ydayOf_monthStart.
  - destruct (@monthStart_succ leap m1 Hm1) as [Hs _].
    pose proof (@monthStart_le leap (m1 + 1) m2 ltac:(lia) ltac:(lia) ltac:(lia)).
    lia.
  - lia.
Qed.

(** The dates of the calendar in their order. *)
Definition dateLt (a b : Z * Z * Z) : Prop :=
  let '(y1, m1, d1) := a in
  let '(y2, m2, d2) := b in
  y1 < y2 \/ (y1 = y2 /\ (m1 < m2 \/ (m1 = m2 /\ d1 < d2))).

(** A later date has a greater day number. *)
Lemma dayNumber_mono y1 m1 d1 y2 m2 d2 :
  validDate y1 m1 d1 -> validDate y2 m2 d2 ->
  dateLt (y1, m1, d1) (y2, m2, d2) ->
  dayNumber y1 m1 d1 < dayNumber y2 m2 d2.
Proof.
  intros [Hm1 Hd1] [Hm2 Hd2] Hlt. rewrite daysIn_daysInMonth in Hd1, Hd2.
  rewrite !dayNumber_ydayOf.
  pose proof (@ydayOf_range (isLeap y1) m1 d1 Hm1 Hd1) as R1.
  pose proof (@ydayOf_range (isLeap y2) m2 d2 Hm2 Hd2) as R2.
  destruct Hlt as [Hy|[-> Hmd]].
  - pose proof (@daysSinceEpoch_lt y1 y2 Hy). unfold yearLength in *. lia.
  - pose proof (@ydayOf_mono (isLeap y2) m1 d1 m2 d2 Hm1 Hd1 Hm2 (proj1 Hd2) Hmd).
    lia.
Qed.

Lemma date_trichotomy (a b : Z * Z * Z) : dateLt a b \/ a = b \/ dateLt b a.
Proof.
  destruct a as [[y1 m1] d1], b as [[y2 m2] d2]. unfold dateLt.
  destruct (Z.lt_trichotomy y1 y2) as [?|[->|?]]; [lia| |lia].
  destruct (Z.lt_trichotomy m1 m2) as [?|[->|?]]; [lia| |lia].
  destruct (Z.lt_trichotomy d1 d2) as [?|[->|?]]; [lia| |lia].
  right; left; reflexivity.
Qed.

(** Two dates of the calendar with the same day number are the same. *)
Lemma dayNumber_inj y1 m1 d1 y2 m2 d2 :
  validDate y1 m1 d1 -> validDate y2 m2 d2 ->
  dayNumber y1 m1 d1 = dayNumber y2 m2 d2 ->
  (y1, m1, d1) = (y2, m2, d2).
Proof.
  intros V1 V2 E.
  destruct (date_trichotomy (y1, m1, d1) (y2, m2, d2)) as [L|[?|L]];
    [|assumption|].
  - pose proof (dayNumber_mono V1 V2 L). lia.
  - pose proof (dayNumber_mono V2 V1 L). lia.
Qed.

(** [absDate] undoes [dayNumber] on the dates of the calendar. *)
Lemma absDate_dayNumber y m d :
  validDate y m d -> absDate (dayNumber y m d) = (y, m, d).
Proof.
  intros V. pose proof (absDate_sound (dayNumber y m d)) as S.
  destruct (absDate (dayNumber y m d)) as [[y' m'] d'].
  destruct S as [V' E]. apply dayNumber_inj; assumption.
Qed.

(** The day after a date of the calendar is a date of the calendar, one day
    later. *)
Lemma tomorrow_spec y m d :
  validDate y m d ->
  let '(y', m', d') := tomorrow (y, m, d) in
  validDate y' m' d' /\ dayNumber y' m' d' = dayNumber y m d + 1.
Proof.
  intros [Hm Hd]. unfold tomorrow.
  destruct (Z.ltb_spec d (daysIn m y)) as [Hlt|Hge].
  - split; [split; lia|]. unfold dayNumber. ring.
  - assert (d = daysIn m y) by lia. subst d.
    destruct (@monthStart_succ (isLeap y) m Hm) as [Hs Hlen].
    destruct (Z.ltb_spec m 12) as [Hm12|Hm12].
    + rewrite !dayNumber_ydayOf, !ydayOf_monthStart, !daysIn_daysInMonth.
      split; [|lia]. split; [lia|]. rewrite daysIn_daysInMonth.
      destruct (@monthStart_succ (isLeap y) (m + 1) ltac:(lia)) as [_ Hlen'].
      lia.
    + assert (m = 12) by lia. subst m.
      rewrite !dayNumber_ydayOf, !ydayOf_monthStart, !daysIn_daysInMonth.
      destruct (monthStart_ends (isLeap y)) as [_ E13].
      destruct (monthStart_ends (isLeap (y + 1))) as [E1 _].
      change (12 + 1) with 13 in Hs.
      split.
      * split; [lia|]. rewrite daysIn_daysInMonth.
        destruct (@monthStart_succ (isLeap (y + 1)) 1 ltac:(lia)) as [_ Hlen'].
        lia.
      * rewrite daysSinceEpoch_succ. unfold yearLength. lia.
Qed.

Lemma absDate_tomorrow y m d :
  validDate y m d -> absDate (dayNumber y m d + 1) = tomorrow (y, m, d).
Proof.
  intros V. pose proof (tomorrow_spec V) as T.
  destruct (tomorrow (y, m, d)) as [[y' m'] d']. destruct T as [V' E].
  rewrite <- E. apply absDate_dayNumber. exact V'.
Qed.

(** Later days have later dates. *)
Lemma absDate_mono n1 n2 : n1 <= n2 -> dateLe (absDate n1) (absDate n2).
Proof.
  intros H. pose proof (absDate_sound n1) as S1. pose proof (absDate_sound n2) as S2.
  destruct (absDate n1) as [[y1 m1] d1], (absDate n2) as [[y2 m2] d2].
  destruct S1 as [V1 E1], S2 as [V2 E2].
  destruct (date_trichotomy (y1, m1, d1) (y2, m2, d2)) as [L|[L|L]].
  - unfold dateLe, dateLt in *. lia.
  - inversion L; subst. unfold dateLe. lia.
  - pose proof (dayNumber_mono V2 V1 L). lia.
Qed.

End GoTimeFacts.

Module RegexpFacts.
Import Regexp.

(** The longest prefix of bytes of a class, and what follows it. *)
Fixpoint leading (p : ascii -> bool) (s : gostring) : gostring :=
  match s with
  | c :: s' => if p c then c :: leading p s' else []
  | [] => []
  end.

Fixpoint after (p : ascii -> bool) (s : gostring) : gostring :=
  match s with
  | c :: s' => if p c then after p s' else s
  | [] => []
  end.

Lemma leading_after p s : leading p s ++ after p s = s.
Proof.
  induction s as [|c s IH]; [reflexivity|]. cbn [leading after].
  destruct (p c); [cbn [app]; rewrite IH|]; reflexivity.
Qed.

Lemma leading_all p s : forallb p (leading p s) = true.
Proof.
  induction s as [|c s IH]; [reflexivity|]. cbn [leading].
  destruct (p c) eqn:E; [cbn [forallb]; rewrite E, IH|]; reflexivity.
Qed.

Lemma after_head p s :
  match after p s with c :: _ => p c = false | [] => True end.
Proof.
  induction s as [|c s IH]; [exact I|]. cbn [after].
  destruct (p c) eqn:E; [exact IH|exact E].
Qed.

(** A run of the class followed by a byte outside it is the longest prefix. *)
Lemma leading_app p run rest :
  forallb p run = true ->
  match rest with c :: _ => p c = false | [] => True end ->
  leading p (run ++ rest) = run /\ after p (run ++ rest) = rest.
Proof.
  intros Hrun Hrest. induction run as [|c run IH].
  - cbn [app]. destruct rest as [|c rest]; [split; reflexivity|].
    cbn [leading after]. rewrite Hrest. split; reflexivity.
  - cbn [forallb] in Hrun. apply andb_true_iff in Hrun. destruct Hrun as [Hc Hrun].
    cbn [app leading after]. rewrite Hc.
    destruct (IH Hrun) as [-> ->]. split; reflexivity.
Qed.

Lemma consumed_app (a b : gostring) : consumed (a ++ b) b = a.
Proof.
  unfold consumed. rewrite length_app.
  replace (length a + length b - length b)%nat with (length a) by lia.
  rewrite firstn_app, Nat.sub_diag, firstn_all. cbn [firstn]. apply app_nil_r.
Qed.

(** The rounds of a greedy [+]. *)
Section PlusLoop.
Variable R : Type.
Variable r1 : regex.
Variable k : gostring -> captures -> option R.

Fixpoint plusLoop (n : nat) (s : gostring) (caps : captures) {struct n}
  : option R :=
  match n with
  | O => None
  | S n' =>
    rmatch r1 s caps (fun s1 c1 =>
      match plusLoop n' s1 c1 with
      | Some x => Some x
      | None => k s1 c1
      end)
  end.
End PlusLoop.

Lemma rmatch_Plus R r1 s caps (k : gostring -> captures -> option R) :
  rmatch (Plus r1) s caps k = plusLoop r1 k (S (length s)) s caps.
Proof. reflexivity. Qed.

Lemma rmatch_Cat R r1 r2 s caps (k : gostring -> captures -> option R) :
  rmatch (Cat r1 r2) s caps k = rmatch r1 s caps (fun s1 c1 => rmatch r2 s1 c1 k).
Proof. reflexivity. Qed.

Lemma rmatch_Group R i r1 s caps (k : gostring -> captures -> option R) :
  rmatch (Group i r1) s caps k
  = rmatch r1 s caps (fun s1 c1 => k s1 ((i, consumed s s1) :: c1)).
Proof. reflexivity. Qed.

Lemma rmatch_Class R p s caps (k : gostring -> captures -> option R) :
  rmatch (Class p) s caps k
  = match s with
    | c :: s' => if p c then k s' caps else None
    | [] => None
    end.
Proof. reflexivity. Qed.

Lemma rmatch_Quest R r1 s caps (k : gostring -> captures -> option R) :
  rmatch (Quest r1) s caps k
  = match rmatch r1 s caps k with Some x => Some x | None => k s caps end.
Proof. reflexivity. Qed.

(** A greedy run of a class, when nothing that starts with a byte of the
    class can follow: the run is the longest prefix, and it is not empty. *)
Lemma plusLoop_class R p (k : gostring -> captures -> option R) :
  (forall c s caps, p c = true -> k (c :: s) caps = None) ->
  forall n s caps, (length s < n)%nat ->
  plusLoop (Class p) k n s caps
  = match leading p s with
    | [] => None
    | _ :: _ => k (after p s) caps
    end.
Proof.
  intros Hk. induction n as [|n IH]; intros s caps Hn; [lia|].
  cbn [plusLoop rmatch]. destruct s as [|c s]; [reflexivity|].
  cbn [leading after]. destruct (p c) eqn:Hc; [|reflexivity].
  cbn [length] in Hn. rewrite IH by lia.
  destruct s as [|c' s]; [reflexivity|].
  cbn [leading after]. destruct (p c') eqn:Hc'; [|reflexivity].
  destruct (k (after p s) caps) eqn:E; [reflexivity|].
  apply Hk. exact Hc'.
Qed.

End RegexpFacts.

Module ParseFacts.
Import GoTime GoTimeFacts Notions.

Lemma Format_formatDate t layout : Format t layout = formatDate layout (civil t).
Proof. reflexivity. Qed.

(** *** Midnight UTC of a date of the calendar *)

Definition midnightUTC (y m d : Z) : Time := Date y m d 0 0 0 0 UTC.

Lemma norm_in_range hi lo base : 0 <= lo < base -> norm hi lo base = (hi, lo).
Proof.
  intros H. unfold norm.
  destruct (Z.ltb_spec lo 0); [lia|].
  destruct (Z.geb_spec lo base); [lia|reflexivity].
Qed.

Lemma midnightUTC_eq y m d :
  1 <= m <= 12 ->
  midnightUTC y m d = mkTime (dayNumber y m d * secondsPerDay) 0 UTC.
Proof.
  intros Hm. unfold midnightUTC, Date.
  repeat (rewrite norm_in_range by lia; cbv beta iota zeta).
  replace (m - 1 + 1) with m by ring. unfold UTC. f_equal; ring.
Qed.

Lemma civil_midnightUTC y m d :
  validDate y m d -> civil (midnightUTC y m d) = (y, m, d).
Proof.
  intros V. rewrite midnightUTC_eq by apply V. unfold civil, abs, UTC; cbn [wallSec zoneOffset].
  rewrite Z.add_0_r, Z.div_mul by (unfold secondsPerDay; lia).
  apply absDate_dayNumber, V.
Qed.

Lemma Clock_midnightUTC y m d :
  1 <= m <= 12 -> Clock (midnightUTC y m d) = (0, 0, 0).
Proof.
  intros Hm. rewrite midnightUTC_eq by exact Hm.
  unfold Clock, abs, UTC; cbn [wallSec zoneOffset].
  rewrite Z.add_0_r, Z.mod_mul by (unfold secondsPerDay; lia). reflexivity.
Qed.

(** One day added to midnight of a date is midnight of the day after. *)
Lemma AddDate_midnightUTC y m d :
  validDate y m d ->
  civil (AddDate (midnightUTC y m d) 0 0 1) = tomorrow (y, m, d).
Proof.
  intros V. unfold AddDate.
  rewrite civil_midnightUTC by exact V. rewrite Clock_midnightUTC by apply V.
  rewrite midnightUTC_eq by apply V. cbn [nsec zoneOffset].
  rewrite !Z.add_0_r.
  change (Date y m (d + 1) 0 0 0 0 UTC) with (midnightUTC y m (d + 1)).
  rewrite midnightUTC_eq by apply V.
  unfold civil, abs, UTC; cbn [wallSec zoneOffset].
  rewrite Z.add_0_r, Z.div_mul by (unfold secondsPerDay; lia).
  replace (dayNumber y m (d + 1)) with (dayNumber y m d + 1)
    by (unfold dayNumber; ring).
  apply absDate_tomorrow, V.
Qed.


(** *** What [Parse] returns *)

Lemma lookup_bound tab i val k rest :
  lookup tab i val = Some (k, rest) -> i <= k < i + Z.of_nat (length tab).
Proof.
  revert i. induction tab as [|v tab IH]; intros i H; cbn [lookup] in H.
  - discriminate.
  - destruct ((length v <=? length val)%nat && matchFold (firstn (length v) val) v).
    + inversion H; subst. cbn [length]. lia.
    + apply IH in H. cbn [length]. lia.
Qed.

(** The month is not set, or it is a month. *)
Definition monthSet (f : fields) : Prop := fMonth f = -1 \/ 1 <= fMonth f <= 12.

Lemma parseChunk_monthSet std value f value' f' :
  monthSet f -> parseChunk std value f = Some (value', f') -> monthSet f'.
Proof.
  intros Hf H. destruct std; cbn [parseChunk] in H.
  - destruct value as [|c value0]; [discriminate|].
    destruct ((length (c :: value0) <? 4)%nat || negb (isDigit c)); [discriminate|].
    destruct (atoi (firstn 4 (c :: value0))); inversion H; subst. exact Hf.
  - destruct (getnum value true) as [[month v]|]; [|discriminate].
    destruct (Z.leb_spec month 0); cbn [orb] in H; [discriminate|].
    destruct (Z.ltb_spec 12 month); inversion H; subst.
    right. cbn [fMonth]. lia.
  - destruct (getnum value false) as [[month v]|]; [|discriminate].
    destruct (Z.leb_spec month 0); cbn [orb] in H; [discriminate|].
    destruct (Z.ltb_spec 12 month); inversion H; subst.
    right. cbn [fMonth]. lia.
  - destruct (getnum value true) as [[day v]|]; inversion H; subst. exact Hf.
  - destruct (getnum value false) as [[day v]|]; inversion H; subst. exact Hf.
  - destruct (lookup shortMonthNames 0 value) as [[month v]|] eqn:E; inversion H; subst.
    apply lookup_bound in E. right. cbn [fMonth]. cbn in E. lia.
Qed.

Lemma parseLoop_monthSet fuel layout value f f' :
  monthSet f -> parseLoop fuel layout value f = Some f' -> monthSet f'.
Proof.
  revert layout value f. induction fuel as [|fuel IH]; intros layout value f Hf H;
    cbn [parseLoop] in H; [discriminate|].
  destruct (nextStdChunk layout) as [prefix std].
  destruct (skip value prefix) as [value1|]; [|discriminate].
  destruct std as [[std suffix]|].
  - destruct (parseChunk std value1 f) as [[value2 f2]|] eqn:E; [|discriminate].
    eapply IH; [|exact H]. eapply parseChunk_monthSet; eassumption.
  - destruct value1; inversion H; subst. exact Hf.
Qed.

(** A successful [Parse] returns midnight UTC of a date of the calendar. *)
Lemma Parse_valid layout value t :
  Parse layout value = Some t ->
  exists y m d, validDate y m d /\ t = midnightUTC y m d.
Proof.
  unfold Parse. intros H.
  destruct (parseLoop (S (length layout)) layout value (mkFields 0 (-1) (-1)))
    as [f|] eqn:E; [|discriminate].
  apply parseLoop_monthSet in E; [|left; reflexivity].
  set (month := if fMonth f <? 0 then 1 else fMonth f) in *.
  set (day := if fDay f <? 0 then 1 else fDay f) in *.
  destruct (Z.ltb_spec day 1); cbn [orb] in H; [discriminate|].
  destruct (Z.gtb_spec day (daysIn month (fYear f))); inversion H; subst.
  exists (fYear f), month, day. split; [|reflexivity].
  split; [|lia]. unfold month. destruct E as [->|E]; [cbn; lia|].
  destruct (Z.ltb_spec (fMonth f) 0); lia.
Qed.

Lemma parseDate_valid layout value y m d :
  parseDate layout value = Some (y, m, d) -> validDate y m d.
Proof.
  unfold parseDate. destruct (Parse layout value) as [t|] eqn:E; [|discriminate].
  destruct (Parse_valid _ _ E) as (y' & m' & d' & V & ->).
  cbn [option_map]. rewrite civil_midnightUTC by exact V.
  intros H; inversion H; subst. exact V.
Qed.

(** The day after a parsed date, as [doZillow] prints it. *)
Lemma nextDay_of_Parse layout value t :
  Parse layout value = Some t ->
  Format (AddDate t 0 0 1) (str "2006-01-02")
  = formatDate (str "2006-01-02") (tomorrow (civil t)).
Proof.
  intros H. destruct (Parse_valid _ _ H) as (y & m & d & V & ->).
  rewrite Format_formatDate, AddDate_midnightUTC, civil_midnightUTC by exact V.
  reflexivity.
Qed.


(** *** The layouts of the program, element by element *)

(** A layout as the list of its reference elements, each with the literal
    text before it, and the literal text at its end. *)
Fixpoint parseSteps (steps : list (gostring * stdChunk)) (tail : gostring)
    (value : gostring) (f : fields) : option fields :=
  match steps with
  | [] =>
    match skip value tail with
    | None => None
    | Some value => match value with [] => Some f | _ :: _ => None end
    end
  | (prefix, std) :: steps' =>
    match skip value prefix with
    | None => None
    | Some value =>
      match parseChunk std value f with
      | Some (value, f) => parseSteps steps' tail value f
      | None => None
      end
    end
  end.

Definition layoutSteps (layout : gostring) : list (gostring * stdChunk) :=
  if gostring_eqb layout (str "2006-01-02")
  then [([], stdLongYear); (str "-", stdZeroMonth); (str "-", stdZeroDay)]
  else if gostring_eqb layout (str "1/2/2006")
  then [([], stdNumMonth); (str "/", stdDay); (str "/", stdLongYear)]
  else if gostring_eqb layout (str "01/02/2006")
  then [([], stdZeroMonth); (str "/", stdZeroDay); (str "/", stdLongYear)]
  else if gostring_eqb layout (str "2006/01/02")
  then [([], stdLongYear); (str "/", stdZeroMonth); (str "/", stdZeroDay)]
  else [([], stdMonth); (str " ", stdDay); (str ", ", stdLongYear)].

Lemma parseLoop_steps layout value f :
  In layout allLayouts ->
  parseLoop (S (length layout)) layout value f
  = parseSteps (layoutSteps layout) [] value f.
Proof.
  intros H. cbv [allLayouts Zillow.formats map In] in H.
  repeat (destruct H as [<-|H]; [reflexivity|]). contradiction.
Qed.

Lemma isDigit_code c : isDigit c = true -> 48 <= code c <= 57.
Proof. unfold isDigit. rewrite andb_true_iff, !Z.leb_le. tauto. Qed.

Lemma code_inj a b : code a = code b -> a = b.
Proof.
  unfold code. intros H. apply N2Z.inj in H.
  rewrite <- (ascii_N_embedding a), <- (ascii_N_embedding b), H. reflexivity.
Qed.

Lemma ascii_eqb_code a b : (a =? b)%char = (code a =? code b).
Proof.
  destruct (Ascii.eqb_spec a b) as [->|Hne].
  - symmetry. apply Z.eqb_refl.
  - symmetry. apply Z.eqb_neq. intros H. apply Hne, code_inj, H.
Qed.

(** A digit is none of the bytes the layouts separate numbers with. *)
Lemma digit_not_sep c :
  isDigit c = true ->
  (c =? "/")%char = false /\ (c =? "-")%char = false /\ (c =? "+")%char = false
  /\ (c =? " ")%char = false /\ (c =? ",")%char = false.
Proof.
  intros H. apply isDigit_code in H. rewrite !ascii_eqb_code.
  change (code "/") with 47. change (code "-") with 45.
  change (code "+") with 43. change (code " ") with 32.
  change (code ",") with 44.
  repeat split; apply Z.eqb_neq; lia.
Qed.

Lemma leadingInt_all s : forall x q,
  leadingInt x s = Some (q, []) -> forallb isDigit s = true.
Proof.
  induction s as [|c s IH]; intros x q H; [reflexivity|].
  cbn [leadingInt] in H. cbn [forallb].
  destruct (isDigit c); [|discriminate].
  destruct (x >? 2 ^ 63 / 10); [discriminate|].
  destruct (x * 10 + digitVal c >? 2 ^ 63); [discriminate|].
  apply IH in H. exact H.
Qed.

(** The year is read off four digits. *)
Lemma parseChunk_year value f value' f' :
  parseChunk stdLongYear value f = Some (value', f') ->
  exists a b c d, value = a :: b :: c :: d :: value'
    /\ isDigit a = true /\ isDigit b = true /\ isDigit c = true
    /\ isDigit d = true.
Proof.
  cbn [parseChunk]. intros H.
  destruct value as [|a value]; [discriminate|].
  destruct (Nat.ltb_spec (length (a :: value)) 4) as [Hlen|Hlen];
    cbn [orb] in H; [discriminate|].
  destruct (isDigit a) eqn:Da; cbn [negb] in H; [|discriminate].
  destruct value as [|b [|c [|d value]]]; cbn [length] in Hlen; try lia.
  cbn [firstn skipn] in H.
  destruct (atoi [a; b; c; d]) as [year|] eqn:E; inversion H; subst.
  unfold atoi in E. destruct (digit_not_sep a Da) as (_ & Hm & Hp & _).
  rewrite Hm, Hp in E. cbn [orb] in E.
  destruct (leadingInt 0 [a; b; c; d]) as [[q [|]]|] eqn:L; try discriminate.
  apply leadingInt_all in L. cbn [forallb] in L.
  rewrite !andb_true_iff in L. exists a, b, c, d. tauto.
Qed.

(** A number of one or two digits. *)
Lemma getnum_shape value fixed n value' :
  getnum value fixed = Some (n, value') ->
  exists a, isDigit a = true
    /\ ((exists b, value = a :: b :: value' /\ isDigit b = true
                   /\ n = digitVal a * 10 + digitVal b)
        \/ (fixed = false /\ value = a :: value' /\ n = digitVal a
            /\ match value' with [] => True | b :: _ => isDigit b = false end)).
Proof.
  unfold getnum. intros H.
  destruct value as [|a value]; [discriminate|].
  destruct (isDigit a) eqn:Da; cbn [negb] in H; [|discriminate].
  exists a. split; [exact Da|].
  destruct value as [|b value].
  - destruct fixed; inversion H; subst. right. tauto.
  - destruct (isDigit b) eqn:Db.
    + inversion H; subst. left. exists b. tauto.
    + destruct fixed; inversion H; subst. right. tauto.
Qed.

(** Where both digits are required and found, they are found without the
    requirement too. *)
Lemma getnum_fixed value r : getnum value true = Some r -> getnum value false = Some r.
Proof.
  unfold getnum. destruct value as [|a [|b value]]; try discriminate.
  - destruct (isDigit a); discriminate.
  - destruct (isDigit a); cbn [negb]; [|discriminate].
    destruct (isDigit b); [tauto|discriminate].
Qed.

(** A literal byte that is not a space is skipped when it is there. *)
Lemma skip_byte value p value' :
  (p =? " ")%char = false ->
  skip value [p] = Some value' -> value = p :: value'.
Proof.
  unfold skip. cbn [length skipLoop]. intros Hp. rewrite Hp.
  destruct value as [|v value]; [discriminate|].
  destruct (Ascii.eqb_spec v p) as [->|]; [|discriminate].
  intros H; inversion H; reflexivity.
Qed.

Lemma skip_nil value : skip value [] = Some value.
Proof. reflexivity. Qed.

(** What a value starts with decides which formats can read it. *)
Inductive Shape := ShapeDash | ShapeSlashYear | ShapeSlash | ShapeName | ShapeNone.

Definition shapeOf (s : gostring) : Shape :=
  match s with
  | a :: s1 =>
    if isDigit a then
      match s1 with
      | b :: s2 =>
        if (b =? "/")%char then ShapeSlash
        else if isDigit b then
          match s2 with
          | c :: s3 =>
            if (c =? "/")%char then ShapeSlash
            else if isDigit c then
              match s3 with
              | d :: e :: _ =>
                if isDigit d then
                  if (e =? "-")%char then ShapeDash
                  else if (e =? "/")%char then ShapeSlashYear
                  else ShapeNone
                else ShapeNone
              | _ => ShapeNone
              end
            else ShapeNone
          | [] => ShapeNone
          end
        else ShapeNone
      | [] => ShapeNone
      end
    else ShapeName
  | [] => ShapeNone
  end.

Lemma shape_year_first value f value1 f1 p value2 :
  parseChunk stdLongYear value f = Some (value1, f1) ->
  (p =? " ")%char = false ->
  skip value1 [p] = Some value2 ->
  shapeOf value
  = if (p =? "-")%char then ShapeDash
    else if (p =? "/")%char then ShapeSlashYear else ShapeNone.
Proof.
  intros H Hp Hs. apply parseChunk_year in H.
  destruct H as (a & b & c & d & -> & Da & Db & Dc & Dd).
  apply skip_byte in Hs; [|exact Hp]. subst value1.
  unfold shapeOf. rewrite Da, Db, Dc, Dd.
  destruct (digit_not_sep b Db) as (-> & _).
  destruct (digit_not_sep c Dc) as (-> & _). reflexivity.
Qed.

Lemma shape_num_first value fixed n value1 value2 :
  getnum value fixed = Some (n, value1) ->
  skip value1 (str "/") = Some value2 ->
  shapeOf value = ShapeSlash.
Proof.
  intros H Hs. apply getnum_shape in H.
  apply skip_byte in Hs; [|reflexivity]. subst value1.
  destruct H as (a & Da & [(b & -> & Db & _)|(_ & -> & _)]);
    unfold shapeOf; rewrite Da.
  - destruct (digit_not_sep b Db) as (-> & _). rewrite Db. reflexivity.
  - reflexivity.
Qed.

Lemma matchFold_letter a b rest rest' :
  matchFold (a :: rest) (b :: rest') = true ->
  65 <= code b <= 90 -> isDigit a = false.
Proof.
  cbn [matchFold]. rewrite andb_true_iff. intros [H _] Hb.
  unfold isDigit.
  destruct (Ascii.eqb_spec a b) as [->|Hne].
  - apply andb_false_iff. right. apply Z.leb_gt. lia.
  - rewrite !andb_true_iff, !Z.leb_le in H. destruct H as [[_ H1] H2].
    destruct (Z.leb_spec 48 (code a)); [|reflexivity].
    destruct (Z.leb_spec (code a) 57); [|reflexivity].
    exfalso. clear - H1 H2 H H0.
    assert (E : code a = 48 \/ code a = 49 \/ code a = 50 \/ code a = 51
                \/ code a = 52 \/ code a = 53 \/ code a = 54 \/ code a = 55
                \/ code a = 56 \/ code a = 57) by lia.
    repeat (destruct E as [E|E]; [rewrite E in H1, H2; cbn in H1, H2; lia|]).
    rewrite E in H1, H2; cbn in H1, H2; lia.
Qed.

Definition capitalised (name : gostring) : Prop :=
  match name with b :: _ => 65 <= code b <= 90 | [] => False end.

Lemma lookup_letter tab : forall i value k rest,
  Forall capitalised tab ->
  lookup tab i value = Some (k, rest) ->
  match value with a :: _ => isDigit a = false | [] => False end.
Proof.
  induction tab as [|name tab IH]; intros i value k rest Hcap H;
    cbn [lookup] in H; [discriminate|].
  inversion Hcap as [|? ? Hname Htab]; subst.
  destruct ((length name <=? length value)%nat
            && matchFold (firstn (length name) value) name) eqn:E.
  - apply andb_true_iff in E. destruct E as [E1 E2].
    destruct name as [|b name]; [contradiction|].
    destruct value as [|a value]; [discriminate E1|].
    cbn [length firstn] in E2. eapply matchFold_letter; eassumption.
  - eapply IH; eassumption.
Qed.

Lemma shortMonthNames_capitalised : Forall capitalised shortMonthNames.
Proof.
  unfold shortMonthNames. cbn [map].
  repeat (apply Forall_cons; [vm_compute; split; discriminate|]).
  apply Forall_nil.
Qed.

Lemma lookup_month_letter value i k rest :
  lookup shortMonthNames i value = Some (k, rest) ->
  match value with a :: _ => isDigit a = false | [] => False end.
Proof. apply lookup_letter, shortMonthNames_capitalised. Qed.

Lemma shape_name_first value f value1 f1 :
  parseChunk stdMonth value f = Some (value1, f1) -> shapeOf value = ShapeName.
Proof.
  cbn [parseChunk]. intros H.
  destruct (lookup shortMonthNames 0 value) as [[k rest]|] eqn:E; [|discriminate].
  apply lookup_month_letter in E. destruct value as [|a value]; [contradiction|].
  unfold shapeOf. rewrite E. reflexivity.
Qed.


Lemma parseChunk_month_getnum std value f value1 f1 :
  std = stdNumMonth \/ std = stdZeroMonth ->
  parseChunk std value f = Some (value1, f1) ->
  exists fixed n, getnum value fixed = Some (n, value1).
Proof.
  intros [->| ->] H; cbn [parseChunk] in H.
  - destruct (getnum value false) as [[n v]|] eqn:G; [|discriminate].
    destruct ((n <=? 0) || (12 <? n)); inversion H; subst. eauto.
  - destruct (getnum value true) as [[n v]|] eqn:G; [|discriminate].
    destruct ((n <=? 0) || (12 <? n)); inversion H; subst. eauto.
Qed.

(** A value a layout of the program reads starts the way the layout does. *)
Lemma Parse_shape layout value t :
  In layout allLayouts -> Parse layout value = Some t ->
  shapeOf value = shapeOf layout.
Proof.
  intros Hin H. unfold Parse in H.
  rewrite parseLoop_steps in H by exact Hin.
  destruct (parseSteps (layoutSteps layout) [] value (mkFields 0 (-1) (-1)))
    as [f|] eqn:E; [clear H|discriminate].
  cbv [allLayouts Zillow.formats map In] in Hin.
  destruct Hin as [<-|[<-|[<-|[<-|[<-|[]]]]]];
    match type of E with
    | parseSteps (layoutSteps ?L) _ _ _ = _ =>
      let steps := eval vm_compute in (layoutSteps L) in
      change (layoutSteps L) with steps in E
    end;
    cbn [parseSteps] in E; rewrite skip_nil in E;
    match type of E with
    | match parseChunk ?std value ?f0 with _ => _ end = _ =>
      destruct (parseChunk std value f0) as [[value1 f1]|] eqn:E1;
      [|discriminate]
    end;
    match type of E with
    | match skip ?v ?p with _ => _ end = _ =>
      destruct (skip v p) as [value2|] eqn:E2; [clear E|discriminate]
    end.
  - rewrite (@shape_year_first _ _ _ _ "-"%char _ E1 eq_refl E2). reflexivity.
  - destruct (@parseChunk_month_getnum _ _ _ _ _ (or_introl eq_refl) E1) as (fx & n & G).
    rewrite (@shape_num_first _ _ _ _ _ G E2). reflexivity.
  - destruct (@parseChunk_month_getnum _ _ _ _ _ (or_intror eq_refl) E1) as (fx & n & G).
    rewrite (@shape_num_first _ _ _ _ _ G E2). reflexivity.
  - rewrite (@shape_year_first _ _ _ _ "/"%char _ E1 eq_refl E2). reflexivity.
  - rewrite (@shape_name_first _ _ _ _ E1). reflexivity.
Qed.

Lemma parseChunk_fixed_month value f r :
  parseChunk stdZeroMonth value f = Some r -> parseChunk stdNumMonth value f = Some r.
Proof.
  cbn [parseChunk]. destruct (getnum value true) as [p|] eqn:G; [|discriminate].
  rewrite (@getnum_fixed _ _ G). tauto.
Qed.

Lemma parseChunk_fixed_day value f r :
  parseChunk stdZeroDay value f = Some r -> parseChunk stdDay value f = Some r.
Proof.
  cbn [parseChunk]. destruct (getnum value true) as [p|] eqn:G; [|discriminate].
  rewrite (@getnum_fixed _ _ G). tauto.
Qed.

(** What ["01/02/2006"] reads, ["1/2/2006"] reads the same way. *)
Lemma Parse_fixed_slash value t :
  Parse (str "01/02/2006") value = Some t -> Parse (str "1/2/2006") value = Some t.
Proof.
  unfold Parse.
  rewrite !parseLoop_steps by (cbv [allLayouts Zillow.formats map In]; tauto).
  change (layoutSteps (str "01/02/2006"))
    with [([], stdZeroMonth); (str "/", stdZeroDay); (str "/", stdLongYear)].
  change (layoutSteps (str "1/2/2006"))
    with [([], stdNumMonth); (str "/", stdDay); (str "/", stdLongYear)].
  set (f0 := mkFields 0 (-1) (-1)).
  cbn [parseSteps]. rewrite !skip_nil.
  destruct (parseChunk stdZeroMonth value f0) as [[v1 f1]|] eqn:E1; [|discriminate].
  rewrite (@parseChunk_fixed_month _ _ _ E1).
  destruct (skip v1 (str "/")) as [v2|]; [|discriminate].
  destruct (parseChunk stdZeroDay v2 f1) as [[v3 f3]|] eqn:E3; [|discriminate].
  rewrite (@parseChunk_fixed_day _ _ _ E3). tauto.
Qed.

(** No value has two dates: the formats that read it agree. *)
Lemma Parse_agree l1 l2 value t1 t2 :
  In l1 allLayouts -> In l2 allLayouts ->
  Parse l1 value = Some t1 -> Parse l2 value = Some t2 -> t1 = t2.
Proof.
  intros H1 H2 P1 P2.
  pose proof (@Parse_shape _ _ _ H1 P1) as S1.
  pose proof (@Parse_shape _ _ _ H2 P2) as S2.
  rewrite S1 in S2. clear S1.
  cbv [allLayouts Zillow.formats map In] in H1, H2.
  destruct H1 as [<-|[<-|[<-|[<-|[<-|[]]]]]];
    destruct H2 as [<-|[<-|[<-|[<-|[<-|[]]]]]];
    try (vm_compute in S2; discriminate S2);
    try congruence.
  - apply Parse_fixed_slash in P2. congruence.
  - apply Parse_fixed_slash in P1. congruence.
Qed.

End ParseFacts.

Module WatermarkFacts.
Import GoTime GoTimeFacts ParseFacts GoStrings Sheets Zillow Notions.

Lemma formatDate_iso ymd : formatDate (str "2006-01-02") ymd = isoDate ymd.
Proof.
  destruct ymd as [[y m] d]. unfold formatDate, isoDate.
  cbv -[appendInt app]. rewrite app_nil_r. reflexivity.
Qed.

Lemma Cell_nil_dec (cell : Cell) : {cell = CNil} + {cell <> CNil}.
Proof. destruct cell; [left; reflexivity|right; discriminate..]. Qed.

(** Only the last row counts. *)
Lemma dynamicFilterDate_last init lastRow :
  dynamicFilterDate (init ++ [lastRow]) = dynamicFilterDate [lastRow].
Proof. unfold dynamicFilterDate. rewrite rev_app_distr. reflexivity. Qed.

(** The filter date of a last row with a first cell that is there. *)
Definition fromText (dateStr : gostring) : gostring :=
  match Parse (str "2006-01-02") dateStr with
  | Some parsedDate => Format (AddDate parsedDate 0 0 1) (str "2006-01-02")
  | None =>
    match tryFormats formats dateStr with
    | Some d => d
    | None => fallbackFilterDate
    end
  end.

Lemma dynamicFilterDate_cell (cell : Cell) (rest : Row) :
  cell <> CNil ->
  dynamicFilterDate (@cons Row (cell :: rest) [])
  = fromText (TrimSpace (sprintV cell)).
Proof. intros H. destruct cell; [contradiction|reflexivity..]. Qed.

Lemma tryFormats_first fs dateStr layout t :
  In layout fs -> Parse layout dateStr = Some t ->
  (forall l' t', In l' fs -> Parse l' dateStr = Some t' -> t' = t) ->
  tryFormats fs dateStr = Some (Format (AddDate t 0 0 1) (str "2006-01-02")).
Proof.
  induction fs as [|l fs IH]; intros Hin HP Hall; [contradiction|].
  cbn [tryFormats].
  destruct (Parse l dateStr) as [t0|] eqn:E.
  - rewrite (Hall l t0 (or_introl eq_refl) E). reflexivity.
  - destruct Hin as [->|Hin]; [congruence|].
    apply IH; [exact Hin|exact HP|].
    intros l' t' H'. apply Hall. right. exact H'.
Qed.

Lemma tryFormats_none fs dateStr :
  (forall l, In l fs -> Parse l dateStr = None) -> tryFormats fs dateStr = None.
Proof.
  induction fs as [|l fs IH]; intros H; [reflexivity|].
  cbn [tryFormats]. rewrite (H l (or_introl eq_refl)).
  apply IH. intros l' H'. apply H. right. exact H'.
Qed.

(** The text of a date any of the formats reads gives the day after. *)
Lemma fromText_parsed dateStr layout t :
  In layout allLayouts -> Parse layout dateStr = Some t ->
  fromText dateStr = isoDate (tomorrow (civil t)).
Proof.
  intros Hin HP. unfold fromText.
  destruct (Parse (str "2006-01-02") dateStr) as [t0|] eqn:E.
  - assert (t0 = t) by
      (eapply Parse_agree; [left; reflexivity|exact Hin|exact E|exact HP]).
    subst t0. rewrite (nextDay_of_Parse _ _ HP). apply formatDate_iso.
  - destruct Hin as [<-|Hin]; [congruence|].
    rewrite (@tryFormats_first formats dateStr layout t Hin HP).
    + rewrite (nextDay_of_Parse _ _ HP). apply formatDate_iso.
    + intros l' t' H' P'. eapply Parse_agree; [right; exact H'|right; exact Hin|exact P'|exact HP].
Qed.

Lemma fromText_unparsed dateStr :
  (forall l, In l allLayouts -> Parse l dateStr = None) ->
  fromText dateStr = fallbackFilterDate.
Proof.
  intros H. unfold fromText. rewrite (H _ (or_introl eq_refl)).
  rewrite tryFormats_none; [reflexivity|].
  intros l Hl. apply H. right. exact Hl.
Qed.


Lemma allLayouts_iff layout :
  In layout allLayouts <-> layout = str "2006-01-02" \/ In layout formats.
Proof. unfold allLayouts. cbn [In]. intuition congruence. Qed.

(** The text printed for a nil cell is no date. *)
Lemma nil_text_unparsed layout :
  In layout allLayouts -> Parse layout (TrimSpace (sprintV CNil)) = None.
Proof.
  cbv [allLayouts formats map In].
  intros [<-|[<-|[<-|[<-|[<-|[]]]]]]; vm_compute; reflexivity.
Qed.

(** C3.  When the first cell of the last row, printed and trimmed, is read
    as a date [D] by the primary format or by any of the alternative
    formats, [D] is a date of the calendar and the filter date is the day
    after [D], written [YYYY-MM-DD].  The last row [["7/20/2025", 3]] gives
    2025-07-21. *)
Theorem watermark_is_day_after_last_date :
  (forall (init : list Row) (cell : Cell) (rest : Row) (layout : gostring)
          (D : Z * Z * Z),
      layout = str "2006-01-02" \/ In layout formats ->
      parseDate layout (TrimSpace (sprintV cell)) = Some D ->
      validDate (fst (fst D)) (snd (fst D)) (snd D)
      /\ dynamicFilterDate (init ++ [cell :: rest]) = isoDate (tomorrow D))
  /\ dynamicFilterDate [[CString (str "7/20/2025"); CInt 3]] = str "2025-07-21".
Proof.
  split; [|vm_compute; reflexivity].
  intros init cell rest layout D Hin HD. apply allLayouts_iff in Hin. split.
  - destruct D as [[y m] d]. exact (parseDate_valid _ _ HD).
  - unfold parseDate in HD.
    destruct (Parse layout (TrimSpace (sprintV cell))) as [t|] eqn:E;
      [|discriminate].
    cbn [option_map] in HD. inversion HD; subst D.
    destruct (Cell_nil_dec cell) as [->|Hcell].
    + rewrite (nil_text_unparsed Hin) in E. discriminate.
    + rewrite dynamicFilterDate_last, (dynamicFilterDate_cell rest Hcell).
      exact (fromText_parsed _ Hin E).
Qed.

Lemma watermark_is_day_after_last_date_witness :
  dynamicFilterDate
    ([[CString (str "Date"); CString (str "Saves")]]
     ++ [[CString (str " Feb 28, 2024  "); CInt 9]])
  = isoDate (tomorrow (2024, 2, 28)).
Proof.
  apply (proj1 watermark_is_day_after_last_date
           [[CString (str "Date"); CString (str "Saves")]]
           (CString (str " Feb 28, 2024  ")) [CInt 9]
           (str "Jan 2, 2006") (2024, 2, 28)).
  - right. cbv [formats map In]. tauto.
  - vm_compute. reflexivity.
Defined.

(** C4.  With no rows, with a last row that has no first cell or an empty
    one, or with a first cell that none of the formats reads, the filter
    date is the fallback date 2025-05-21. *)
Theorem watermark_falls_back :
  forall rows : list Row,
    (rows = []
     \/ (exists init, rows = init ++ [[]])
     \/ (exists init rest, rows = init ++ [CNil :: rest])
     \/ (exists init rest, rows = init ++ [CString [] :: rest])
     \/ (exists init cell rest,
           rows = init ++ [cell :: rest]
           /\ forall layout,
               layout = str "2006-01-02" \/ In layout formats ->
               Parse layout (TrimSpace (sprintV cell)) = None)) ->
    dynamicFilterDate rows = str "2025-05-21".
Proof.
  intros rows [->|[[init ->]|[(init & rest & ->)|[(init & rest & ->)
                |(init & cell & rest & -> & Hnone)]]]].
  - reflexivity.
  - rewrite dynamicFilterDate_last. reflexivity.
  - rewrite dynamicFilterDate_last. reflexivity.
  - rewrite dynamicFilterDate_last. vm_compute. reflexivity.
  - rewrite dynamicFilterDate_last.
    destruct (Cell_nil_dec cell) as [->|Hcell]; [reflexivity|].
    rewrite (dynamicFilterDate_cell rest Hcell).
    apply fromText_unparsed. intros l Hl. apply Hnone, allLayouts_iff, Hl.
Qed.

Lemma watermark_falls_back_witness :
  dynamicFilterDate [[CString (str "2025-07-20"); CInt 4];
                     [CString (str "July 21st"); CInt 5]] = str "2025-05-21".
Proof.
  apply watermark_falls_back. right; right; right; right.
  exists [[CString (str "2025-07-20"); CInt 4]], (CString (str "July 21st")),
         [CInt 5].
  split; [reflexivity|].
  intros layout [->|H]; [vm_compute; reflexivity|].
  cbv [formats map In] in H.
  destruct H as [<-|[<-|[<-|[<-|[]]]]]; vm_compute; reflexivity.
Defined.

(** C8.  A run that appends [["2025-07-20", 5]] as its last row leaves a
    sheet from which the next run works out the filter date 2025-07-21. *)
Theorem appended_row_read_back :
  forall (srv : Service) (spreadsheetID sheetRange : gostring)
         (batch : list EmailMessage) (last : EmailMessage),
    writable srv = true -> readable srv = true ->
    civil (Date last) = (2025, 7, 20) -> ZillowSaves last = 5 ->
    let srv' := fst (appendToSheet srv spreadsheetID sheetRange (batch ++ [last])) in
    sheet srv'
    = sheet srv ++ map rowOf batch ++ [[CString (str "2025-07-20"); CInt 5]]
    /\ dynamicFilterDate (fst (getSheetData srv' spreadsheetID sheetRange))
       = str "2025-07-21".
Proof.
  intros srv id rng batch last Hw Hr Hdate Hsaves srv'.
  assert (Hrow : rowOf last = [CString (str "2025-07-20"); CInt 5]).
  { unfold rowOf. rewrite Format_formatDate, Hdate, Hsaves. reflexivity. }
  assert (Hsheet : sheet srv' = sheet srv ++ map rowOf batch
                                ++ [[CString (str "2025-07-20"); CInt 5]]
                   /\ readable srv' = true).
  { unfold srv', appendToSheet, ValuesAppend. rewrite Hw.
    rewrite map_app, length_app. cbn [map length].
    replace (length (map rowOf batch) + 1 =? 0)%nat with false
      by (symmetry; apply Nat.eqb_neq; lia).
    cbn [fst sheet readable]. rewrite Hrow. split; [reflexivity|exact Hr]. }
  destruct Hsheet as [Hsheet Hr'].
  split; [exact Hsheet|].
  unfold getSheetData, ValuesGet. rewrite Hr'. cbn [fst].
  rewrite Hsheet, app_assoc, dynamicFilterDate_last. vm_compute. reflexivity.
Qed.

Lemma appended_row_read_back_witness :
  let srv := mkService [[CString (str "2025-07-19"); CInt 4]] [] true true in
  let last := mkEmail emailSubject
                (mkTime (dayNumber 2025 7 20 * 86400 + 40000) 0 (-18000))
                (str "5 saves") (str "7") 5 in
  let srv' := fst (appendToSheet srv (str "id") (str "Sheet1!A:Z") ([] ++ [last])) in
  sheet srv'
  = sheet srv ++ map rowOf [] ++ [[CString (str "2025-07-20"); CInt 5]]
  /\ dynamicFilterDate (fst (getSheetData srv' (str "id") (str "Sheet1!A:Z")))
     = str "2025-07-21".
Proof.
  apply appended_row_read_back; vm_compute; reflexivity.
Defined.

End WatermarkFacts.

Module ExtractFacts.
Import Regexp RegexpFacts GoStrings Zillow Notions.

Lemma digit_not_space c : isDigit c = true -> isReSpace c = false.
Proof.
  intros H. apply ParseFacts.isDigit_code in H. unfold isReSpace.
  repeat (apply orb_false_iff; split); apply Z.eqb_neq; lia.
Qed.

Lemma space_not_s c : isReSpace c = true -> (c =? "s")%char = false.
Proof.
  unfold isReSpace. rewrite !orb_true_iff, !Z.eqb_eq. intros H.
  rewrite ParseFacts.ascii_eqb_code. change (code "s") with 115.
  apply Z.eqb_neq. lia.
Qed.

(** The match of [(\d+)\s+saves?] at the head of [s], read off the text:
    the digits, the white space, the word. *)
Definition savesAt (s : gostring) : option (list gostring) :=
  match leading isDigit s with
  | [] => None
  | _ :: _ =>
    match leading isReSpace (after isDigit s) with
    | [] => None
    | _ :: _ =>
      match after isReSpace (after isDigit s) with
      | c1 :: c2 :: c3 :: c4 :: r3 =>
        if ((c1 =? "s") && (c2 =? "a") && (c3 =? "v") && (c4 =? "e"))%char
        then
          let rest :=
            match r3 with
            | c5 :: r4 => if (c5 =? "s")%char then r4 else r3
            | [] => r3
            end in
          Some [consumed s rest; leading isDigit s]
        else None
      | _ => None
      end
    end
  end.

Lemma matchHere_saves s : matchHere savesPattern 1 s = savesAt s.
Proof.
  unfold matchHere, savesPattern, savesAt.
  set (K := fun (rest : gostring) (caps : captures) =>
              Some (consumed s rest :: map (getCap caps) (seq 1 1))).
  rewrite rmatch_Cat, rmatch_Group, rmatch_Plus.
  unfold digit at 1. rewrite plusLoop_class; [| |lia].
  2:{ intros c s' caps Hc.
      rewrite rmatch_Cat, rmatch_Plus. unfold space at 1.
      cbn [plusLoop]. rewrite rmatch_Class, (digit_not_space _ Hc). reflexivity. }
  destruct (leading isDigit s) as [|d ds] eqn:Eds; [reflexivity|].
  rewrite rmatch_Cat, rmatch_Plus.
  unfold space at 1. rewrite plusLoop_class; [| |lia].
  2:{ intros c s' caps Hc. cbn [word str list_ascii_of_string].
      rewrite rmatch_Cat. unfold lit at 1.
      rewrite rmatch_Class, (space_not_s _ Hc). reflexivity. }
  destruct (leading isReSpace (after isDigit s)) as [|w ws]; [reflexivity|].
  assert (Hcons : consumed s (after isDigit s) = d :: ds).
  { rewrite <- Eds. rewrite <- (leading_after isDigit s) at 1. apply consumed_app. }
  rewrite Hcons.
  cbn [word str list_ascii_of_string]. unfold lit.
  rewrite rmatch_Cat, rmatch_Class.
  destruct (after isReSpace (after isDigit s)) as [|c1 r]; [reflexivity|].
  destruct (c1 =? "s")%char; [|destruct r as [|? [|? [|? ?]]]; reflexivity].
  cbv beta. rewrite rmatch_Cat, rmatch_Class.
  destruct r as [|c2 r]; [reflexivity|].
  destruct (c2 =? "a")%char; [|destruct r as [|? [|? ?]]; reflexivity].
  cbv beta. rewrite rmatch_Cat, rmatch_Class.
  destruct r as [|c3 r]; [reflexivity|].
  destruct (c3 =? "v")%char; [|destruct r as [|? ?]; reflexivity].
  cbv beta. rewrite rmatch_Cat, rmatch_Class.
  destruct r as [|c4 r3]; [reflexivity|].
  destruct (c4 =? "e")%char; [|reflexivity].
  cbv beta. cbn [andb]. rewrite rmatch_Quest, rmatch_Class. unfold K.
  cbn [map seq getCap Nat.eqb].
  destruct r3 as [|c5 r4]; [reflexivity|].
  destruct (c5 =? "s")%char; reflexivity.
Qed.


(** *** What [FindStringSubmatch] returns for the pattern *)

Lemma savesAt_shape s m :
  savesAt s = Some m ->
  exists whole, m = [whole; leading isDigit s] /\ leading isDigit s <> [].
Proof.
  unfold savesAt. intros H.
  destruct (leading isDigit s) as [|d ds]; [discriminate|].
  destruct (leading isReSpace (after isDigit (s))) as [|w ws]; [discriminate|].
  destruct (after isReSpace (after isDigit s)) as [|c1 [|c2 [|c3 [|c4 r3]]]];
    try discriminate.
  destruct ((c1 =? "s") && (c2 =? "a") && (c3 =? "v") && (c4 =? "e"))%char;
    [|discriminate].
  inversion H; subst. eexists. split; [reflexivity|discriminate].
Qed.

(** No match, or a match whose group 1 is a run of digits. *)
Lemma FindStringSubmatch_saves s :
  FindStringSubmatch savesPattern 1 s = []
  \/ exists whole ds, FindStringSubmatch savesPattern 1 s = [whole; ds]
                      /\ ds <> [] /\ forallb isDigit ds = true.
Proof.
  induction s as [|c s IH]; cbn [FindStringSubmatch]; rewrite matchHere_saves.
  - left. reflexivity.
  - destruct (savesAt (c :: s)) as [m|] eqn:E; [|exact IH].
    right. destruct (savesAt_shape _ E) as (whole & -> & Hne).
    exists whole, (leading isDigit (c :: s)).
    split; [reflexivity|]. split; [exact Hne|apply leading_all].
Qed.

(** *** [strconv.Atoi] on a run of digits *)

Lemma digitVal_range c : isDigit c = true -> 0 <= digitVal c <= 9.
Proof. intros H. apply ParseFacts.isDigit_code in H. unfold digitVal. lia. Qed.

Lemma decimalFrom_le s : forall n,
  0 <= n -> forallb isDigit s = true -> n <= decimalFrom n s.
Proof.
  induction s as [|c s IH]; intros n Hn Hs; cbn [decimalFrom]; [lia|].
  cbn [forallb] in Hs. apply andb_true_iff in Hs. destruct Hs as [Hc Hs].
  pose proof (digitVal_range _ Hc).
  specialize (IH (n * 10 + digitVal c) ltac:(lia) Hs). lia.
Qed.

Lemma smallDigits_digits s : forall n,
  forallb isDigit s = true -> Strconv.smallDigits n s = Some (decimalFrom n s).
Proof.
  induction s as [|c s IH]; intros n Hs; [reflexivity|].
  cbn [forallb] in Hs. apply andb_true_iff in Hs. destruct Hs as [Hc Hs].
  cbn [Strconv.smallDigits decimalFrom]. rewrite Hc. apply IH, Hs.
Qed.

Lemma parseUintLoop_digits s : forall n,
  0 <= n -> forallb isDigit s = true ->
  decimalFrom n s <= Strconv.maxUint64 ->
  Strconv.parseUintLoop n s = (decimalFrom n s, None).
Proof.
  induction s as [|c s IH]; intros n Hn Hs Hle; [reflexivity|].
  cbn [forallb] in Hs. apply andb_true_iff in Hs. destruct Hs as [Hc Hs].
  cbn [Strconv.parseUintLoop decimalFrom] in *. rewrite Hc. cbn [negb].
  pose proof (digitVal_range _ Hc) as Hd.
  pose proof (@decimalFrom_le s (n * 10 + digitVal c) ltac:(lia) Hs) as Hmono.
  change (Strconv.maxUint64 / 10 + 1) with 1844674407370955162.
  change Strconv.maxUint64 with 18446744073709551615 in *.
  destruct (Z.geb_spec n 1844674407370955162); [lia|].
  destruct (Z.gtb_spec (n * 10 + digitVal c) 18446744073709551615); [lia|].
  apply IH; [lia|exact Hs|exact Hle].
Qed.

Lemma parseUintLoop_nonneg s : forall n,
  0 <= n -> 0 <= fst (Strconv.parseUintLoop n s).
Proof.
  induction s as [|c s IH]; intros n Hn; cbn [Strconv.parseUintLoop fst]; [exact Hn|].
  destruct (isDigit c) eqn:Hc; cbn [negb fst]; [|lia].
  destruct (n >=? Strconv.maxUint64 / 10 + 1); [cbn; lia|].
  destruct (n * 10 + digitVal c >? Strconv.maxUint64); [cbn; lia|].
  apply IH. pose proof (digitVal_range _ Hc). lia.
Qed.

Lemma digit_not_sign c :
  isDigit c = true -> (c =? "-")%char = false /\ (c =? "+")%char = false.
Proof. intros H. destruct (ParseFacts.digit_not_sep _ H) as (_ & ? & ? & _). tauto. Qed.

(** A run of digits that fits an [int] is read as the number it stands for. *)
Lemma Atoi_digits s :
  s <> [] -> forallb isDigit s = true -> decimalValue s <= Strconv.maxInt ->
  Strconv.Atoi s = (decimalValue s, None).
Proof.
  intros Hne Hs Hfit. destruct s as [|c s]; [contradiction|].
  pose proof Hs as Hs'. cbn [forallb] in Hs'. apply andb_true_iff in Hs'.
  destruct Hs' as [Hc _]. destruct (digit_not_sign _ Hc) as [Hm Hp].
  unfold Strconv.Atoi.
  destruct ((0 <? length (c :: s)) && (length (c :: s) <? 19))%nat.
  - rewrite Hm, Hp. cbn [orb]. rewrite smallDigits_digits by exact Hs. reflexivity.
  - unfold Strconv.ParseInt, Strconv.ParseUint. rewrite Hm, Hp. cbn [orb negb andb].
    rewrite parseUintLoop_digits;
      [|lia|exact Hs|unfold decimalValue, Strconv.maxInt, Strconv.maxUint64 in *; lia].
    fold (decimalValue (c :: s)).
    change (2 ^ (Strconv.intSize - 1)) with 9223372036854775808.
    unfold Strconv.maxInt in Hfit.
    destruct (Z.geb_spec (decimalValue (c :: s)) 9223372036854775808); [lia|].
    reflexivity.
Qed.

(** Whatever the digits, what [Atoi] returns is not negative. *)
Lemma Atoi_digits_nonneg s :
  forallb isDigit s = true -> 0 <= fst (Strconv.Atoi s).
Proof.
  intros Hs. destruct s as [|c s]; [cbn; lia|].
  pose proof Hs as Hs'. cbn [forallb] in Hs'. apply andb_true_iff in Hs'.
  destruct Hs' as [Hc _]. destruct (digit_not_sign _ Hc) as [Hm Hp].
  unfold Strconv.Atoi.
  destruct ((0 <? length (c :: s)) && (length (c :: s) <? 19))%nat.
  - rewrite Hm, Hp. cbn [orb]. rewrite smallDigits_digits by exact Hs.
    cbn [fst]. apply (@decimalFrom_le (c :: s) 0); [lia|exact Hs].
  - unfold Strconv.ParseInt, Strconv.ParseUint. rewrite Hm, Hp. cbn [orb negb andb].
    pose proof (@parseUintLoop_nonneg (c :: s) 0 ltac:(lia)) as Hn.
    destruct (Strconv.parseUintLoop 0 (c :: s)) as [un [[| |msg]|]];
      cbn [fst] in *; try lia;
      change (2 ^ (Strconv.intSize - 1)) with 9223372036854775808;
      destruct (un >=? 9223372036854775808); cbn [fst]; lia.
Qed.


(** *** [extractZillowSavesCount] *)

(** What [extractZillowSavesCount] returns, by what the pattern finds. *)
Lemma extract_cases {tables : UnicodeTables} content :
  (FindStringSubmatch savesPattern 1 (ToLower content) = []
   /\ extractZillowSavesCount content = (0, None))
  \/ (exists whole ds,
        FindStringSubmatch savesPattern 1 (ToLower content) = [whole; ds]
        /\ ds <> [] /\ forallb isDigit ds = true
        /\ extractZillowSavesCount content
           = match Strconv.Atoi ds with
             | (count, None) => (count, None)
             | (_, Some _) => (0, None)
             end).
Proof.
  unfold extractZillowSavesCount, patterns. cbn [firstCount].
  destruct (FindStringSubmatch_saves (ToLower content))
    as [E|(whole & ds & E & Hne & Hds)]; rewrite E.
  - left. split; reflexivity.
  - right. exists whole, ds. cbn [length Nat.ltb Nat.leb nth].
    repeat split; assumption.
Qed.

(** The error is nil and the count is not negative. *)
Lemma extract_ok {tables : UnicodeTables} content :
  snd (extractZillowSavesCount content) = None
  /\ 0 <= fst (extractZillowSavesCount content).
Proof.
  destruct (extract_cases content) as [[_ ->]|(whole & ds & _ & _ & Hds & ->)].
  - cbn [fst snd]. split; [reflexivity|lia].
  - pose proof (Atoi_digits_nonneg _ Hds) as Hn.
    destruct (Strconv.Atoi ds) as [count [err|]]; cbn [fst snd] in *;
      split; try reflexivity; lia.
Qed.

(** The loop of [processData] goes through all the emails. *)
Lemma extractLoop_open {tables : UnicodeTables} (emails : list EmailMessage) :
  extractLoop extractZillowSavesCount emails
  = (true, withCounts extractZillowSavesCount emails).
Proof.
  unfold withCounts. induction emails as [|email emails IH]; [reflexivity|].
  cbn [extractLoop map]. destruct (extract_ok (Content email)) as [Herr _].
  destruct (extractZillowSavesCount (Content email)) as [count err].
  cbn [fst snd] in *. subst err. rewrite IH. reflexivity.
Qed.

(** C9.  [extractZillowSavesCount] returns a nil error and a number that is
    not negative for every content, 0 when the pattern finds nothing; so the
    loop of [processData] never takes its error branch: the gate stays open
    and every email gets its count, never -1. *)
Theorem extraction_never_reports_an_error :
  forall (tables : UnicodeTables) (content : gostring),
    snd (extractZillowSavesCount content) = None
    /\ 0 <= fst (extractZillowSavesCount content)
    /\ (FindStringSubmatch savesPattern 1 (ToLower content) = [] ->
        extractZillowSavesCount content = (0, None))
    /\ forall emails : list EmailMessage,
        extractLoop extractZillowSavesCount emails
        = (true, withCounts extractZillowSavesCount emails)
        /\ Forall (fun email => 0 <= ZillowSaves email)
                  (snd (extractLoop extractZillowSavesCount emails)).
Proof.
  intros tables content. destruct (extract_ok content) as [Herr Hnn].
  split; [exact Herr|]. split; [exact Hnn|]. split.
  - intros Hnone.
    destruct (extract_cases content) as [[_ E]|(whole & ds & E & _)];
      [exact E|congruence].
  - intros emails. split; [apply extractLoop_open|].
    rewrite extractLoop_open. cbn [snd]. apply Forall_forall. intros e He.
    unfold withCounts in He. apply in_map_iff in He. destruct He as (e0 & <- & _).
    cbn [ZillowSaves setZillowSaves]. apply extract_ok.
Qed.

(** C2.  A content in which the pattern finds nothing: the extraction
    returns the count 0 with a nil error, a success like any other. *)
Theorem gap_is_returned_as_zero :
  FindStringSubmatch savesPattern 1
    (@ToLower asciiText (str "Your listing had no new activity today.")) = []
  /\ @extractZillowSavesCount asciiText
       (str "Your listing had no new activity today.") = (0, None)
  /\ @extractZillowSavesCount asciiText [] = (0, None).
Proof. vm_compute. repeat split; reflexivity. Qed.

(** *** The count the pattern names *)

(** Where the matcher finds the pattern, the pattern is. *)
Lemma savesAt_occursAt s m : savesAt s = Some m -> occursAt s.
Proof.
  unfold savesAt. intros H.
  pose proof (leading_after isDigit s) as E1.
  pose proof (leading_after isReSpace (after isDigit s)) as E2.
  pose proof (leading_all isDigit s) as A1.
  pose proof (leading_all isReSpace (after isDigit s)) as A2.
  destruct (leading isDigit s) as [|d ds]; [discriminate|].
  destruct (leading isReSpace (after isDigit s)) as [|w ws]; [discriminate|].
  destruct (after isReSpace (after isDigit s)) as [|c1 [|c2 [|c3 [|c4 r3]]]];
    try discriminate.
  destruct (Ascii.eqb_spec c1 "s"); [|discriminate].
  destruct (Ascii.eqb_spec c2 "a"); [|discriminate].
  destruct (Ascii.eqb_spec c3 "v"); [|discriminate].
  destruct (Ascii.eqb_spec c4 "e"); [|discriminate].
  subst. exists (d :: ds), (w :: ws), r3.
  split; [|repeat split; try assumption; discriminate].
  rewrite <- E1 at 1. rewrite <- E2. reflexivity.
Qed.

(** Where the pattern is, the matcher finds it. *)
Lemma occursAt_savesAt s : occursAt s -> exists m, savesAt s = Some m.
Proof.
  intros (ds & ws & rest & -> & Hne & Hds & Hwne & Hws). unfold savesAt.
  assert (Hhead : match ws ++ str "save" ++ rest with
                  | c :: _ => isDigit c = false | [] => True end).
  { destruct ws as [|w ws]; [contradiction|]. cbn [app].
    cbn [forallb] in Hws. apply andb_true_iff in Hws. destruct Hws as [Hw _].
    destruct (isDigit w) eqn:Dw; [|reflexivity].
    rewrite (digit_not_space _ Dw) in Hw. discriminate. }
  destruct (@leading_app isDigit ds (ws ++ str "save" ++ rest) Hds Hhead)
    as [-> ->].
  destruct (@leading_app isReSpace ws (str "save" ++ rest) Hws eq_refl)
    as [-> ->].
  destruct ds as [|d ds]; [contradiction|].
  destruct ws as [|w ws]; [contradiction|].
  cbn [str list_ascii_of_string app]. cbn [Ascii.eqb Bool.eqb andb].
  eexists. reflexivity.
Qed.

(** The matcher finds the pattern exactly where it occurs. *)
Lemma savesAt_None s : savesAt s = None <-> ~ occursAt s.
Proof.
  split.
  - intros Hnone Hocc. destruct (occursAt_savesAt Hocc) as [m E]. congruence.
  - intros Hno. destruct (savesAt s) as [m|] eqn:E; [|reflexivity].
    exfalso. apply Hno. exact (savesAt_occursAt _ E).
Qed.

Lemma find_skips pre : forall text,
  (forall i, (i < length pre)%nat -> ~ occursAt (skipn i (pre ++ text))) ->
  FindStringSubmatch savesPattern 1 (pre ++ text)
  = FindStringSubmatch savesPattern 1 text.
Proof.
  induction pre as [|c pre IH]; intros text H; [reflexivity|].
  cbn [app FindStringSubmatch]. rewrite matchHere_saves.
  destruct (savesAt (c :: pre ++ text)) as [m|] eqn:E.
  - exfalso. apply (H 0%nat); [cbn [length]; lia|].
    cbn [skipn app]. exact (savesAt_occursAt _ E).
  - apply IH. intros i Hi. apply (H (S i)). cbn [length]. lia.
Qed.

Lemma space_not_digit : isDigit " " = false.
Proof. reflexivity. Qed.

(** At ["<digits> saves"], group 1 is the digits. *)
Lemma find_here ds post :
  ds <> [] -> forallb isDigit ds = true ->
  exists whole,
    FindStringSubmatch savesPattern 1 (ds ++ str " saves" ++ post) = [whole; ds].
Proof.
  intros Hne Hds.
  assert (E : savesAt (ds ++ str " saves" ++ post)
              = Some [consumed (ds ++ str " saves" ++ post) post; ds]).
  { unfold savesAt.
    destruct (@leading_app isDigit ds (str " saves" ++ post) Hds space_not_digit)
      as [-> ->].
    destruct ds as [|d ds]; [contradiction|]. reflexivity. }
  destruct ds as [|d ds]; [contradiction|].
  cbn [app FindStringSubmatch]. rewrite matchHere_saves.
  cbn [app] in E. rewrite E. eexists. reflexivity.
Qed.

(** C5, amended.  When the lower-cased content has ["<N> saves"] in it, [N]
    a run of digits that stands for a number an [int] holds, and the pattern
    does not occur at any earlier place, the extraction returns [N]. *)
Theorem first_saves_count_is_returned :
  forall (tables : UnicodeTables) (content pre ds post : gostring),
    ToLower content = pre ++ ds ++ str " saves" ++ post ->
    ds <> [] -> forallb isDigit ds = true ->
    (forall i, (i < length pre)%nat -> ~ occursAt (skipn i (ToLower content))) ->
    decimalValue ds <= Strconv.maxInt ->
    extractZillowSavesCount content = (decimalValue ds, None).
Proof.
  intros tables content pre ds post Hlow Hne Hds Hfirst Hfit.
  unfold extractZillowSavesCount, patterns. cbn [firstCount].
  rewrite Hlow in *. rewrite (find_skips pre _ Hfirst).
  destruct (find_here post Hne Hds) as [whole ->].
  cbn [length Nat.ltb Nat.leb nth].
  rewrite (Atoi_digits Hne Hds Hfit). reflexivity.
Qed.

Lemma first_saves_count_is_returned_witness :
  @extractZillowSavesCount asciiText
    (str "Room 101: your home got 1 view and 12 Saves, 3 saves more than before")
  = (decimalValue (str "12"), None).
Proof.
  apply (@first_saves_count_is_returned asciiText _
           (str "room 101: your home got 1 view and ") (str "12")
           (str ", 3 saves more than before")).
  - vm_compute. reflexivity.
  - discriminate.
  - reflexivity.
  - intros i Hi. apply savesAt_None.
    assert (Hnone : forallb (fun k =>
               match savesAt (skipn k
                 (@ToLower asciiText
                    (str "Room 101: your home got 1 view and 12 Saves, 3 saves more than before")))
               with None => true | Some _ => false end)
               (seq 0 35) = true) by (vm_compute; reflexivity).
    rewrite forallb_forall in Hnone. specialize (Hnone i).
    assert (Hin : In i (seq 0 35)) by (apply in_seq; cbn in Hi; lia).
    specialize (Hnone Hin).
    destruct (savesAt _); [discriminate|reflexivity].
  - vm_compute. discriminate.
Defined.

(** C5 as stated fails for a number an [int] does not hold: the content is
    ["<N> saves"] with [N = 99999999999999999999], and the extraction returns
    0. *)
Lemma count_beyond_int_is_lost :
  @ToLower asciiText (str "99999999999999999999 saves")
  = [] ++ str "99999999999999999999" ++ str " saves" ++ []
  /\ decimalValue (str "99999999999999999999") = 99999999999999999999
  /\ @extractZillowSavesCount asciiText (str "99999999999999999999 saves")
     = (0, None)
  /\ (0 =? 99999999999999999999) = false.
Proof. vm_compute. repeat split; reflexivity. Qed.

End ExtractFacts.

Module SortFacts.
Import GoSort.

Section Order.
Variable A : Type.
Variable less : A -> A -> bool.
Hypothesis order : lessOrder less.

Lemma less_irrefl x : less x x = false.
Proof. apply order. Qed.

Lemma less_asym x y : less x y = true -> less y x = false.
Proof.
  intros H. destruct (less y x) eqn:E; [|reflexivity].
  destruct order as (Hirr & Htrans & _).
  rewrite <- (Hirr x). symmetry. exact (Htrans _ _ _ H E).
Qed.

Lemma less_negtrans x y z : less x y = false -> less y z = false -> less x z = false.
Proof. apply order. Qed.

(** *** Insertion sort *)

(** The part already sorted, last element first: no element is less than
    one after it in the list. *)
Definition descending (l : list A) : Prop :=
  StronglySorted (fun a b => less a b = false) l.

Lemma insertLeft_perm x l : Permutation (x :: l) (insertLeft less x l).
Proof.
  induction l as [|y l IH]; cbn [insertLeft]; [reflexivity|].
  destruct (less x y); [|reflexivity].
  rewrite perm_swap. apply perm_skip, IH.
Qed.

Lemma insertLeft_descending x l : descending l -> descending (insertLeft less x l).
Proof.
  unfold descending. induction l as [|y l IH]; intros Hl; cbn [insertLeft].
  - repeat constructor.
  - apply StronglySorted_inv in Hl. destruct Hl as [Hl Hy].
    destruct (less x y) eqn:E.
    + constructor; [apply IH, Hl|].
      apply Forall_forall. intros b Hb.
      apply (Permutation_in _ (Permutation_sym (insertLeft_perm x l))) in Hb.
      destruct Hb as [<-|Hb]; [apply less_asym, E|].
      rewrite Forall_forall in Hy. apply Hy, Hb.
    + constructor; [constructor; assumption|].
      constructor; [exact E|].
      rewrite Forall_forall in *. intros b Hb.
      apply less_negtrans with y; [exact E|apply Hy, Hb].
Qed.

Lemma fold_insertLeft_perm l : forall acc,
  Permutation (acc ++ l) (fold_left (fun s x => insertLeft less x s) l acc).
Proof.
  induction l as [|x l IH]; intros acc; cbn [fold_left].
  - rewrite app_nil_r. reflexivity.
  - rewrite <- IH. rewrite <- (insertLeft_perm x acc).
    cbn [app]. apply Permutation_sym, Permutation_middle.
Qed.

Lemma fold_insertLeft_descending l : forall acc,
  descending acc -> descending (fold_left (fun s x => insertLeft less x s) l acc).
Proof.
  induction l as [|x l IH]; intros acc Hacc; cbn [fold_left]; [exact Hacc|].
  apply IH, insertLeft_descending, Hacc.
Qed.

Lemma StronglySorted_snoc (R : A -> A -> Prop) l x :
  StronglySorted R l -> Forall (fun y => R y x) l -> StronglySorted R (l ++ [x]).
Proof.
  induction l as [|a l IH]; intros Hl Hx; cbn [app].
  - repeat constructor.
  - apply StronglySorted_inv in Hl. destruct Hl as [Hl Ha].
    inversion Hx; subst. constructor; [apply IH; assumption|].
    apply Forall_app. split; [exact Ha|]. repeat constructor. assumption.
Qed.

Lemma StronglySorted_rev (R : A -> A -> Prop) l :
  StronglySorted R l -> StronglySorted (fun a b => R b a) (rev l).
Proof.
  induction l as [|a l IH]; intros Hl; cbn [rev]; [constructor|].
  apply StronglySorted_inv in Hl. destruct Hl as [Hl Ha].
  apply StronglySorted_snoc; [apply IH, Hl|].
  apply Forall_forall. intros y Hy. apply in_rev in Hy.
  rewrite Forall_forall in Ha. apply Ha, Hy.
Qed.

Lemma insertionSort_perm l : Permutation l (insertionSort less l).
Proof.
  unfold insertionSort. rewrite <- Permutation_rev.
  apply (fold_insertLeft_perm l []).
Qed.

Lemma insertionSort_sorted l : sortedBy less (insertionSort less l).
Proof.
  unfold insertionSort, sortedBy.
  apply (StronglySorted_rev (R := fun a b => less a b = false)).
  apply fold_insertLeft_descending. constructor.
Qed.

(** Insertion sort keeps the order of equal elements. *)
Lemma equalTo_app z (l1 l2 : list A) :
  equalTo less z (l1 ++ l2) = equalTo less z l1 ++ equalTo less z l2.
Proof. apply filter_app. Qed.

Lemma equalTo_insertLeft z x l :
  equalTo less z (rev (insertLeft less x l))
  = equalTo less z (rev l) ++ equalTo less z [x].
Proof.
  induction l as [|y l IH]; cbn [insertLeft]; [reflexivity|].
  destruct (less x y) eqn:E; [|cbn [rev]; apply equalTo_app].
  cbn [rev]. rewrite !equalTo_app, IH, <- !app_assoc. f_equal.
  unfold equalTo. cbn [filter].
  destruct (negb (less z x) && negb (less x z)) eqn:Ex;
    destruct (negb (less z y) && negb (less y z)) eqn:Ey; try reflexivity.
  exfalso. apply andb_true_iff in Ex, Ey.
  rewrite !negb_true_iff in Ex, Ey. destruct Ex as [_ Hxz], Ey as [Hzy _].
  rewrite (less_negtrans Hxz Hzy) in E. discriminate.
Qed.

Lemma equalTo_fold z l : forall acc,
  equalTo less z (rev (fold_left (fun s x => insertLeft less x s) l acc))
  = equalTo less z (rev acc) ++ equalTo less z l.
Proof.
  induction l as [|x l IH]; intros acc; cbn [fold_left].
  - unfold equalTo at 3. cbn [filter]. rewrite app_nil_r. reflexivity.
  - rewrite IH, equalTo_insertLeft, <- app_assoc, <- equalTo_app. reflexivity.
Qed.

Lemma insertionSort_stable l : stable less l (insertionSort less l).
Proof. intros z. unfold insertionSort. apply (equalTo_fold z l []). Qed.

(** *** The sort that reverses equal elements *)

Lemma insertBefore_perm x l : Permutation (x :: l) (insertBefore less x l).
Proof.
  induction l as [|y l IH]; cbn [insertBefore]; [reflexivity|].
  destruct (less y x); [|reflexivity].
  rewrite perm_swap. apply perm_skip, IH.
Qed.

Lemma insertBefore_sorted x l : sortedBy less l -> sortedBy less (insertBefore less x l).
Proof.
  unfold sortedBy. induction l as [|y l IH]; intros Hl; cbn [insertBefore].
  - repeat constructor.
  - apply StronglySorted_inv in Hl. destruct Hl as [Hl Hy].
    destruct (less y x) eqn:E.
    + constructor; [apply IH, Hl|].
      apply Forall_forall. intros b Hb.
      apply (Permutation_in _ (Permutation_sym (insertBefore_perm x l))) in Hb.
      destruct Hb as [<-|Hb]; [apply less_asym, E|].
      rewrite Forall_forall in Hy. apply Hy, Hb.
    + constructor; [constructor; assumption|].
      constructor; [exact E|].
      rewrite Forall_forall in *. intros b Hb.
      apply less_negtrans with y; [apply Hy, Hb|exact E].
Qed.

Lemma reversingSort_perm_from l : forall acc,
  Permutation (acc ++ l) (fold_left (fun s x => insertBefore less x s) l acc).
Proof.
  induction l as [|x l IH]; intros acc; cbn [fold_left].
  - rewrite app_nil_r. reflexivity.
  - rewrite <- IH. rewrite <- (insertBefore_perm x acc).
    cbn [app]. apply Permutation_sym, Permutation_middle.
Qed.

Lemma reversingSort_sorted_from l : forall acc,
  sortedBy less acc ->
  sortedBy less (fold_left (fun s x => insertBefore less x s) l acc).
Proof.
  induction l as [|x l IH]; intros acc Hacc; cbn [fold_left]; [exact Hacc|].
  apply IH, insertBefore_sorted, Hacc.
Qed.

End Order.

(** Insertion sort is a [sort.Slice]. *)
Definition insertionSorter : SliceSorter :=
  {| Slice := @insertionSort;
     Slice_perm := @insertionSort_perm;
     Slice_sorted := fun A less l order => insertionSort_sorted order l |}.

(** So is the sort that reverses equal elements. *)
Definition reversingSorter : SliceSorter :=
  {| Slice := @reversingSort;
     Slice_perm := fun A less l => reversingSort_perm_from less l [];
     Slice_sorted := fun A less l order =>
       reversingSort_sorted_from order l (SSorted_nil _) |}.

End SortFacts.

(* ================================================================= *)
(** ** The sort Go runs: its result is sorted *)

Module PdqsortFacts.
Import GoSort SortFacts.

Section Sorts.
Local Open Scope nat_scope.
Variable A : Type.
Variable less : A -> A -> bool.
Hypothesis order : lessOrder less.

(** *** Elements by their index *)

Lemma setNth_length (data : list A) : forall i x,
  length (setNth data i x) = length data.
Proof.
  induction data as [|y data IH]; intros [|i] x; cbn [setNth length];
    try rewrite IH; reflexivity.
Qed.

Lemma nth_error_setNth (data : list A) : forall i x k,
  nth_error (setNth data i x) k
  = if (k =? i) && (i <? length data) then Some x else nth_error data k.
Proof.
  induction data as [|y data IH]; intros i x k.
  - cbn [setNth length]. rewrite andb_false_r. reflexivity.
  - destruct i as [|i], k as [|k]; cbn [setNth nth_error length]; try reflexivity.
    rewrite IH. reflexivity.
Qed.

Lemma setNth_perm (data : list A) : forall i x y,
  nth_error data i = Some x ->
  Permutation (y :: data) (x :: setNth data i y).
Proof.
  induction data as [|z data IH]; intros [|i] x y H; cbn [nth_error] in H;
    try discriminate H; cbn [setNth].
  - injection H as ->. apply perm_swap.
  - rewrite perm_swap. rewrite (IH _ _ y H). apply perm_swap.
Qed.

Lemma Swap_length (data : list A) i j : length (Swap data i j) = length data.
Proof.
  unfold Swap. destruct (nth_error data i), (nth_error data j); try reflexivity.
  rewrite !setNth_length. reflexivity.
Qed.

Lemma nth_error_Swap (data : list A) i j k :
  i < length data -> j < length data ->
  nth_error (Swap data i j) k
  = if k =? j then nth_error data i
    else if k =? i then nth_error data j else nth_error data k.
Proof.
  intros Hi Hj. unfold Swap.
  destruct (nth_error data i) as [x|] eqn:Ex;
    [|apply nth_error_None in Ex; lia].
  destruct (nth_error data j) as [y|] eqn:Ey;
    [|apply nth_error_None in Ey; lia].
  rewrite !nth_error_setNth, setNth_length.
  apply Nat.ltb_lt in Hi, Hj. rewrite Hi, Hj, !andb_true_r.
  destruct (k =? j); [reflexivity|]. destruct (k =? i); reflexivity.
Qed.

Lemma Swap_perm (data : list A) i j : Permutation data (Swap data i j).
Proof.
  unfold Swap.
  destruct (nth_error data i) as [x|] eqn:Ex; [|apply Permutation_refl].
  destruct (nth_error data j) as [y|] eqn:Ey; [|apply Permutation_refl].
  assert (Hj : nth_error (setNth data i y) j = Some y).
  { rewrite nth_error_setNth. destruct (Nat.eqb_spec j i) as [->|_].
    - assert (Hi : i < length data) by (apply nth_error_Some; congruence).
      apply Nat.ltb_lt in Hi. rewrite Hi. reflexivity.
    - exact Ey. }
  apply (Permutation_cons_inv (a := y)).
  rewrite (setNth_perm data i y Ex). apply (setNth_perm _ j x Hj).
Qed.

(** [data[a:b]] *)
Definition slice (a b : nat) (data : list A) : list A :=
  firstn (b - a) (skipn a data).

Lemma nth_error_slice a b data k :
  nth_error (slice a b data) k
  = if k <? b - a then nth_error data (a + k) else None.
Proof. unfold slice. rewrite nth_error_firstn, nth_error_skipn. reflexivity. Qed.

Lemma slice_length a b data :
  a <= b <= length data -> length (slice a b data) = b - a.
Proof. intros H. unfold slice. rewrite length_firstn, length_skipn. lia. Qed.

Lemma In_slice a b data x :
  In x (slice a b data)
  <-> exists k, a <= k < b /\ nth_error data k = Some x.
Proof.
  split.
  - intros H. apply In_nth_error in H. destruct H as [k H].
    rewrite nth_error_slice in H. destruct (Nat.ltb_spec k (b - a)); [|discriminate].
    exists (a + k). split; [lia|exact H].
  - intros (k & Hk & H). apply (nth_error_In _ (k - a)).
    rewrite nth_error_slice. destruct (Nat.ltb_spec (k - a) (b - a)); [|lia].
    replace (a + (k - a)) with k by lia. exact H.
Qed.

Lemma slice_split a b data :
  a <= b -> data = firstn a data ++ slice a b data ++ skipn b data.
Proof.
  intros H. unfold slice.
  replace (skipn b data) with (skipn (b - a) (skipn a data))
    by (rewrite skipn_skipn; f_equal; lia).
  rewrite (firstn_skipn (b - a) (skipn a data)), firstn_skipn. reflexivity.
Qed.

Lemma firstn_plus (l : list A) : forall n m,
  firstn (n + m) l = firstn n l ++ firstn m (skipn n l).
Proof.
  induction l as [|x l IH]; intros [|n] m; cbn [Nat.add firstn skipn app];
    try reflexivity.
  - rewrite firstn_nil. reflexivity.
  - rewrite IH. reflexivity.
Qed.

Lemma slice_app a m b data :
  a <= m <= b -> slice a b data = slice a m data ++ slice m b data.
Proof.
  intros H. unfold slice.
  replace (b - a) with ((m - a) + (b - m)) by lia.
  rewrite firstn_plus, skipn_skipn.
  replace (m - a + a) with m by lia. reflexivity.
Qed.

Lemma slice_one m data p :
  nth_error data m = Some p -> slice m (S m) data = [p].
Proof.
  intros H. apply nth_error_ext. intros k. rewrite nth_error_slice.
  replace (S m - m) with 1 by lia.
  destruct k as [|k]; cbn [Nat.ltb Nat.leb nth_error].
  - rewrite Nat.add_0_r. exact H.
  - destruct k; reflexivity.
Qed.

Lemma slice_all data : slice 0 (length data) data = data.
Proof. unfold slice. cbn [skipn]. rewrite Nat.sub_0_r. apply firstn_all. Qed.

(** *** Rearrangements of a part of the slice *)

(** [data'] is [data] with the elements of [data[a:b]] rearranged. *)
Definition within (a b : nat) (data data' : list A) : Prop :=
  Permutation data data'
  /\ forall k, k < a \/ b <= k -> nth_error data' k = nth_error data k.

Lemma within_refl a b data : within a b data data.
Proof. split; [apply Permutation_refl|reflexivity]. Qed.

Lemma within_trans a b d1 d2 d3 :
  within a b d1 d2 -> within a b d2 d3 -> within a b d1 d3.
Proof.
  intros [P1 O1] [P2 O2]. split; [exact (Permutation_trans P1 P2)|].
  intros k Hk. rewrite O2, O1 by exact Hk. reflexivity.
Qed.

Lemma within_weaken a b a' b' d1 d2 :
  a' <= a -> b <= b' -> within a b d1 d2 -> within a' b' d1 d2.
Proof.
  intros Ha Hb [P O]. split; [exact P|]. intros k Hk. apply O. lia.
Qed.

Lemma within_length a b d1 d2 : within a b d1 d2 -> length d2 = length d1.
Proof. intros [P _]. symmetry. apply Permutation_length, P. Qed.

Lemma within_Swap a b data i j :
  a <= i < b -> a <= j < b -> within a b data (Swap data i j).
Proof.
  intros Hi Hj. split; [apply Swap_perm|]. intros k Hk.
  destruct (Nat.lt_ge_cases i (length data)) as [Li|Li];
    [|unfold Swap; apply nth_error_None in Li; rewrite Li; reflexivity].
  destruct (Nat.lt_ge_cases j (length data)) as [Lj|Lj];
    [|unfold Swap; apply nth_error_None in Lj; rewrite Lj;
      destruct (nth_error data i); reflexivity].
  rewrite nth_error_Swap by assumption.
  destruct (Nat.eqb_spec k j); [lia|]. destruct (Nat.eqb_spec k i); [lia|].
  reflexivity.
Qed.

Lemma within_outside a b lo hi d1 d2 :
  within a b d1 d2 -> hi <= a \/ b <= lo -> slice lo hi d2 = slice lo hi d1.
Proof.
  intros [_ O] H. apply nth_error_ext. intros k. rewrite !nth_error_slice.
  destruct (Nat.ltb_spec k (hi - lo)); [|reflexivity]. apply O. lia.
Qed.

Lemma within_slice a b d1 d2 :
  a <= b -> within a b d1 d2 -> Permutation (slice a b d1) (slice a b d2).
Proof.
  intros Hab [P O].
  assert (F : firstn a d2 = firstn a d1).
  { apply nth_error_ext. intros k. rewrite !nth_error_firstn.
    destruct (Nat.ltb_spec k a); [apply O; lia|reflexivity]. }
  assert (S : skipn b d2 = skipn b d1).
  { apply nth_error_ext. intros k. rewrite !nth_error_skipn. apply O. lia. }
  rewrite (slice_split d1 Hab), (slice_split d2 Hab), F, S in P.
  apply Permutation_app_inv_l, Permutation_app_inv_r in P. exact P.
Qed.

(** A property of all the elements of [data[lo:hi]]. *)
Definition allIn (lo hi : nat) (data : list A) (P : A -> Prop) : Prop :=
  forall k x, lo <= k < hi -> nth_error data k = Some x -> P x.

Lemma allIn_slice lo hi data P :
  allIn lo hi data P <-> Forall P (slice lo hi data).
Proof.
  rewrite Forall_forall. split.
  - intros H x Hx. apply In_slice in Hx. destruct Hx as (k & Hk & E).
    exact (H k x Hk E).
  - intros H k x Hk E. apply H, In_slice. exists k. split; assumption.
Qed.

Lemma allIn_within a b d1 d2 P :
  a <= b -> within a b d1 d2 -> allIn a b d1 P -> allIn a b d2 P.
Proof.
  intros Hab W. rewrite !allIn_slice. apply Permutation_Forall.
  apply within_slice; assumption.
Qed.

Lemma allIn_outside a b lo hi d1 d2 P :
  within a b d1 d2 -> hi <= a \/ b <= lo -> allIn lo hi d1 P -> allIn lo hi d2 P.
Proof.
  intros W H. rewrite !allIn_slice, (within_outside W H). tauto.
Qed.

(** *** Sorted parts *)

Lemma Less_val data i j x y :
  nth_error data i = Some x -> nth_error data j = Some y ->
  Less less data i j = less x y.
Proof. intros Hi Hj. unfold Less. rewrite Hi, Hj. reflexivity. Qed.

Lemma in_range data k : k < length data -> exists x : A, nth_error data k = Some x.
Proof.
  intros H. destruct (nth_error data k) as [x|] eqn:E; [exists x; reflexivity|].
  apply nth_error_None in E. lia.
Qed.

(** No element of [data[a:b]] is less than the one before it. *)
Definition adjacent (a b : nat) (data : list A) : Prop :=
  forall k, a < k < b -> Less less data k (k - 1) = false.

Lemma neighbours_sorted (l : list A) :
  (forall k x y, nth_error l k = Some x -> nth_error l (S k) = Some y ->
                 less y x = false) ->
  sortedBy less l.
Proof.
  unfold sortedBy. induction l as [|x l IH]; intros H; constructor.
  - apply IH. intros k u v Hu Hv. exact (H (S k) u v Hu Hv).
  - assert (Hs : StronglySorted (fun u v => less v u = false) l).
    { apply IH. intros k u v Hu Hv. exact (H (S k) u v Hu Hv). }
    destruct l as [|y l]; constructor.
    + exact (H 0 x y eq_refl eq_refl).
    + inversion Hs as [|? ? _ Hy]; subst.
      rewrite Forall_forall in *. intros z Hz.
      exact (@less_negtrans _ _ order z y x (Hy z Hz) (H 0 x y eq_refl eq_refl)).
Qed.

Lemma adjacent_sorted a b data :
  b <= length data -> adjacent a b data -> sortedBy less (slice a b data).
Proof.
  intros Hb H. apply neighbours_sorted. intros k x y Hx Hy.
  rewrite nth_error_slice in Hx, Hy.
  destruct (Nat.ltb_spec (S k) (b - a)); [|discriminate].
  destruct (Nat.ltb_spec k (b - a)); [|lia].
  specialize (H (a + S k) ltac:(lia)).
  replace (a + S k - 1) with (a + k) in H by lia.
  rewrite (Less_val _ _ _ Hy Hx) in H. exact H.
Qed.

Lemma sorted_app (l1 l2 : list A) :
  sortedBy less l1 -> sortedBy less l2 ->
  (forall x y, In x l1 -> In y l2 -> less y x = false) ->
  sortedBy less (l1 ++ l2).
Proof.
  unfold sortedBy. intros H1 H2 H.
  induction H1 as [|x l1 Hl IH Hx]; cbn [app]; [exact H2|].
  constructor.
  - apply IH. intros u v Hu Hv. apply H; [right; exact Hu|exact Hv].
  - apply Forall_app. split; [exact Hx|].
    apply Forall_forall. intros y Hy. apply H; [left; reflexivity|exact Hy].
Qed.

Lemma sorted_equal (l : list A) :
  (forall x y, In x l -> In y l -> less y x = false) -> sortedBy less l.
Proof.
  unfold sortedBy. induction l as [|x l IH]; intros H; constructor.
  - apply IH. intros u v Hu Hv. apply H; right; assumption.
  - apply Forall_forall. intros y Hy. apply H; [left; reflexivity|right; exact Hy].
Qed.

(** *** The scans *)

Lemma scanUp_spec up : forall fuel i j,
  S j - i <= fuel -> i <= S j ->
  i <= scanUp fuel up i j <= S j
  /\ (forall k, i <= k < scanUp fuel up i j -> up k = true)
  /\ (scanUp fuel up i j <= j -> up (scanUp fuel up i j) = false).
Proof.
  induction fuel as [|fuel IH]; intros i j Hf Hi; cbn [scanUp].
  - repeat split; try lia.
  - destruct (Nat.leb_spec i j) as [Hij|Hij]; cbn [andb].
    + destruct (up i) eqn:U.
      * destruct (IH (i + 1) j ltac:(lia) ltac:(lia)) as (B & H1 & H2).
        split; [lia|]. split; [|exact H2].
        intros k Hk. destruct (Nat.eq_dec k i) as [->|]; [exact U|].
        apply H1. lia.
      * repeat split; try lia. intros _. exact U.
    + repeat split; try lia.
Qed.

Lemma scanDown_spec down : forall fuel i j,
  S j - i <= fuel -> i <= S j -> 1 <= i ->
  i <= S (scanDown fuel down i j) /\ scanDown fuel down i j <= j
  /\ (forall k, scanDown fuel down i j < k <= j -> down k = true)
  /\ (i <= scanDown fuel down i j -> down (scanDown fuel down i j) = false).
Proof.
  induction fuel as [|fuel IH]; intros i j Hf Hi H1; cbn [scanDown].
  - repeat split; try lia.
  - destruct (Nat.leb_spec i j) as [Hij|Hij]; cbn [andb].
    + destruct (down j) eqn:U.
      * destruct (IH i (j - 1) ltac:(lia) ltac:(lia) H1) as (B & B' & H2 & H3).
        split; [lia|]. split; [lia|]. split; [|exact H3].
        intros k Hk. destruct (Nat.eq_dec k j) as [->|]; [exact U|].
        apply H2. lia.
      * repeat split; try lia. intros _. exact U.
    + repeat split; try lia.
Qed.

(** *** The partitions *)

Section Partition.
Variables a b : nat.
Variable p : A.
Variable q : A -> bool.
Variables up down : list A -> nat -> bool.
Hypothesis up_q : forall data k x,
  nth_error data a = Some p -> nth_error data k = Some x -> up data k = q x.
Hypothesis down_q : forall data k x,
  nth_error data a = Some p -> nth_error data k = Some x ->
  down data k = negb (q x).

(** One round of the two scans. *)
Lemma scans_spec data i j f1 f2 :
  nth_error data a = Some p -> a < i -> j < b -> b <= length data ->
  i <= S j -> S j - i <= f1 ->
  S j - scanUp f1 (up data) i j <= f2 ->
  allIn (S a) i data (fun x => q x = true) ->
  allIn (S j) b data (fun x => q x = false) ->
  let i1 := scanUp f1 (up data) i j in
  let j1 := scanDown f2 (down data) i1 j in
  i <= i1 /\ j1 <= j /\ i1 <= S j1
  /\ allIn (S a) i1 data (fun x => q x = true)
  /\ allIn (S j1) b data (fun x => q x = false)
  /\ (i1 <= j1 ->
      i1 < j1
      /\ within (S a) b data (Swap data i1 j1)
      /\ allIn (S a) (i1 + 1) (Swap data i1 j1) (fun x => q x = true)
      /\ allIn j1 b (Swap data i1 j1) (fun x => q x = false)).
Proof.
  intros Hp Hai Hjb Hb Hij Hf1 Hf2 Hlow Hhigh i1 j1.
  destruct (@scanUp_spec (up data) f1 i j Hf1 Hij) as (Bi & Ui & Si).
  fold i1 in Bi, Ui, Si, Hf2.
  assert (Hi1 : i1 <= S j) by lia. assert (H1i : 1 <= i1) by lia.
  destruct (@scanDown_spec (down data) f2 i1 j Hf2 Hi1 H1i)
    as (Bj & Bj' & Uj & Sj).
  fold j1 in Bj, Bj', Uj, Sj.
  assert (Lo : allIn (S a) i1 data (fun x => q x = true)).
  { intros k x Hk E. destruct (Nat.lt_ge_cases k i) as [Hki|Hki].
    - apply (Hlow k x); [lia|exact E].
    - rewrite <- (@up_q data k x Hp E). apply Ui. lia. }
  assert (Hi : allIn (S j1) b data (fun x => q x = false)).
  { intros k x Hk E. destruct (Nat.lt_ge_cases j k) as [Hjk|Hjk].
    - apply (Hhigh k x); [lia|exact E].
    - apply negb_true_iff. rewrite <- (@down_q data k x Hp E). apply Uj. lia. }
  split; [lia|]. split; [exact Bj'|]. split; [exact Bj|].
  split; [exact Lo|]. split; [exact Hi|].
  intros Hle.
  destruct (@in_range data i1 ltac:(lia)) as [xi Ei].
  destruct (@in_range data j1 ltac:(lia)) as [xj Ej].
  assert (Qi : q xi = false).
  { rewrite <- (@up_q data i1 xi Hp Ei). apply Si. lia. }
  assert (Qj : q xj = true).
  { apply negb_false_iff. rewrite <- (@down_q data j1 xj Hp Ej). apply Sj, Hle. }
  assert (Hne : i1 <> j1) by (intros E; rewrite E in Ei; congruence).
  split; [lia|]. split; [apply within_Swap; lia|]. split.
  - intros k x Hk E. rewrite nth_error_Swap in E by lia.
    destruct (Nat.eqb_spec k j1); [lia|].
    destruct (Nat.eqb_spec k i1) as [->|].
    + rewrite Ej in E. injection E as <-. exact Qj.
    + apply (Lo k x); [lia|exact E].
  - intros k x Hk E. rewrite nth_error_Swap in E by lia.
    destruct (Nat.eqb_spec k j1) as [->|].
    + rewrite Ei in E. injection E as <-. exact Qi.
    + destruct (Nat.eqb_spec k i1); [lia|]. apply (Hi k x); [lia|exact E].
Qed.

Lemma partitionLoop_spec : forall fuel data i j data' i' j',
  nth_error data a = Some p -> a < i -> j < b -> b <= length data ->
  i <= S j -> S j - i <= fuel ->
  allIn (S a) i data (fun x => q x = true) ->
  allIn (S j) b data (fun x => q x = false) ->
  partitionLoop fuel up down data i j = (data', i', j') ->
  within (S a) b data data' /\ i' = S j' /\ a <= j' < b
  /\ allIn (S a) i' data' (fun x => q x = true)
  /\ allIn i' b data' (fun x => q x = false).
Proof.
  induction fuel as [|fuel IH];
    intros data i j data' i' j' Hp Hai Hjb Hb Hij Hf Hlow Hhigh E;
    cbn [partitionLoop] in E.
  - injection E as <- <- <-. assert (i = S j) by lia. subst i.
    split; [apply within_refl|]. split; [reflexivity|]. split; [lia|].
    split; assumption.
  - destruct (@scans_spec data i j (S j - i) (S j - scanUp (S j - i) (up data) i j)
                Hp Hai Hjb Hb Hij (le_n _) (le_n _) Hlow Hhigh)
      as (Bi & Bj & Bij & Lo & Hi & Hswap).
    set (i1 := scanUp (S j - i) (up data) i j) in *.
    set (j1 := scanDown (S j - i1) (down data) i1 j) in *.
    destruct (Nat.ltb_spec j1 i1) as [Hlt|Hge].
    + injection E as <- <- <-. assert (Ei : i1 = S j1) by lia.
      split; [apply within_refl|]. split; [exact Ei|]. split; [lia|].
      split; [exact Lo|]. rewrite Ei. exact Hi.
    + destruct (Hswap Hge) as (Hlt & W & Lo2 & Hi2).
      assert (Hp2 : nth_error (Swap data i1 j1) a = Some p).
      { destruct W as [_ O]. rewrite O by lia. exact Hp. }
      assert (Hb2 : b <= length (Swap data i1 j1))
        by (rewrite Swap_length; exact Hb).
      replace (S (j1 - 1)) with j1 in IH by lia.
      destruct (IH (Swap data i1 j1) (i1 + 1) (j1 - 1) data' i' j' Hp2
                  ltac:(lia) ltac:(lia) Hb2 ltac:(lia) ltac:(lia) Lo2
                  ltac:(replace (S (j1 - 1)) with j1 by lia; exact Hi2) E)
        as (W' & Ei' & Bj' & Lo' & Hi').
      split; [exact (within_trans W W')|]. repeat split; try assumption; lia.
Qed.

End Partition.

Lemma Swap_pivot (data : list A) a pivot p :
  nth_error data pivot = Some p -> a < length data ->
  nth_error (Swap data a pivot) a = Some p.
Proof.
  intros Hp Ha.
  assert (Hl : pivot < length data) by (apply nth_error_Some; congruence).
  rewrite nth_error_Swap by assumption.
  destruct (Nat.eqb_spec a pivot) as [->|_]; [exact Hp|].
  rewrite Nat.eqb_refl. exact Hp.
Qed.

(** The last step of [partition_func]: the pivot goes to its place. *)
Lemma pivot_home data a b j p :
  nth_error data a = Some p -> a <= j < b -> b <= length data ->
  allIn (S a) (S j) data (fun x => less x p = true) ->
  allIn (S j) b data (fun x => less x p = false) ->
  within a b data (Swap data j a)
  /\ nth_error (Swap data j a) j = Some p
  /\ allIn a j (Swap data j a) (fun x => less x p = true)
  /\ allIn (S j) b (Swap data j a) (fun x => less x p = false).
Proof.
  intros Hp Hj Hb Lo Hi.
  split; [apply within_Swap; lia|]. split.
  { rewrite nth_error_Swap by lia.
    destruct (Nat.eqb_spec j a) as [->|_]; [exact Hp|].
    rewrite Nat.eqb_refl. exact Hp. }
  split.
  - intros k x Hk E. rewrite nth_error_Swap in E by lia.
    destruct (Nat.eqb_spec k a) as [->|].
    + apply (Lo j x); [lia|exact E].
    + destruct (Nat.eqb_spec k j); [lia|]. apply (Lo k x); [lia|exact E].
  - intros k x Hk E. rewrite nth_error_Swap in E by lia.
    destruct (Nat.eqb_spec k a); [lia|]. destruct (Nat.eqb_spec k j); [lia|].
    apply (Hi k x); [lia|exact E].
Qed.

(** [partition_func]: the elements less than the pivot, the pivot, the
    elements not less than it. *)
Lemma partition_func_spec data a b pivot p data' mid ap :
  nth_error data pivot = Some p -> a <= pivot < b -> b <= length data ->
  partition_func less data a b pivot = (data', mid, ap) ->
  within a b data data' /\ a <= mid < b /\ nth_error data' mid = Some p
  /\ allIn a mid data' (fun x => less x p = true)
  /\ allIn (S mid) b data' (fun x => less x p = false).
Proof.
  intros Hp Hpiv Hb E. unfold partition_func in E. cbv zeta in E.
  set (data1 := Swap data a pivot) in *.
  assert (W1 : within a b data data1) by (apply within_Swap; lia).
  assert (Hp1 : nth_error data1 a = Some p) by (apply Swap_pivot; [exact Hp|lia]).
  assert (Hb1 : b <= length data1) by (unfold data1; rewrite Swap_length; exact Hb).
  set (up := fun (data : list A) i => Less less data i a) in *.
  set (down := fun (data : list A) j => negb (Less less data j a)) in *.
  set (q := fun x => less x p).
  assert (up_q : forall data k x, nth_error data a = Some p ->
                   nth_error data k = Some x -> up data k = q x).
  { intros d k x Ha Hk. unfold up, q. apply Less_val; assumption. }
  assert (down_q : forall data k x, nth_error data a = Some p ->
                   nth_error data k = Some x -> down data k = negb (q x)).
  { intros d k x Ha Hk. unfold down, q. f_equal. apply Less_val; assumption. }
  assert (Lo0 : allIn (S a) (a + 1) data1 (fun x => q x = true))
    by (intros k x Hk; lia).
  assert (Hi0 : allIn (S (b - 1)) b data1 (fun x => q x = false))
    by (intros k x Hk; lia).
  assert (Hf1 : S (b - 1) - (a + 1) <= b - a) by lia.
  assert (Hij : a + 1 <= S (b - 1)) by lia.
  assert (Hf2 : S (b - 1) - scanUp (b - a) (up data1) (a + 1) (b - 1) <= b - a).
  { destruct (@scanUp_spec (up data1) (b - a) (a + 1) (b - 1) Hf1 Hij) as (B & _).
    lia. }
  destruct (@scans_spec a b p q up down up_q down_q data1 (a + 1) (b - 1)
              (b - a) (b - a) Hp1 ltac:(lia) ltac:(lia) Hb1 Hij Hf1 Hf2 Lo0 Hi0)
    as (Bi & Bj & Bij & Lo & Hi & Hswap).
  change (fun i : nat => Less less data1 i a) with (up data1) in E.
  change (fun j : nat => negb (Less less data1 j a)) with (down data1) in E.
  set (i1 := scanUp (b - a) (up data1) (a + 1) (b - 1)) in *.
  set (j1 := scanDown (b - a) (down data1) i1 (b - 1)) in *.
  destruct (Nat.ltb_spec j1 i1) as [Hlt|Hge].
  - injection E as <- <- <-. assert (Ei : i1 = S j1) by lia.
    rewrite Ei in Lo.
    destruct (@pivot_home data1 a b j1 p Hp1 ltac:(lia) Hb1 Lo Hi)
      as (W2 & Hm & Lo2 & Hi2).
    split; [exact (within_trans W1 W2)|]. split; [lia|].
    repeat split; assumption.
  - destruct (Hswap Hge) as (Hlt & W2 & Lo2 & Hi2).
    destruct (partitionLoop (b - a) up down (Swap data1 i1 j1) (i1 + 1) (j1 - 1))
      as [[d2 i2] j2] eqn:EL.
    injection E as <- <- <-.
    assert (Hp2 : nth_error (Swap data1 i1 j1) a = Some p).
    { destruct W2 as [_ O]. rewrite O by lia. exact Hp1. }
    assert (Hb2 : b <= length (Swap data1 i1 j1))
      by (rewrite Swap_length; exact Hb1).
    assert (Hi2' : allIn (S (j1 - 1)) b (Swap data1 i1 j1) (fun x => q x = false))
      by (replace (S (j1 - 1)) with j1 by lia; exact Hi2).
    destruct (@partitionLoop_spec a b p q up down up_q down_q (b - a)
                (Swap data1 i1 j1) (i1 + 1) (j1 - 1) d2 i2 j2 Hp2
                ltac:(lia) ltac:(lia) Hb2 ltac:(lia) ltac:(lia) Lo2 Hi2' EL)
      as (W3 & Ei & Bj3 & Lo3 & Hi3).
    assert (Hp3 : nth_error d2 a = Some p).
    { destruct W3 as [_ O]. rewrite O by lia. exact Hp2. }
    assert (Hb3 : b <= length d2).
    { rewrite (within_length W3). exact Hb2. }
    rewrite Ei in Lo3, Hi3.
    destruct (@pivot_home d2 a b j2 p Hp3 Bj3 Hb3 Lo3 Hi3)
      as (W4 & Hm & Lo4 & Hi4).
    split.
    { apply (within_trans W1). apply (within_trans (d2 := Swap data1 i1 j1)).
      - exact (within_weaken (Nat.le_succ_diag_r a) (le_n b) W2).
      - apply (within_trans (d2 := d2)); [|exact W4].
        exact (within_weaken (Nat.le_succ_diag_r a) (le_n b) W3). }
    split; [exact Bj3|]. repeat split; assumption.
Qed.

(** [partitionEqual_func]: the elements equal to the pivot, then the
    elements greater than it. *)
Lemma partitionEqual_func_parts data a b pivot p data' mid :
  nth_error data pivot = Some p -> a <= pivot < b -> b <= length data ->
  partitionEqual_func less data a b pivot = (data', mid) ->
  within a b data data' /\ a < mid <= b /\ nth_error data' a = Some p
  /\ allIn (S a) mid data' (fun x => less p x = false)
  /\ allIn mid b data' (fun x => less p x = true).
Proof.
  intros Hp Hpiv Hb E. unfold partitionEqual_func in E. cbv zeta in E.
  set (data1 := Swap data a pivot) in *.
  assert (W1 : within a b data data1) by (apply within_Swap; lia).
  assert (Hp1 : nth_error data1 a = Some p) by (apply Swap_pivot; [exact Hp|lia]).
  assert (Hb1 : b <= length data1) by (unfold data1; rewrite Swap_length; exact Hb).
  set (up := fun (data : list A) i => negb (Less less data a i)) in *.
  set (down := fun (data : list A) j => Less less data a j) in *.
  set (q := fun x => negb (less p x)).
  assert (up_q : forall data k x, nth_error data a = Some p ->
                   nth_error data k = Some x -> up data k = q x).
  { intros d k x Ha Hk. unfold up, q. f_equal. apply Less_val; assumption. }
  assert (down_q : forall data k x, nth_error data a = Some p ->
                   nth_error data k = Some x -> down data k = negb (q x)).
  { intros d k x Ha Hk. unfold down, q. rewrite negb_involutive.
    apply Less_val; assumption. }
  assert (Lo0 : allIn (S a) (a + 1) data1 (fun x => q x = true))
    by (intros k x Hk; lia).
  assert (Hi0 : allIn (S (b - 1)) b data1 (fun x => q x = false))
    by (intros k x Hk; lia).
  destruct (partitionLoop (b - a) up down data1 (a + 1) (b - 1))
    as [[d2 i2] j2] eqn:EL.
  injection E as <- <-.
  destruct (@partitionLoop_spec a b p q up down up_q down_q (b - a)
              data1 (a + 1) (b - 1) d2 i2 j2 Hp1
              ltac:(lia) ltac:(lia) Hb1 ltac:(lia) ltac:(lia) Lo0 Hi0 EL)
    as (W2 & Ei & Bj & Lo & Hi).
  assert (Hp2 : nth_error d2 a = Some p).
  { destruct W2 as [_ O]. rewrite O by lia. exact Hp1. }
  split.
  { apply (within_trans W1).
    exact (within_weaken (Nat.le_succ_diag_r a) (le_n b) W2). }
  split; [lia|]. split; [exact Hp2|]. split.
  - intros k x Hk Ek. apply negb_true_iff. apply (Lo k x); [lia|exact Ek].
  - intros k x Hk Ek. apply negb_false_iff. apply (Hi k x); [lia|exact Ek].
Qed.

Lemma partitionEqual_func_spec data a b pivot p data' mid :
  nth_error data pivot = Some p -> a <= pivot < b -> b <= length data ->
  partitionEqual_func less data a b pivot = (data', mid) ->
  within a b data data' /\ a < mid <= b
  /\ allIn a mid data' (fun x => less p x = false)
  /\ allIn mid b data' (fun x => less p x = true).
Proof.
  intros Hp Hpiv Hb E.
  destruct (@partitionEqual_func_parts data a b pivot p data' mid Hp Hpiv Hb E)
    as (W & Hm & Hp' & Lo & Hi).
  split; [exact W|]. split; [exact Hm|]. split; [|exact Hi].
  intros k x Hk Ek. destruct (Nat.eq_dec k a) as [->|Hne].
  - rewrite Hp' in Ek. injection Ek as <-. apply (less_irrefl order).
  - apply (Lo k x); [lia|exact Ek].
Qed.

(** *** The pivot *)

Lemma median_func_index data x y z swaps :
  fst (median_func less data x y z swaps) = x
  \/ fst (median_func less data x y z swaps) = y
  \/ fst (median_func less data x y z swaps) = z.
Proof.
  unfold median_func, order2_func.
  destruct (Less less data y x); destruct (Less less data z _);
    destruct (Less less data _ _); cbn [fst]; tauto.
Qed.

Lemma choosePivot_func_index data a b :
  0 < b - a -> a <= fst (choosePivot_func less data a b) < b.
Proof.
  intros Hl. unfold choosePivot_func. cbv zeta.
  set (l := b - a) in *. set (d := l / 4).
  assert (Hd : 4 * d <= l < 4 * d + 4).
  { unfold d. pose proof (Nat.div_mod_eq l 4) as E.
    pose proof (Nat.mod_upper_bound l 4 ltac:(lia)). lia. }
  clearbody d.
  assert (Hpiv : forall jk : nat * nat,
             a <= fst jk < b ->
             a <= fst (let '(j, swaps) := jk in
                       if swaps =? 0 then (j, increasingHint)
                       else if swaps =? 4 * 3 then (j, decreasingHint)
                       else (j, unknownHint)) < b).
  { intros [j swaps] H. cbn [fst] in *.
    destruct (swaps =? 0); [exact H|]. destruct (swaps =? 4 * 3); exact H. }
  apply Hpiv.
  destruct (Nat.leb_spec 8 l) as [H8|H8]; [|cbn [fst]; lia].
  destruct (Nat.leb_spec 50 l) as [H50|H50].
  - unfold medianAdjacent_func.
    pose proof (median_func_index data (a + d * 1 - 1) (a + d * 1) (a + d * 1 + 1) 0)
      as Mi.
    destruct (median_func less data (a + d * 1 - 1) (a + d * 1) (a + d * 1 + 1) 0)
      as [i s1]. cbn [fst] in Mi.
    pose proof (median_func_index data (a + d * 2 - 1) (a + d * 2) (a + d * 2 + 1) s1)
      as Mj.
    destruct (median_func less data (a + d * 2 - 1) (a + d * 2) (a + d * 2 + 1) s1)
      as [j s2]. cbn [fst] in Mj.
    pose proof (median_func_index data (a + d * 3 - 1) (a + d * 3) (a + d * 3 + 1) s2)
      as Mk.
    destruct (median_func less data (a + d * 3 - 1) (a + d * 3) (a + d * 3 + 1) s2)
      as [k s3]. cbn [fst] in Mk.
    pose proof (median_func_index data i j k s3) as M.
    destruct (median_func less data i j k s3) as [m s4]. cbn [fst] in *. lia.
  - pose proof (median_func_index data (a + d * 1) (a + d * 2) (a + d * 3) 0) as M.
    destruct (median_func less data (a + d * 1) (a + d * 2) (a + d * 3) 0)
      as [m s4]. cbn [fst] in *. lia.
Qed.

Lemma reverseLoop_within a b : forall fuel data i j,
  a <= i -> j < b -> within a b data (reverseLoop fuel data i j).
Proof.
  induction fuel as [|fuel IH]; intros data i j Hi Hj; cbn [reverseLoop];
    [apply within_refl|].
  destruct (Nat.ltb_spec i j); [|apply within_refl].
  apply (within_trans (d2 := Swap data i j)); [apply within_Swap; lia|].
  apply IH; lia.
Qed.

Lemma reverseRange_func_within data a b :
  a < b -> within a b data (reverseRange_func data a b).
Proof. intros H. apply reverseLoop_within; lia. Qed.

(** *** The sort of a part that is nearly sorted *)

(** What [pdqsort_func] knows of the element before the part it sorts: no
    element of the part is less than it. *)
Definition boundary (a b : nat) (data : list A) : Prop :=
  forall prev, 0 < a -> nth_error data (a - 1) = Some prev ->
               allIn a b data (fun x => less x prev = false).

Lemma boundary_within a b d1 d2 :
  a <= b -> within a b d1 d2 -> boundary a b d1 -> boundary a b d2.
Proof.
  intros Hab W H prev Ha E.
  assert (E1 : nth_error d1 (a - 1) = Some prev).
  { destruct W as [_ O]. rewrite <- O by lia. exact E. }
  exact (allIn_within Hab W (H prev Ha E1)).
Qed.

Lemma Less_outside a b d1 d2 k l :
  within a b d1 d2 -> k < a \/ b <= k -> l < a \/ b <= l ->
  Less less d2 k l = Less less d1 k l.
Proof.
  intros [_ O] Hk Hl. unfold Less. rewrite (O k Hk), (O l Hl). reflexivity.
Qed.

Lemma skipOrdered_spec data b : forall fuel i,
  b - i <= fuel -> i <= b ->
  i <= skipOrdered less fuel data i b <= b
  /\ (forall k, i <= k < skipOrdered less fuel data i b ->
                Less less data k (k - 1) = false)
  /\ (skipOrdered less fuel data i b < b ->
      Less less data (skipOrdered less fuel data i b)
        (skipOrdered less fuel data i b - 1) = true).
Proof.
  induction fuel as [|fuel IH]; intros i Hf Hi; cbn [skipOrdered].
  - repeat split; try lia.
  - destruct (Nat.ltb_spec i b) as [Hib|Hib]; cbn [andb].
    + destruct (Less less data i (i - 1)) eqn:L; cbn [negb].
      * repeat split; try lia. intros _. exact L.
      * destruct (IH (i + 1) ltac:(lia) ltac:(lia)) as (B & H1 & H2).
        split; [lia|]. split; [|exact H2].
        intros k Hk. destruct (Nat.eq_dec k i) as [->|]; [exact L|].
        apply H1. lia.
    + repeat split; try lia.
Qed.

(** The place of an index after [data.Swap(i, j)]. *)
Definition swapped (i j k : nat) : nat :=
  if k =? j then i else if k =? i then j else k.

Lemma Less_Swap data i j k l :
  i < length data -> j < length data ->
  Less less (Swap data i j) k l
  = Less less data (swapped i j k) (swapped i j l).
Proof.
  intros Hi Hj. unfold Less, swapped. rewrite !nth_error_Swap by assumption.
  destruct (k =? j), (k =? i), (l =? j), (l =? i); reflexivity.
Qed.

Lemma shiftLeft_spec a b hi : forall fuel data j,
  j <= fuel -> a <= j < hi -> hi <= b -> b <= length data ->
  boundary a b data ->
  (forall k, a < k < hi -> k <> j -> Less less data k (k - 1) = false) ->
  (a < j -> j + 1 < hi -> Less less data (j + 1) (j - 1) = false) ->
  within a hi data (shiftLeft less fuel data j)
  /\ adjacent a hi (shiftLeft less fuel data j).
Proof.
  induction fuel as [|fuel IH]; intros data j Hf Hj Hhi Hb Hbound Hadj Hgap;
    cbn [shiftLeft].
  - split; [apply within_refl|]. intros k Hk. apply Hadj; lia.
  - destruct (Nat.leb_spec 1 j) as [H1|H1];
      [|split; [apply within_refl|]; intros k Hk; apply Hadj; lia].
    destruct (Less less data j (j - 1)) eqn:L; cbn [negb].
    2:{ split; [apply within_refl|]. intros k Hk.
        destruct (Nat.eq_dec k j) as [->|Hne]; [exact L|]. apply Hadj; lia. }
    destruct (@in_range data j ltac:(lia)) as [x Ex].
    destruct (@in_range data (j - 1) ltac:(lia)) as [y Ey].
    rewrite (Less_val _ _ _ Ex Ey) in L.
    assert (Haj : a < j).
    { destruct (Nat.eq_dec a j) as [->|]; [|lia]. exfalso.
      rewrite (Hbound y ltac:(lia) Ey j x ltac:(lia) Ex) in L. discriminate. }
    assert (W : within a hi data (Swap data j (j - 1)))
      by (apply within_Swap; lia).
    assert (Hb2 : b <= length (Swap data j (j - 1)))
      by (rewrite Swap_length; exact Hb).
    destruct (IH (Swap data j (j - 1)) (j - 1) ltac:(lia) ltac:(lia) Hhi Hb2)
      as [W' Hadj'].
    + apply (boundary_within (d1 := data)); try lia; [|exact Hbound].
      exact (within_weaken (le_n a) Hhi W).
    + intros k Hk Hne. rewrite Less_Swap by lia. unfold swapped.
      destruct (Nat.eqb_spec k (j - 1)); [lia|].
      destruct (Nat.eqb_spec k j) as [->|Hkj].
      * rewrite Nat.eqb_refl. rewrite (Less_val _ _ _ Ey Ex).
        apply (less_asym order), L.
      * destruct (Nat.eqb_spec (k - 1) (j - 1)) as [Ek|Ek].
        -- assert (k = j) by lia. contradiction.
        -- destruct (Nat.eqb_spec (k - 1) j) as [Ek'|Ek'].
           ++ replace k with (j + 1) by lia. apply Hgap; lia.
           ++ apply Hadj; lia.
    + intros Ha' Hj'. rewrite Less_Swap by lia. unfold swapped.
      replace (j - 1 + 1) with j by lia.
      destruct (Nat.eqb_spec j (j - 1)); [lia|]. rewrite Nat.eqb_refl.
      destruct (Nat.eqb_spec (j - 1 - 1) (j - 1)); [lia|].
      destruct (Nat.eqb_spec (j - 1 - 1) j); [lia|].
      apply Hadj; lia.
    + split; [exact (within_trans W W')|exact Hadj'].
Qed.

Lemma shiftRight_within lo b : forall fuel data j,
  lo < j -> within lo b data (shiftRight less fuel data j b).
Proof.
  induction fuel as [|fuel IH]; intros data j Hj; cbn [shiftRight];
    [apply within_refl|].
  destruct (Nat.ltb_spec j b); [|apply within_refl].
  destruct (Less less data j (j - 1)); cbn [negb]; [|apply within_refl].
  apply (within_trans (d2 := Swap data j (j - 1))); [apply within_Swap; lia|].
  apply IH. lia.
Qed.

Lemma adjacent_outside a i lo hi d1 d2 :
  within lo hi d1 d2 -> i <= lo -> adjacent a i d1 -> adjacent a i d2.
Proof.
  intros W Hi H k Hk. rewrite (Less_outside (k := k) (l := k - 1) W) by lia.
  apply H, Hk.
Qed.

Lemma partialInsertionLoop_spec a b : forall steps data i data' done,
  a < i <= b -> b <= length data -> boundary a b data -> adjacent a i data ->
  partialInsertionLoop less steps data a b i = (data', done) ->
  within a b data data' /\ (done = true -> adjacent a b data').
Proof.
  induction steps as [|steps IH]; intros data i data' done Hi Hb Hbound Hadj E;
    cbn [partialInsertionLoop] in E.
  { injection E as <- <-. split; [apply within_refl|discriminate]. }
  cbv zeta in E.
  destruct (@skipOrdered_spec data b (b - i) i (le_n _) ltac:(lia))
    as (Bi & Hsk & Hstop).
  set (i1 := skipOrdered less (b - i) data i b) in *.
  assert (Hadj1 : adjacent a i1 data).
  { intros k Hk. destruct (Nat.lt_ge_cases k i); [apply Hadj; lia|apply Hsk; lia]. }
  destruct (Nat.eqb_spec i1 b) as [Eb|Hne].
  { injection E as <- <-. split; [apply within_refl|]. intros _.
    rewrite <- Eb. exact Hadj1. }
  destruct (b - a <? 50).
  { injection E as <- <-. split; [apply within_refl|discriminate]. }
  set (d1 := Swap data i1 (i1 - 1)) in *.
  assert (W1 : within a b data d1) by (apply within_Swap; lia).
  assert (Hb1 : b <= length d1) by (unfold d1; rewrite Swap_length; exact Hb).
  assert (Hbound1 : boundary a b d1)
    by (apply (boundary_within (d1 := data)); try lia; assumption).
  set (d2 := if 2 <=? i1 - a then shiftLeft less (i1 - 1) d1 (i1 - 1) else d1) in *.
  assert (H2 : within a i1 d1 d2 /\ adjacent a i1 d2).
  { unfold d2. destruct (Nat.leb_spec 2 (i1 - a)) as [H2|H2].
    - apply (@shiftLeft_spec a b i1 (i1 - 1) d1 (i1 - 1) (le_n _));
        try lia; try assumption.
      intros k Hk Hne'. unfold d1. rewrite Less_Swap by lia. unfold swapped.
      destruct (Nat.eqb_spec k (i1 - 1)); [lia|].
      destruct (Nat.eqb_spec k i1); [lia|].
      destruct (Nat.eqb_spec (k - 1) (i1 - 1)); [lia|].
      destruct (Nat.eqb_spec (k - 1) i1); [lia|]. apply Hadj1. lia.
    - split; [apply within_refl|]. intros k Hk. lia. }
  destruct H2 as [W2 Hadj2].
  set (d3 := if 2 <=? b - i1 then shiftRight less (b - (i1 + 1)) d2 (i1 + 1) b
             else d2) in *.
  assert (W3 : within i1 b d2 d3).
  { unfold d3. destruct (2 <=? b - i1); [|apply within_refl].
    apply shiftRight_within. lia. }
  assert (W13 : within a b d1 d3).
  { apply (within_trans (d2 := d2)).
    - exact (within_weaken (le_n a) (proj2 Bi) W2).
    - apply (within_weaken (a := i1) (b := b)); [lia|lia|exact W3]. }
  assert (W : within a b data d3) by exact (within_trans W1 W13).
  assert (Hi1 : a < i1 <= b) by lia.
  assert (Hb3 : b <= length d3) by (rewrite (within_length W); exact Hb).
  assert (Hab : a <= b) by lia.
  destruct (IH d3 i1 data' done Hi1 Hb3 (boundary_within Hab W Hbound)
              (adjacent_outside W3 (le_n _) Hadj2) E) as [W' Hdone].
  split; [exact (within_trans W W')|exact Hdone].
Qed.

(** *** The sort *)

Lemma insertionSort_func_spec data a b :
  a <= b <= length data ->
  within a b data (insertionSort_func less data a b)
  /\ sortedBy less (slice a b (insertionSort_func less data a b)).
Proof.
  intros Hab. unfold insertionSort_func. fold (slice a b data).
  pose proof (insertionSort_perm less (slice a b data)) as P.
  assert (La : length (firstn a data) = a) by (rewrite length_firstn; lia).
  assert (Ls : length (insertionSort less (slice a b data)) = b - a).
  { rewrite <- (Permutation_length P). apply slice_length, Hab. }
  split; [split|].
  - rewrite (slice_split data (proj1 Hab)) at 1.
    apply Permutation_app_head, Permutation_app_tail, P.
  - intros k [Hk|Hk].
    + rewrite nth_error_app1 by lia. rewrite nth_error_firstn.
      destruct (Nat.ltb_spec k a); [reflexivity|lia].
    + rewrite nth_error_app2 by lia. rewrite nth_error_app2 by lia.
      rewrite nth_error_skipn, La, Ls. f_equal. lia.
  - unfold slice at 1. rewrite skipn_app, La, Nat.sub_diag.
    rewrite skipn_all2 by lia. cbn [skipn app].
    rewrite firstn_app, Ls, Nat.sub_diag. cbn [firstn].
    rewrite app_nil_r, firstn_all2 by lia.
    apply (insertionSort_sorted order).
Qed.

Lemma boundary_sub a b mid data :
  mid <= b -> boundary a b data -> boundary a mid data.
Proof.
  intros Hm H prev Ha E k x Hk Ex. apply (H prev Ha E k x); [lia|exact Ex].
Qed.

(** The part less than the pivot, the pivot, and the part not less than it,
    each sorted, are sorted together. *)
Lemma sorted_join a mid b data p :
  a <= mid < b -> nth_error data mid = Some p ->
  sortedBy less (slice a mid data) -> sortedBy less (slice (S mid) b data) ->
  allIn a mid data (fun x => less x p = true) ->
  allIn (S mid) b data (fun x => less x p = false) ->
  sortedBy less (slice a b data).
Proof.
  intros Hm Hp Sl Sr Lo Hi.
  rewrite (@slice_app a mid b data) by lia.
  rewrite (@slice_app mid (S mid) b data) by lia.
  rewrite (@slice_one mid data p Hp).
  apply allIn_slice in Lo, Hi. rewrite Forall_forall in Lo, Hi.
  apply sorted_app; [exact Sl| |].
  - change ([p] ++ slice (S mid) b data) with (p :: slice (S mid) b data).
    constructor; [exact Sr|]. apply Forall_forall. exact Hi.
  - intros x y Hx [<-|Hy].
    + apply (less_asym order), Lo, Hx.
    + destruct (less y x) eqn:L; [|reflexivity].
      destruct order as (_ & Htrans & _).
      rewrite <- (Hi y Hy). symmetry. exact (Htrans _ _ _ L (Lo x Hx)).
Qed.

(** The part equal to the pivot and the sorted part greater than it are
    sorted together. *)
Lemma sorted_equal_join a mid b data p prev :
  a <= mid <= b -> less prev p = false ->
  allIn a mid data (fun x => less x prev = false) ->
  allIn a mid data (fun x => less p x = false) ->
  allIn mid b data (fun x => less p x = true) ->
  sortedBy less (slice mid b data) ->
  sortedBy less (slice a b data).
Proof.
  intros Hm Hprev Lb Lo Hi Sr. rewrite (@slice_app a mid b data) by lia.
  apply allIn_slice in Lb, Lo, Hi. rewrite Forall_forall in Lb, Lo, Hi.
  apply sorted_app; [|exact Sr|].
  - apply sorted_equal. intros x y Hx Hy.
    apply (@less_negtrans _ _ order y p x); [|exact (Lo x Hx)].
    exact (@less_negtrans _ _ order y prev p (Lb y Hy) Hprev).
  - intros x y Hx Hy. destruct (less y x) eqn:L; [|reflexivity].
    destruct order as (_ & Htrans & _).
    rewrite <- (Lo x Hx). symmetry. exact (Htrans _ _ _ (Hi y Hy) L).
Qed.

Lemma pdqsortLoop_spec : forall fuel data a b limit wasBalanced wasPartitioned data',
  a <= b <= length data -> boundary a b data ->
  pdqsortLoop less fuel data a b limit wasBalanced wasPartitioned = Some data' ->
  within a b data data' /\ sortedBy less (slice a b data').
Proof.
  induction fuel as [|fuel IH];
    intros data a b limit wasBalanced wasPartitioned data' Hab Hbound E;
    cbn [pdqsortLoop] in E; [discriminate|].
  cbv zeta in E.
  destruct (Nat.leb_spec (b - a) 12) as [Hlen|Hlen].
  { injection E as <-. apply insertionSort_func_spec, Hab. }
  destruct (limit =? 0); [discriminate|].
  destruct wasBalanced; cbn [negb] in E; [|discriminate].
  pose proof (@choosePivot_func_index data a b ltac:(lia)) as Hpiv.
  destruct (choosePivot_func less data a b) as [pivot hint]. cbn [fst] in Hpiv.
  (* the slice after [reverseRange_func] *)
  set (T := match hint with
            | decreasingHint =>
              (reverseRange_func data a b, b - 1 - (pivot - a), increasingHint)
            | _ => (data, pivot, hint)
            end) in E.
  assert (HT : within a b data (fst (fst T)) /\ a <= snd (fst T) < b).
  { unfold T. destruct hint; cbn [fst snd];
      (split; [try apply within_refl|lia]).
    apply reverseRange_func_within. lia. }
  destruct T as [[data1 pivot1] hint1]. cbn [fst snd] in HT.
  destruct HT as [W1 Hpiv1].
  assert (Hb1 : b <= length data1) by (rewrite (within_length W1); lia).
  assert (Hbound1 : boundary a b data1)
    by (apply (boundary_within (d1 := data)); try lia; assumption).
  (* the slice after [partialInsertionSort_func] *)
  set (P := match wasPartitioned, hint1 with
            | true, increasingHint => partialInsertionSort_func less data1 a b
            | _, _ => (data1, false)
            end) in E.
  assert (HP : within a b data1 (fst P) /\ (snd P = true -> adjacent a b (fst P))).
  { assert (Hno : within a b data1 (fst (data1, false))
                  /\ (snd (data1, false) = true -> adjacent a b (fst (data1, false))))
      by (split; [apply within_refl|discriminate]).
    unfold P. destruct wasPartitioned; [|exact Hno].
    destruct hint1; try exact Hno.
    unfold partialInsertionSort_func.
    destruct (partialInsertionLoop less 5 data1 a b (a + 1)) as [d done] eqn:EP.
    cbn [fst snd].
    apply (@partialInsertionLoop_spec a b 5 data1 (a + 1) d done); try lia;
      try assumption.
    intros k Hk. lia. }
  destruct P as [data2 done]. cbn [fst snd] in HP. destruct HP as [W2 Hdone].
  assert (W12 : within a b data data2) by exact (within_trans W1 W2).
  assert (Hb2 : b <= length data2) by (rewrite (within_length W2); exact Hb1).
  assert (Hbound2 : boundary a b data2)
    by (apply (boundary_within (d1 := data)); try lia; assumption).
  destruct done.
  { injection E as <-. split; [exact W12|].
    apply adjacent_sorted; [exact Hb2|]. apply Hdone. reflexivity. }
  destruct (@in_range data2 pivot1 ltac:(lia)) as [p Ep].
  destruct ((0 <? a) && negb (Less less data2 (a - 1) pivot1)) eqn:C.
  - (* the pivot is equal to the element before the part *)
    apply andb_true_iff in C. destruct C as [Ha C].
    apply Nat.ltb_lt in Ha. apply negb_true_iff in C.
    destruct (@in_range data2 (a - 1) ltac:(lia)) as [prev Eprev].
    rewrite (Less_val _ _ _ Eprev Ep) in C.
    destruct (partitionEqual_func less data2 a b pivot1) as [data3 mid] eqn:EQ.
    destruct (@partitionEqual_func_spec data2 a b pivot1 p data3 mid Ep Hpiv1 Hb2 EQ)
      as (W3 & Hmid & Lo & Hi).
    assert (Hb3 : b <= length data3) by (rewrite (within_length W3); exact Hb2).
    assert (Hbound3 : boundary a b data3)
      by (apply (boundary_within (d1 := data2)); try lia; assumption).
    assert (Hprev3 : nth_error data3 (a - 1) = Some prev).
    { destruct W3 as [_ O]. rewrite O by lia. exact Eprev. }
    assert (Hbm : boundary mid b data3).
    { intros x _ Ex k y Hk Ey.
      destruct (less y x) eqn:L; [|reflexivity].
      destruct order as (_ & Htrans & _).
      rewrite <- (Lo (mid - 1) x ltac:(lia) Ex). symmetry.
      exact (Htrans _ _ _ (Hi k y Hk Ey) L). }
    destruct (IH data3 mid b limit true wasPartitioned data' ltac:(lia) Hbm E)
      as [W4 S4].
    split.
    { apply (within_trans (d2 := data3)); [exact (within_trans W12 W3)|].
      apply (within_weaken (a := mid) (b := b)); [lia|lia|exact W4]. }
    apply (@sorted_equal_join a mid b data' p prev); try lia; try assumption.
    + apply (allIn_outside W4); [lia|].
      apply (boundary_sub (b := b)); [lia|exact Hbound3|lia|exact Hprev3].
    + apply (allIn_outside W4); [lia|exact Lo].
    + apply (allIn_within (d1 := data3)); [lia|exact W4|exact Hi].
  - (* the partition, and the sort of its two parts *)
    clear C.
    destruct (partition_func less data2 a b pivot1) as [[data3 mid] ap] eqn:EPart.
    destruct (@partition_func_spec data2 a b pivot1 p data3 mid ap Ep Hpiv1 Hb2 EPart)
      as (W3 & Hmid & Hp3 & Lo & Hi).
    assert (W13 : within a b data data3) by exact (within_trans W12 W3).
    assert (Hb3 : b <= length data3) by (rewrite (within_length W3); exact Hb2).
    assert (Hbound3 : boundary a b data3)
      by (apply (boundary_within (d1 := data2)); try lia; assumption).
    rewrite Nat.add_1_r in E.
    destruct (mid - a <? b - mid).
    + destruct (pdqsortLoop less fuel data3 a mid limit true true)
        as [data4|] eqn:EL; [|discriminate].
      assert (Hml : mid <= b) by lia.
      assert (Hrl : a <= mid <= length data3) by lia.
      destruct (IH data3 a mid limit true true data4 Hrl
                  (boundary_sub Hml Hbound3) EL) as [W4 S4].
      assert (Hp4 : nth_error data4 mid = Some p).
      { destruct W4 as [_ O]. rewrite O by lia. exact Hp3. }
      assert (Hi4 : allIn (S mid) b data4 (fun x => less x p = false))
        by (apply (allIn_outside W4); [lia|exact Hi]).
      assert (Hbr : boundary (S mid) b data4).
      { intros x _ Ex. cbn [Nat.sub] in Ex. rewrite Nat.sub_0_r, Hp4 in Ex.
        injection Ex as <-. exact Hi4. }
      assert (Hrr : S mid <= b <= length data4)
        by (rewrite (within_length W4); lia).
      destruct (IH data4 (S mid) b limit _ ap data' Hrr Hbr E) as [W5 S5].
      split.
      { apply (within_trans W13). apply (within_trans (d2 := data4)).
        - apply (within_weaken (a := a) (b := mid)); [lia|lia|exact W4].
        - apply (within_weaken (a := S mid) (b := b)); [lia|lia|exact W5]. }
      apply (@sorted_join a mid b data' p); try lia.
      * destruct W5 as [_ O]. rewrite O by lia. exact Hp4.
      * rewrite (within_outside (lo := a) (hi := mid) W5) by lia. exact S4.
      * exact S5.
      * apply (allIn_outside W5); [lia|].
        apply (allIn_within (d1 := data3)); [lia|exact W4|exact Lo].
      * apply (allIn_within (d1 := data4)); [lia|exact W5|exact Hi4].
    + destruct (pdqsortLoop less fuel data3 (S mid) b limit true true)
        as [data4|] eqn:ER; [|discriminate].
      assert (Hbr : boundary (S mid) b data3).
      { intros x _ Ex. cbn [Nat.sub] in Ex. rewrite Nat.sub_0_r, Hp3 in Ex.
        injection Ex as <-. exact Hi. }
      assert (Hrr : S mid <= b <= length data3) by lia.
      destruct (IH data3 (S mid) b limit true true data4 Hrr Hbr ER)
        as [W4 S4].
      assert (Hp4 : nth_error data4 mid = Some p).
      { destruct W4 as [_ O]. rewrite O by lia. exact Hp3. }
      assert (Hbl : boundary a mid data4).
      { apply (boundary_sub (b := b)); [lia|].
        apply (boundary_within (d1 := data3)); [lia| |exact Hbound3].
        apply (within_weaken (a := S mid) (b := b)); [lia|lia|exact W4]. }
      assert (Hrl : a <= mid <= length data4)
        by (rewrite (within_length W4); lia).
      destruct (IH data4 a mid limit _ ap data' Hrl Hbl E) as [W5 S5].
      split.
      { apply (within_trans W13). apply (within_trans (d2 := data4)).
        - apply (within_weaken (a := S mid) (b := b)); [lia|lia|exact W4].
        - apply (within_weaken (a := a) (b := mid)); [lia|lia|exact W5]. }
      apply (@sorted_join a mid b data' p); try lia.
      * destruct W5 as [_ O]. rewrite O by lia. exact Hp4.
      * exact S5.
      * rewrite (within_outside (lo := S mid) (hi := b) W5) by lia. exact S4.
      * apply (allIn_within (d1 := data4)); [lia|exact W5|].
        apply (allIn_outside W4); [lia|exact Lo].
      * apply (allIn_outside W5); [lia|].
        apply (allIn_within (d1 := data3)); [lia|exact W4|exact Hi].
Qed.

(** Where the sort has a result, the result is the slice, sorted. *)
Lemma pdqsortSlice_sorts (x sorted : list A) :
  pdqsortSlice less x = Some sorted ->
  Permutation x sorted /\ sortedBy less sorted.
Proof.
  unfold pdqsortSlice. cbv zeta. intros E.
  destruct (@pdqsortLoop_spec (S (length x)) x 0 (length x) (bitsLen (length x))
              true true sorted ltac:(lia)) as [[P O] S].
  - intros prev H. lia.
  - exact E.
  - split; [exact P|]. rewrite (Permutation_length P), slice_all in S. exact S.
Qed.

(** *** The sort rearranges, whatever [less] is *)

Lemma shiftLeft_perm : forall fuel data j,
  Permutation data (shiftLeft less fuel data j).
Proof.
  induction fuel as [|fuel IH]; intros data j; cbn [shiftLeft];
    [apply Permutation_refl|].
  destruct (1 <=? j); [|apply Permutation_refl].
  destruct (Less less data j (j - 1)); cbn [negb]; [|apply Permutation_refl].
  exact (Permutation_trans (Swap_perm data j (j - 1)) (IH _ _)).
Qed.

Lemma shiftRight_perm b : forall fuel data j,
  Permutation data (shiftRight less fuel data j b).
Proof.
  induction fuel as [|fuel IH]; intros data j; cbn [shiftRight];
    [apply Permutation_refl|].
  destruct (j <? b); [|apply Permutation_refl].
  destruct (Less less data j (j - 1)); cbn [negb]; [|apply Permutation_refl].
  exact (Permutation_trans (Swap_perm data j (j - 1)) (IH _ _)).
Qed.

Lemma partialInsertionLoop_perm a b : forall steps data i,
  Permutation data (fst (partialInsertionLoop less steps data a b i)).
Proof.
  induction steps as [|steps IH]; intros data i; cbn [partialInsertionLoop];
    [apply Permutation_refl|].
  cbv zeta. set (i1 := skipOrdered less (b - i) data i b).
  destruct (i1 =? b); [apply Permutation_refl|].
  destruct (b - a <? 50); [apply Permutation_refl|].
  refine (Permutation_trans _ (IH _ _)).
  apply (Permutation_trans (Swap_perm data i1 (i1 - 1))).
  set (d1 := Swap data i1 (i1 - 1)).
  assert (P2 : Permutation d1
                 (if 2 <=? i1 - a then shiftLeft less (i1 - 1) d1 (i1 - 1) else d1))
    by (destruct (2 <=? i1 - a); [apply shiftLeft_perm|apply Permutation_refl]).
  apply (Permutation_trans P2).
  destruct (2 <=? b - i1); [apply shiftRight_perm|apply Permutation_refl].
Qed.

Lemma insertionSort_func_perm data a b :
  a <= b -> Permutation data (insertionSort_func less data a b).
Proof.
  intros Hab. unfold insertionSort_func. fold (slice a b data).
  rewrite (slice_split data Hab) at 1.
  apply Permutation_app_head, Permutation_app_tail.
  apply (insertionSort_perm less).
Qed.

Lemma pdqsortLoop_perm : forall fuel data a b limit wasBalanced wasPartitioned data',
  a <= b <= length data ->
  pdqsortLoop less fuel data a b limit wasBalanced wasPartitioned = Some data' ->
  Permutation data data'.
Proof.
  induction fuel as [|fuel IH];
    intros data a b limit wasBalanced wasPartitioned data' Hab E;
    cbn [pdqsortLoop] in E; [discriminate|].
  cbv zeta in E.
  destruct (Nat.leb_spec (b - a) 12) as [Hlen|Hlen].
  { injection E as <-. apply insertionSort_func_perm. lia. }
  destruct (limit =? 0); [discriminate|].
  destruct wasBalanced; cbn [negb] in E; [|discriminate].
  pose proof (@choosePivot_func_index data a b ltac:(lia)) as Hpiv.
  destruct (choosePivot_func less data a b) as [pivot hint]. cbn [fst] in Hpiv.
  set (T := match hint with
            | decreasingHint =>
              (reverseRange_func data a b, b - 1 - (pivot - a), increasingHint)
            | _ => (data, pivot, hint)
            end) in E.
  assert (HT : Permutation data (fst (fst T)) /\ a <= snd (fst T) < b).
  { unfold T. destruct hint; cbn [fst snd];
      (split; [try apply Permutation_refl|lia]).
    apply (@reverseRange_func_within data a b). lia. }
  destruct T as [[data1 pivot1] hint1]. cbn [fst snd] in HT.
  destruct HT as [P1 Hpiv1].
  set (P := match wasPartitioned, hint1 with
            | true, increasingHint => partialInsertionSort_func less data1 a b
            | _, _ => (data1, false)
            end) in E.
  assert (HP : Permutation data1 (fst P)).
  { unfold P. destruct wasPartitioned; [|apply Permutation_refl].
    destruct hint1; try apply Permutation_refl.
    apply partialInsertionLoop_perm. }
  destruct P as [data2 done]. cbn [fst] in HP.
  assert (P12 : Permutation data data2) by exact (Permutation_trans P1 HP).
  assert (Hb2 : b <= length data2)
    by (rewrite <- (Permutation_length P12); lia).
  destruct done; [injection E as <-; exact P12|].
  destruct (@in_range data2 pivot1 ltac:(lia)) as [p Ep].
  destruct ((0 <? a) && negb (Less less data2 (a - 1) pivot1)).
  - destruct (partitionEqual_func less data2 a b pivot1) as [data3 mid] eqn:EQ.
    destruct (@partitionEqual_func_parts data2 a b pivot1 p data3 mid Ep Hpiv1 Hb2 EQ)
      as (W3 & Hmid & _).
    assert (Hr : mid <= b <= length data3)
      by (rewrite (within_length W3); lia).
    exact (Permutation_trans P12
             (Permutation_trans (proj1 W3) (IH _ _ _ _ _ _ _ Hr E))).
  - destruct (partition_func less data2 a b pivot1) as [[data3 mid] ap] eqn:EPart.
    destruct (@partition_func_spec data2 a b pivot1 p data3 mid ap Ep Hpiv1 Hb2 EPart)
      as (W3 & Hmid & _).
    assert (Hb3 : b <= length data3) by (rewrite (within_length W3); exact Hb2).
    apply (Permutation_trans P12), (Permutation_trans (proj1 W3)).
    destruct (mid - a <? b - mid).
    + destruct (pdqsortLoop less fuel data3 a mid limit true true)
        as [data4|] eqn:EL; [|discriminate].
      assert (Hl : a <= mid <= length data3) by lia.
      pose proof (IH _ _ _ _ _ _ _ Hl EL) as P4.
      assert (Hr : mid + 1 <= b <= length data4)
        by (rewrite <- (Permutation_length P4); lia).
      exact (Permutation_trans P4 (IH _ _ _ _ _ _ _ Hr E)).
    + destruct (pdqsortLoop less fuel data3 (mid + 1) b limit true true)
        as [data4|] eqn:ER; [|discriminate].
      assert (Hr : mid + 1 <= b <= length data3) by lia.
      pose proof (IH _ _ _ _ _ _ _ Hr ER) as P4.
      assert (Hl : a <= mid <= length data4)
        by (rewrite <- (Permutation_length P4); lia).
      exact (Permutation_trans P4 (IH _ _ _ _ _ _ _ Hl E)).
Qed.

(** The sort never stops for want of fuel: with more fuel than the part has
    elements the result is the same, whatever the fuel. *)
Lemma pdqsortLoop_fuel : forall fuel fuel' data a b limit wasBalanced wasPartitioned,
  a <= b <= length data -> b - a < fuel -> b - a < fuel' ->
  pdqsortLoop less fuel data a b limit wasBalanced wasPartitioned
  = pdqsortLoop less fuel' data a b limit wasBalanced wasPartitioned.
Proof.
  induction fuel as [|fuel IH];
    intros fuel' data a b limit wasBalanced wasPartitioned Hab Hf Hf'; [lia|].
  destruct fuel' as [|fuel']; [lia|].
  cbn [pdqsortLoop]. cbv zeta.
  destruct (Nat.leb_spec (b - a) 12) as [Hlen|Hlen]; [reflexivity|].
  destruct (limit =? 0); [reflexivity|].
  destruct wasBalanced; cbn [negb]; [|reflexivity].
  pose proof (@choosePivot_func_index data a b ltac:(lia)) as Hpiv.
  destruct (choosePivot_func less data a b) as [pivot hint]. cbn [fst] in Hpiv.
  set (T := match hint with
            | decreasingHint =>
              (reverseRange_func data a b, b - 1 - (pivot - a), increasingHint)
            | _ => (data, pivot, hint)
            end).
  assert (HT : Permutation data (fst (fst T)) /\ a <= snd (fst T) < b).
  { unfold T. destruct hint; cbn [fst snd];
      (split; [try apply Permutation_refl|lia]).
    apply (@reverseRange_func_within data a b). lia. }
  destruct T as [[data1 pivot1] hint1]. cbn [fst snd] in HT.
  destruct HT as [P1 Hpiv1].
  set (P := match wasPartitioned, hint1 with
            | true, increasingHint => partialInsertionSort_func less data1 a b
            | _, _ => (data1, false)
            end).
  assert (HP : Permutation data1 (fst P)).
  { unfold P. destruct wasPartitioned; [|apply Permutation_refl].
    destruct hint1; try apply Permutation_refl.
    apply partialInsertionLoop_perm. }
  destruct P as [data2 done]. cbn [fst] in HP.
  assert (Hb2 : b <= length data2)
    by (rewrite <- (Permutation_length HP), <- (Permutation_length P1); lia).
  destruct done; [reflexivity|].
  destruct (@in_range data2 pivot1 ltac:(lia)) as [p Ep].
  destruct ((0 <? a) && negb (Less less data2 (a - 1) pivot1)).
  - destruct (partitionEqual_func less data2 a b pivot1) as [data3 mid] eqn:EQ.
    destruct (@partitionEqual_func_parts data2 a b pivot1 p data3 mid Ep Hpiv1 Hb2 EQ)
      as (W3 & Hmid & _).
    apply IH; [rewrite (within_length W3)|..]; lia.
  - destruct (partition_func less data2 a b pivot1) as [[data3 mid] ap] eqn:EPart.
    destruct (@partition_func_spec data2 a b pivot1 p data3 mid ap Ep Hpiv1 Hb2 EPart)
      as (W3 & Hmid & _).
    assert (Hb3 : b <= length data3) by (rewrite (within_length W3); exact Hb2).
    destruct (mid - a <? b - mid).
    + rewrite (IH fuel' data3 a mid limit true true) by lia.
      destruct (pdqsortLoop less fuel' data3 a mid limit true true)
        as [data4|] eqn:EL; [|reflexivity].
      assert (Hl : a <= mid <= length data3) by lia.
      pose proof (@pdqsortLoop_perm fuel' data3 a mid limit true true data4 Hl EL)
        as P4.
      apply IH; [rewrite <- (Permutation_length P4)|..]; lia.
    + rewrite (IH fuel' data3 (mid + 1) b limit true true) by lia.
      destruct (pdqsortLoop less fuel' data3 (mid + 1) b limit true true)
        as [data4|] eqn:ER; [|reflexivity].
      assert (Hr : mid + 1 <= b <= length data3) by lia.
      pose proof (@pdqsortLoop_perm fuel' data3 (mid + 1) b limit true true data4
                    Hr ER) as P4.
      apply IH; [rewrite <- (Permutation_length P4)|..]; lia.
Qed.

(** The fuel [pdqsortSlice] gives is enough. *)
Lemma pdqsortSlice_fuel (x : list A) (fuel : nat) :
  length x < fuel ->
  pdqsortLoop less fuel x 0 (length x) (bitsLen (length x)) true true
  = pdqsortSlice less x.
Proof.
  intros H. unfold pdqsortSlice. cbv zeta. apply pdqsortLoop_fuel; lia.
Qed.

Lemma pdqsortSlice_perm (x sorted : list A) :
  pdqsortSlice less x = Some sorted -> Permutation x sorted.
Proof.
  unfold pdqsortSlice. cbv zeta. intros E.
  apply (@pdqsortLoop_perm (S (length x)) x 0 (length x) (bitsLen (length x))
           true true sorted); [lia|exact E].
Qed.

End Sorts.

(** [sort.Slice] as Go runs it, and insertion sort where the model has no
    result. *)
Definition goSlice (A : Type) (less : A -> A -> bool) (x : list A) : list A :=
  match pdqsortSlice less x with
  | Some sorted => sorted
  | None => insertionSort less x
  end.

Lemma goSlice_perm (A : Type) (less : A -> A -> bool) (x : list A) :
  Permutation x (goSlice less x).
Proof.
  unfold goSlice. destruct (pdqsortSlice less x) as [sorted|] eqn:E.
  - exact (pdqsortSlice_perm less x E).
  - apply insertionSort_perm.
Qed.

Lemma goSlice_sorted (A : Type) (less : A -> A -> bool) (x : list A) :
  lessOrder less -> sortedBy less (goSlice less x).
Proof.
  intros order. unfold goSlice.
  destruct (pdqsortSlice less x) as [sorted|] eqn:E.
  - exact (proj2 (pdqsortSlice_sorts order x E)).
  - apply insertionSort_sorted, order.
Qed.

(** The sort Go runs is a [sort.Slice]. *)
Definition goSorter : SliceSorter :=
  {| Slice := goSlice;
     Slice_perm := goSlice_perm;
     Slice_sorted := goSlice_sorted |}.

End PdqsortFacts.

Module PipelineFacts.
Import GoTime GoTimeFacts ParseFacts WatermarkFacts GoStrings Sheets GoSort
       SortFacts Zillow ExtractFacts Notions RunNotions.

(** *** The order of the emails *)

Lemma Before_true t u :
  Before t u = true
  <-> wallSec t < wallSec u \/ (wallSec t = wallSec u /\ nsec t < nsec u).
Proof.
  unfold Before. rewrite orb_true_iff, andb_true_iff, !Z.ltb_lt, Z.eqb_eq.
  reflexivity.
Qed.

Lemma Before_false t u :
  Before t u = false
  <-> wallSec u < wallSec t \/ (wallSec u = wallSec t /\ nsec u <= nsec t).
Proof.
  unfold Before. rewrite orb_false_iff, andb_false_iff, !Z.ltb_ge, Z.eqb_neq.
  lia.
Qed.

Lemma dateBefore_order : lessOrder dateBefore.
Proof.
  unfold dateBefore. split; [|split].
  - intros x. apply Before_false. lia.
  - intros x y z. rewrite !Before_true. lia.
  - intros x y z. rewrite !Before_false. lia.
Qed.

(** *** The gate of [processData] *)

(** Where the extractor does return an error, the loop does what its error
    branch says: the gate is shut, the email gets -1, the emails after it
    are left as they are, and nothing is appended. *)
Lemma gate_shuts_on_a_reported_error
    (extract : gostring -> Z * option error) (srv : Service)
    (config : Config) (rows : list Row)
    (before : list EmailMessage) (email : EmailMessage)
    (rest : list EmailMessage) :
  Forall (fun e => snd (extract (Content e)) = None) before ->
  snd (extract (Content email)) <> None ->
  extractLoop extract (before ++ email :: rest)
  = (false, withCounts extract before ++ setZillowSaves email (-1) :: rest)
  /\ processDataWith extract srv config rows (before ++ email :: rest)
     = (srv, withCounts extract before ++ setZillowSaves email (-1) :: rest).
Proof.
  intros Hok Herr.
  assert (Hloop : extractLoop extract (before ++ email :: rest)
            = (false, withCounts extract before
                      ++ setZillowSaves email (-1) :: rest)).
  { induction Hok as [|e before He Hok IH]; cbn [app extractLoop withCounts map].
    - destruct (extract (Content email)) as [count [err|]]; [reflexivity|].
      cbn [snd] in Herr. contradiction.
    - destruct (extract (Content e)) as [count err] eqn:E. cbn [snd] in He.
      subst err. rewrite IH. cbn [fst]. reflexivity. }
  split; [exact Hloop|]. unfold processDataWith. rewrite Hloop. reflexivity.
Qed.

(** With the extractor of the program the gate stays open. *)
Lemma processData_appends {tables : UnicodeTables} srv config rows emails :
  processData srv config rows emails
  = (fst (appendToSheet srv (SpreadsheetID config) (Range config)
            (withCounts extractZillowSavesCount emails)),
     withCounts extractZillowSavesCount emails).
Proof.
  unfold processData, processDataWith. rewrite extractLoop_open. reflexivity.
Qed.

(** C10.  For an empty batch [appendToSheet] returns a nil error and the
    service as it was: no append call is made and the sheet is the same. *)
Theorem empty_batch_appends_nothing :
  forall (srv : Service) (spreadsheetID sheetRange : gostring),
    appendToSheet srv spreadsheetID sheetRange [] = (srv, None)
    /\ appendCalls (fst (appendToSheet srv spreadsheetID sheetRange []))
       = appendCalls srv
    /\ sheet (fst (appendToSheet srv spreadsheetID sheetRange [])) = sheet srv.
Proof. intros srv id rng. repeat split; reflexivity. Qed.


(** *** Runs of [doZillow] *)

(** What a run of [doZillow] does when the services answer. *)
Lemma doZillow_run {tables : UnicodeTables} {sorter : SliceSorter} config w rows
    emails :
  clientError w = None -> serviceError w = None ->
  getSheetData (service w) (SpreadsheetID config) (Range config) = (rows, None) ->
  mailbox w emailSubject (dynamicFilterDate rows) = (emails, None) ->
  let batch := withCounts extractZillowSavesCount (Slice dateBefore emails) in
  doZillow config w
  = Returned None
      (fst (appendToSheet (service w) (SpreadsheetID config) (Range config) batch))
      batch.
Proof.
  intros Hc Hs Hrows Hmail batch. unfold doZillow.
  rewrite Hc, Hs, Hrows, Hmail, processData_appends. reflexivity.
Qed.

(** C1.  Two emails, the second with no saves count in it: the run appends
    both rows, the second with the count 0; the gate is open and no email
    has -1. *)
Theorem gap_in_batch_is_appended_as_zero :
  let first := emailAt "1" (GoTime.Date 2025 7 20 6 0 0 0 UTC) "Your home has 5 saves." in
  let second := emailAt "2" (GoTime.Date 2025 7 21 6 0 0 0 UTC) "No figures today." in
  let w := worldOf [[CString (str "2025-07-19"); CInt 4]] [first; second] in
  noMatch (Content second)
  /\ doZillow (tables := asciiText) (sorter := insertionSorter) testConfig w
     = Returned None
         (mkService
            [[CString (str "2025-07-19"); CInt 4];
             [CString (str "2025-07-20"); CInt 5];
             [CString (str "2025-07-21"); CInt 0]]
            [mkAppendCall (str "sheet-id") (str "Sheet1!A:Z")
               [[CString (str "2025-07-20"); CInt 5];
                [CString (str "2025-07-21"); CInt 0]]]
            true true)
         [setZillowSaves first 5; setZillowSaves second 0].
Proof. vm_compute. split; reflexivity. Qed.

(** *** The order of the rows *)

Lemma sortedBy_withCounts extract emails :
  sortedBy dateBefore emails -> sortedBy dateBefore (withCounts extract emails).
Proof.
  unfold sortedBy, withCounts. induction 1 as [|e l Hl IH He]; cbn [map].
  - constructor.
  - constructor; [exact IH|]. rewrite Forall_map. exact He.
Qed.

Lemma map_Date_withCounts extract emails :
  map Date (withCounts extract emails) = map Date emails.
Proof. unfold withCounts. rewrite map_map. reflexivity. Qed.

Lemma rowOf_dateCell email :
  dateCell (rowOf email) = CString (isoDate (civil (Date email))).
Proof.
  unfold rowOf, dateCell. cbn [nth].
  rewrite Format_formatDate, formatDate_iso. reflexivity.
Qed.

Lemma civil_mono t u :
  zoneOffset t = zoneOffset u -> Before u t = false ->
  dateLe (civil t) (civil u).
Proof.
  intros Hz Hb. apply Before_false in Hb. unfold civil, abs.
  apply absDate_mono. apply Z.div_le_mono; [unfold secondsPerDay; lia|]. lia.
Qed.

Lemma sorted_dates emails :
  sameZone emails -> sortedBy dateBefore emails ->
  StronglySorted dateLe (map (fun e => civil (Date e)) emails).
Proof.
  intros Hz Hs. unfold sortedBy in Hs.
  induction Hs as [|e l Hl IH He]; cbn [map]; [constructor|].
  constructor.
  - apply IH. intros e1 e2 H1 H2. apply Hz; right; assumption.
  - rewrite Forall_map. rewrite Forall_forall in *. intros x Hx.
    apply civil_mono; [apply Hz; [left; reflexivity|right; exact Hx]|].
    apply He, Hx.
Qed.

(** C6, amended.  When the services answer and emails are fetched, the run
    makes one append call; its rows are the rows of the emails in the order
    the sort has put them in, in which no email is before an earlier one;
    the date cell of each row is the date of its email in the email's own
    zone; and when the emails all carry the same zone offset, the dates do
    not decrease. *)
Theorem rows_are_appended_in_sorted_order :
  forall (tables : UnicodeTables) (sorter : SliceSorter) (config : Config)
         (w : World) (rows : list Row) (emails : list EmailMessage),
    clientError w = None -> serviceError w = None ->
    getSheetData (service w) (SpreadsheetID config) (Range config) = (rows, None) ->
    mailbox w emailSubject (dynamicFilterDate rows) = (emails, None) ->
    emails <> [] ->
    exists (batch : list EmailMessage) (srv : Service),
      doZillow config w = Returned None srv batch
      /\ Permutation (map Date emails) (map Date batch)
      /\ sortedBy dateBefore batch
      /\ appendCalls srv
         = appendCalls (service w)
           ++ [mkAppendCall (SpreadsheetID config) (Range config) (map rowOf batch)]
      /\ map dateCell (map rowOf batch)
         = map (fun e => CString (isoDate (civil (Date e)))) batch
      /\ (sameZone emails ->
          StronglySorted dateLe (map (fun e => civil (Date e)) batch)).
Proof.
  intros tables sorter config w rows emails Hc Hs Hrows Hmail Hne.
  pose proof (doZillow_run config w Hc Hs Hrows Hmail) as Hrun.
  cbv zeta in Hrun.
  set (sorted := Slice dateBefore emails) in *.
  set (batch := withCounts extractZillowSavesCount sorted) in *.
  pose proof (Slice_perm dateBefore emails) as Hperm. fold sorted in Hperm.
  pose proof (Slice_sorted emails dateBefore_order) as Hsorted. fold sorted in Hsorted.
  exists batch, (fst (appendToSheet (service w) (SpreadsheetID config)
                        (Range config) batch)).
  split; [exact Hrun|]. split.
  { unfold batch. rewrite map_Date_withCounts. apply Permutation_map, Hperm. }
  split; [apply sortedBy_withCounts, Hsorted|]. split.
  { assert (Hlen : length (map rowOf batch) <> 0%nat).
    { unfold batch, withCounts. rewrite !length_map.
      rewrite <- (Permutation_length Hperm).
      destruct emails; [contradiction|discriminate]. }
    unfold appendToSheet, ValuesAppend.
    apply Nat.eqb_neq in Hlen. rewrite Hlen.
    destruct (writable (service w)); reflexivity. }
  split.
  { rewrite map_map. apply map_ext. intros e. apply rowOf_dateCell. }
  intros Hz.
  assert (Hdates : map (fun e => civil (Date e)) batch
                   = map (fun e => civil (Date e)) sorted).
  { unfold batch, withCounts. rewrite map_map. reflexivity. }
  rewrite Hdates. apply sorted_dates; [|exact Hsorted].
  intros e1 e2 H1 H2.
  apply Hz; eapply Permutation_in; try eassumption;
    apply Permutation_sym, Hperm.
Qed.

Lemma rows_are_appended_in_sorted_order_witness :
  exists (batch : list EmailMessage) (srv : Service),
    doZillow (tables := asciiText) (sorter := insertionSorter) testConfig
      (worldOf [] [emailAt "2" (GoTime.Date 2025 7 21 6 0 0 0 (-25200)) "7 saves";
                   emailAt "1" (GoTime.Date 2025 7 20 6 0 0 0 (-25200)) "5 saves"])
    = Returned None srv batch
    /\ Permutation
         (map Date [emailAt "2" (GoTime.Date 2025 7 21 6 0 0 0 (-25200)) "7 saves";
                    emailAt "1" (GoTime.Date 2025 7 20 6 0 0 0 (-25200)) "5 saves"])
         (map Date batch)
    /\ sortedBy dateBefore batch
    /\ appendCalls srv
       = appendCalls (service (worldOf [] []))
         ++ [mkAppendCall (SpreadsheetID testConfig) (Range testConfig)
               (map rowOf batch)]
    /\ map dateCell (map rowOf batch)
       = map (fun e => CString (isoDate (civil (Date e)))) batch
    /\ (sameZone [emailAt "2" (GoTime.Date 2025 7 21 6 0 0 0 (-25200)) "7 saves";
                  emailAt "1" (GoTime.Date 2025 7 20 6 0 0 0 (-25200)) "5 saves"] ->
        StronglySorted dateLe (map (fun e => civil (Date e)) batch)).
Proof.
  apply (@rows_are_appended_in_sorted_order asciiText insertionSorter testConfig
           (worldOf [] [emailAt "2" (GoTime.Date 2025 7 21 6 0 0 0 (-25200)) "7 saves";
                        emailAt "1" (GoTime.Date 2025 7 20 6 0 0 0 (-25200)) "5 saves"])
           []); try reflexivity.
  discriminate.
Defined.

(** C6 as stated fails when the emails carry different zone offsets: an
    email of 2025-07-21 05:00 UTC is before an email of 2025-07-20 23:30 at
    7 hours west of UTC; the rows are appended in that order, with the date
    cells 2025-07-21, 2025-07-20. *)
Lemma dates_decrease_across_zones :
  let west := emailAt "1" (GoTime.Date 2025 7 20 23 30 0 0 (-25200)) "5 saves" in
  let utc := emailAt "2" (GoTime.Date 2025 7 21 5 0 0 0 UTC) "7 saves" in
  Before (Zillow.Date utc) (Zillow.Date west) = true
  /\ exists srv,
       doZillow (tables := asciiText) (sorter := insertionSorter) testConfig
         (worldOf [] [west; utc])
       = Returned None srv [setZillowSaves utc 7; setZillowSaves west 5]
       /\ map acValues (appendCalls srv)
          = [[[CString (str "2025-07-21"); CInt 7];
              [CString (str "2025-07-20"); CInt 5]]].
Proof. split; [vm_compute; reflexivity|]. eexists. vm_compute. split; reflexivity. Qed.


(** *** The sort step *)

(** On a slice of at most 12 elements the sort Go runs is insertion sort,
    which keeps the order of equal elements. *)
Lemma small_slice_keeps_order (A : Type) (less : A -> A -> bool) (l : list A) :
  (length l <= 12)%nat -> lessOrder less ->
  pdqsortSlice less l = Some (insertionSort less l)
  /\ stable less l (insertionSort less l).
Proof.
  intros Hlen Horder. split; [|apply insertionSort_stable, Horder].
  unfold pdqsortSlice. cbn [pdqsortLoop]. rewrite Nat.sub_0_r.
  apply Nat.leb_le in Hlen. rewrite Hlen.
  unfold insertionSort_func. rewrite Nat.sub_0_r. cbn [firstn skipn app].
  rewrite firstn_all, skipn_all, app_nil_r. reflexivity.
Qed.

(** Where a filtered list has an element, the list has it, and what is
    before and after it is filtered to what is before and after. *)
Lemma filter_split (A : Type) (p : A -> bool) (x : A) (l : list A) :
  forall front back,
    filter p l = front ++ x :: back ->
    exists l1 l2, l = l1 ++ x :: l2 /\ filter p l1 = front /\ filter p l2 = back.
Proof.
  induction l as [|y l IH]; intros front back H; cbn [filter] in H.
  - destruct front; discriminate H.
  - destruct (p y) eqn:Py.
    + destruct front as [|a front]; cbn [app] in H; inversion H; subst.
      * exists [], l. repeat split.
      * destruct (IH _ _ H2) as (l1 & l2 & -> & H1 & Hb).
        exists (a :: l1), l2. cbn [filter app]. rewrite Py, H1.
        repeat split. exact Hb.
    + destruct (IH _ _ H) as (l1 & l2 & -> & H1 & Hb).
      exists (y :: l1), l2. cbn [filter app]. rewrite Py.
      repeat split; assumption.
Qed.

(** In a stable rearrangement two equal elements keep their order. *)
Lemma stable_pair (A : Type) (less : A -> A -> bool) (before after : list A)
    (pre mid post : list A) (e1 e2 : A) :
  lessOrder less -> stable less before after ->
  before = pre ++ e1 :: mid ++ e2 :: post ->
  less e1 e2 = false -> less e2 e1 = false ->
  exists pre' mid' post', after = pre' ++ e1 :: mid' ++ e2 :: post'.
Proof.
  intros Ho Hst -> H12 H21. specialize (Hst e1). unfold equalTo in Hst.
  rewrite filter_app in Hst. cbn [filter] in Hst.
  rewrite (less_irrefl Ho e1) in Hst. cbn [negb andb] in Hst.
  rewrite filter_app in Hst. cbn [filter] in Hst.
  rewrite H12, H21 in Hst. cbn [negb andb] in Hst.
  destruct (@filter_split _ _ _ _ _ _ Hst) as (l1 & l2 & -> & _ & H2).
  destruct (@filter_split _ _ _ _ _ _ H2) as (m1 & m2 & -> & _ & _).
  exists l1, m1, m2. reflexivity.
Qed.

(** The rows a run appends are the rows of the batch, in its order. *)
Lemma appendToSheet_calls srv id range (batch : list EmailMessage) :
  batch <> [] ->
  appendCalls (fst (appendToSheet srv id range batch))
  = appendCalls srv ++ [mkAppendCall id range (map rowOf batch)].
Proof.
  intros Hne.
  assert (Hlen : length (map rowOf batch) <> 0%nat).
  { rewrite length_map. destruct batch; [contradiction|discriminate]. }
  unfold appendToSheet, ValuesAppend.
  apply Nat.eqb_neq in Hlen. rewrite Hlen.
  destruct (writable srv); reflexivity.
Qed.

(** In a slice sorted by [dateBefore] no email is before an earlier one. *)
Lemma sortedBy_notAfter (l : list EmailMessage) :
  sortedBy dateBefore l ->
  StronglySorted (fun a b => notAfter (Date a) (Date b)) l.
Proof.
  unfold sortedBy. intros Hs.
  induction Hs as [|e l Hl IH He]; constructor; [exact IH|].
  rewrite Forall_forall in *. intros x Hx. apply Before_false, He, Hx.
Qed.

(** The sort Go runs is a sort that does what Go's sort does. *)
Lemma goSorter_runs (emails : list EmailMessage) :
  runsGoSort PdqsortFacts.goSorter emails.
Proof.
  intros sorted H. cbn [Slice PdqsortFacts.goSorter].
  unfold PdqsortFacts.goSlice. rewrite H. reflexivity.
Qed.

(** C7, amended.  The sort step of a run of [doZillow] sorts ascending by
    date, and is stable when at most 12 emails were fetched.  The run works
    on a rearrangement of the fetched emails in which no email is before an
    earlier one, and appends the rows in its order; the rearrangement is the
    result of the sort of Go, wherever that has one.  When at most 12 emails
    were fetched it has one, and the emails of the same instant are in it in
    the order they were fetched in, every two of them. *)
Theorem sort_step_is_ascending_and_stable_up_to_twelve :
  forall (tables : UnicodeTables) (sorter : SliceSorter) (config : Config)
         (w : World) (rows : list Row) (emails : list EmailMessage),
    clientError w = None -> serviceError w = None ->
    getSheetData (service w) (SpreadsheetID config) (Range config) = (rows, None) ->
    mailbox w emailSubject (dynamicFilterDate rows) = (emails, None) ->
    runsGoSort sorter emails ->
    exists (sorted : list EmailMessage) (srv : Service),
      doZillow config w
      = Returned None srv (withCounts extractZillowSavesCount sorted)
      /\ Permutation emails sorted
      /\ StronglySorted (fun a b => notAfter (Date a) (Date b)) sorted
      /\ (emails <> [] ->
          appendCalls srv
          = appendCalls (service w)
            ++ [mkAppendCall (SpreadsheetID config) (Range config)
                  (map rowOf (withCounts extractZillowSavesCount sorted))])
      /\ (forall result : list EmailMessage,
             pdqsortSlice dateBefore emails = Some result -> sorted = result)
      /\ ((length emails <= 12)%nat ->
          pdqsortSlice dateBefore emails = Some sorted
          /\ stable dateBefore emails sorted
          /\ (forall pre e1 mid e2 post,
                 emails = pre ++ e1 :: mid ++ e2 :: post ->
                 Before (Date e1) (Date e2) = false ->
                 Before (Date e2) (Date e1) = false ->
                 exists pre' mid' post',
                   sorted = pre' ++ e1 :: mid' ++ e2 :: post')).
Proof.
  intros tables sorter config w rows emails Hc Hs Hrows Hmail Hgo.
  pose proof (doZillow_run config w Hc Hs Hrows Hmail) as Hrun.
  cbv zeta in Hrun.
  set (sorted := Slice dateBefore emails) in *.
  assert (Hsorts : Permutation emails sorted /\ sortedBy dateBefore sorted).
  { destruct (pdqsortSlice dateBefore emails) as [result|] eqn:Hpdq.
    - (* the sort of Go, by what it does *)
      unfold sorted. rewrite (Hgo result Hpdq).
      exact (PdqsortFacts.pdqsortSlice_sorts dateBefore_order emails Hpdq).
    - (* any other sort, by the contract of [sort.Slice] *)
      split; [apply Slice_perm|apply Slice_sorted, dateBefore_order]. }
  destruct Hsorts as [Hperm Hsorted].
  exists sorted,
    (fst (appendToSheet (service w) (SpreadsheetID config) (Range config)
            (withCounts extractZillowSavesCount sorted))).
  split; [exact Hrun|]. split; [exact Hperm|].
  split; [apply sortedBy_notAfter, Hsorted|]. split.
  { intros Hne. apply appendToSheet_calls.
    unfold withCounts. intros Hnil. apply map_eq_nil in Hnil.
    rewrite Hnil in Hperm. apply Permutation_sym, Permutation_nil in Hperm.
    contradiction. }
  split; [exact Hgo|].
  intros Hlen.
  destruct (@small_slice_keeps_order _ dateBefore emails Hlen dateBefore_order)
    as [Hpdq Hstable].
  assert (E : sorted = insertionSort dateBefore emails) by exact (Hgo _ Hpdq).
  rewrite E. split; [exact Hpdq|]. split; [exact Hstable|].
  intros pre e1 mid e2 post E' H12 H21.
  exact (@stable_pair _ dateBefore emails (insertionSort dateBefore emails)
           pre mid post e1 e2 dateBefore_order Hstable E' H12 H21).
Qed.

Lemma sort_step_is_ascending_and_stable_up_to_twelve_witness :
  let emails := firstn 12 sameDateBatch in
  let w := worldOf [] emails in
  exists (sorted : list EmailMessage) (srv : Service),
    doZillow (tables := asciiText) (sorter := PdqsortFacts.goSorter)
      testConfig w
    = Returned None srv (withCounts (@extractZillowSavesCount asciiText) sorted)
    /\ Permutation emails sorted
    /\ StronglySorted (fun a b => notAfter (Date a) (Date b)) sorted
    /\ (emails <> [] ->
        appendCalls srv
        = appendCalls (service w)
          ++ [mkAppendCall (SpreadsheetID testConfig) (Range testConfig)
                (map rowOf
                   (withCounts (@extractZillowSavesCount asciiText) sorted))])
    /\ (forall result : list EmailMessage,
           pdqsortSlice dateBefore emails = Some result -> sorted = result)
    /\ ((length emails <= 12)%nat ->
        pdqsortSlice dateBefore emails = Some sorted
        /\ stable dateBefore emails sorted
        /\ (forall pre e1 mid e2 post,
               emails = pre ++ e1 :: mid ++ e2 :: post ->
               Before (Date e1) (Date e2) = false ->
               Before (Date e2) (Date e1) = false ->
               exists pre' mid' post',
                 sorted = pre' ++ e1 :: mid' ++ e2 :: post')).
Proof.
  cbv zeta.
  apply (@sort_step_is_ascending_and_stable_up_to_twelve asciiText
           PdqsortFacts.goSorter testConfig
           (worldOf [] (firstn 12 sameDateBatch)) []
           (firstn 12 sameDateBatch));
    try reflexivity.
  apply goSorter_runs.
Defined.

(** C7 as stated fails.  On the thirteen emails of [sameDateBatch] the sort
    Go runs (median of three, one partition, insertion sort of the right
    part) leaves the twelve emails of the same instant in another order than
    they were fetched in; so it does on [earlierLastBatch]; and a sort that
    meets the contract of [sort.Slice] may reverse two emails of the same
    instant. *)
Lemma equal_dates_lose_fetch_order :
  option_map (map ID) (pdqsortSlice dateBefore sameDateBatch)
  = Some (map str ["6"; "3"; "2"; "0"; "4"; "5"; "1"; "7"; "8"; "9"; "10";
                   "11"; "12"]%string)
  /\ (exists sorted,
        pdqsortSlice dateBefore sameDateBatch = Some sorted
        /\ (stable dateBefore sameDateBatch sorted -> False))
  /\ option_map (map ID) (pdqsortSlice dateBefore earlierLastBatch)
     = Some (map str ["12"; "6"; "2"; "3"; "4"; "5"; "0"; "7"; "8"; "9"; "10";
                      "11"; "1"]%string)
  /\ (stable dateBefore (firstn 2 sameDateBatch)
        (@Slice reversingSorter _ dateBefore (firstn 2 sameDateBatch)) -> False).
Proof.
  split; [vm_compute; reflexivity|]. split; [|split; [vm_compute; reflexivity|]].
  - eexists. split; [vm_compute; reflexivity|].
    intros Hst. specialize (Hst (hd (emailAt "" (mkTime 0 0 0) "") sameDateBatch)).
    vm_compute in Hst. discriminate Hst.
  - intros Hst. specialize (Hst (hd (emailAt "" (mkTime 0 0 0) "") sameDateBatch)).
    vm_compute in Hst. discriminate Hst.
Qed.

End PipelineFacts.

Module RoundTripFacts.
Import GoTime GoTimeFacts ParseFacts WatermarkFacts GoStrings Sheets Zillow Notions
       RunNotions.

(** *** Numbers as [appendInt] writes them *)

(** The year in four digits, read back by [atoi]. *)
Lemma digitChar_spec k :
  0 <= k <= 9 -> isDigit (digitChar k) = true /\ digitVal (digitChar k) = k.
Proof.
  intros H.
  assert (E : k = 0 \/ k = 1 \/ k = 2 \/ k = 3 \/ k = 4 \/ k = 5 \/ k = 6
              \/ k = 7 \/ k = 8 \/ k = 9) by lia.
  repeat (destruct E as [->|E]; [split; reflexivity|]). subst k. split; reflexivity.
Qed.

Lemma leadingInt_small c x s :
  isDigit c = true -> 0 <= x <= 999 ->
  leadingInt x (c :: s) = leadingInt (x * 10 + digitVal c) s.
Proof.
  intros Dc Hx. cbn [leadingInt]. rewrite Dc.
  pose proof (isDigit_code _ Dc) as Hc. unfold digitVal.
  assert (P : 2 ^ 63 = 9223372036854775808) by reflexivity.
  destruct (Z.gtb_spec x (2 ^ 63 / 10)) as [H|H].
  { rewrite P in H. change (9223372036854775808 / 10) with 922337203685477580 in H. lia. }
  destruct (Z.gtb_spec (x * 10 + (code c - 48)) (2 ^ 63)) as [H'|H'].
  { rewrite P in H'. lia. }
  reflexivity.
Qed.

Lemma utoaLoop_step fuel u acc :
  utoaLoop (S fuel) u acc
  = if u <? 10 then digitChar (u mod 10) :: acc
    else utoaLoop fuel (u / 10) (digitChar (u mod 10) :: acc).
Proof. reflexivity. Qed.

(** The digits of a number below 10000. *)
Lemma utoa_four u :
  0 <= u <= 9999 ->
  utoa u
  = if u <? 10 then [digitChar u]
    else if u <? 100 then [digitChar (u / 10); digitChar (u mod 10)]
    else if u <? 1000
         then [digitChar (u / 100); digitChar (u / 10 mod 10); digitChar (u mod 10)]
    else [digitChar (u / 1000); digitChar (u / 100 mod 10);
          digitChar (u / 10 mod 10); digitChar (u mod 10)].
Proof.
  intros Hu. unfold utoa. rewrite utoaLoop_step.
  destruct (Z.ltb_spec u 10) as [H1|H1].
  { rewrite Z.mod_small by (Z.div_mod_to_equations; lia). reflexivity. }
  assert (L : 3 <= Z.log2 u).
  { change 3 with (Z.log2 8). apply Z.log2_le_mono. lia. }
  destruct (Z.to_nat (Z.log2 u)) as [|[|[|n]]] eqn:E; try lia.
  rewrite utoaLoop_step.
  destruct (Z.ltb_spec u 100) as [H2|H2].
  { destruct (Z.ltb_spec (u / 10) 10); [|Z.div_mod_to_equations; lia].
    rewrite (Z.mod_small (u / 10)) by (Z.div_mod_to_equations; lia). reflexivity. }
  destruct (Z.ltb_spec (u / 10) 10); [Z.div_mod_to_equations; lia|].
  rewrite utoaLoop_step.
  replace (u / 10 / 10) with (u / 100) by (rewrite Z.div_div by (Z.div_mod_to_equations; lia); reflexivity).
  destruct (Z.ltb_spec u 1000) as [H3|H3].
  { destruct (Z.ltb_spec (u / 100) 10); [|Z.div_mod_to_equations; lia].
    rewrite (Z.mod_small (u / 100)) by (Z.div_mod_to_equations; lia). reflexivity. }
  destruct (Z.ltb_spec (u / 100) 10); [Z.div_mod_to_equations; lia|].
  rewrite utoaLoop_step.
  replace (u / 100 / 10) with (u / 1000) by (rewrite Z.div_div by (Z.div_mod_to_equations; lia); reflexivity).
  destruct (Z.ltb_spec (u / 1000) 10); [|Z.div_mod_to_equations; lia].
  rewrite (Z.mod_small (u / 1000)) by (Z.div_mod_to_equations; lia). reflexivity.
Qed.

Lemma appendInt_year y :
  0 <= y <= 9999 ->
  appendInt y 4
  = [digitChar (y / 1000); digitChar (y / 100 mod 10);
     digitChar (y / 10 mod 10); digitChar (y mod 10)].
Proof.
  intros Hy. unfold appendInt. rewrite Z.abs_eq by (Z.div_mod_to_equations; lia).
  destruct (Z.ltb_spec y 0); [Z.div_mod_to_equations; lia|]. rewrite (utoa_four Hy). cbn [app].
  destruct (Z.ltb_spec y 10).
  { cbn [length repeat Z.of_nat Z.sub Z.to_nat Pos.to_nat Pos.iter_op Nat.add app].
    rewrite (Z.div_small y 1000), (Z.div_small y 100), (Z.div_small y 10),
      (Z.mod_small y 10) by (Z.div_mod_to_equations; lia). reflexivity. }
  destruct (Z.ltb_spec y 100).
  { cbn [length]. change (Z.to_nat (4 - Z.of_nat 2)) with 2%nat. cbn [repeat app].
    rewrite (Z.div_small y 1000), (Z.div_small y 100) by (Z.div_mod_to_equations; lia).
    rewrite (Z.mod_small (y / 10) 10) by (Z.div_mod_to_equations; lia). reflexivity. }
  destruct (Z.ltb_spec y 1000).
  { cbn [length]. change (Z.to_nat (4 - Z.of_nat 3)) with 1%nat. cbn [repeat app].
    rewrite (Z.div_small y 1000) by (Z.div_mod_to_equations; lia).
    rewrite (Z.mod_small (y / 100) 10) by (Z.div_mod_to_equations; lia). reflexivity. }
  cbn [length]. change (Z.to_nat (4 - Z.of_nat 4)) with 0%nat. reflexivity.
Qed.

Lemma yearText y :
  0 <= y <= 9999 ->
  exists a b c d, appendInt y 4 = [a; b; c; d]
    /\ isDigit a = true /\ isDigit b = true /\ isDigit c = true
    /\ isDigit d = true /\ atoi [a; b; c; d] = Some y.
Proof.
  intros Hy. rewrite (appendInt_year Hy).
  assert (H1 : 0 <= y / 1000 <= 9) by (Z.div_mod_to_equations; lia).
  assert (H2 : 0 <= y / 100 mod 10 <= 9) by (Z.div_mod_to_equations; lia).
  assert (H3 : 0 <= y / 10 mod 10 <= 9) by (Z.div_mod_to_equations; lia).
  assert (H4 : 0 <= y mod 10 <= 9) by (Z.div_mod_to_equations; lia).
  destruct (digitChar_spec H1) as [D1 V1]. destruct (digitChar_spec H2) as [D2 V2].
  destruct (digitChar_spec H3) as [D3 V3]. destruct (digitChar_spec H4) as [D4 V4].
  do 4 eexists. split; [reflexivity|]. repeat (split; [assumption|]).
  unfold atoi. destruct (digit_not_sep _ D1) as (_ & -> & -> & _). cbn [orb].
  rewrite leadingInt_small by (assumption || lia).
  rewrite leadingInt_small by (assumption || lia).
  rewrite leadingInt_small by (assumption || lia).
  rewrite leadingInt_small by (assumption || lia).
  cbn [leadingInt]. rewrite V1, V2, V3, V4. f_equal.
  Z.div_mod_to_equations. lia.
Qed.

(** A month or a day in two digits. *)
Definition twoDigitsOk (n : Z) : bool :=
  match appendInt n 2 with
  | [a; b] => isDigit a && isDigit b && (digitVal a * 10 + digitVal b =? n)
  | _ => false
  end.

Lemma twoDigitsOk_all : forallb (fun k => twoDigitsOk (Z.of_nat k)) (seq 0 100) = true.
Proof. vm_compute. reflexivity. Qed.

Lemma twoDigits n :
  0 <= n <= 99 ->
  exists a b, appendInt n 2 = [a; b]
    /\ isDigit a = true /\ isDigit b = true /\ digitVal a * 10 + digitVal b = n.
Proof.
  intros Hn. pose proof twoDigitsOk_all as H.
  rewrite forallb_forall in H. specialize (H (Z.to_nat n)).
  rewrite Z2Nat.id in H by lia.
  assert (Hin : In (Z.to_nat n) (seq 0 100)) by (apply in_seq; lia).
  apply H in Hin. unfold twoDigitsOk in Hin.
  destruct (appendInt n 2) as [|a [|b [|]]]; try discriminate.
  rewrite !andb_true_iff in Hin. destruct Hin as [[Da Db] E].
  exists a, b. repeat split; try assumption. apply Z.eqb_eq, E.
Qed.

(** *** Reading back what [Format] has written *)

Lemma parseChunk_year_digits a b c d rest f y :
  isDigit a = true -> atoi [a; b; c; d] = Some y ->
  parseChunk stdLongYear (a :: b :: c :: d :: rest) f
  = Some (rest, mkFields y (fMonth f) (fDay f)).
Proof.
  intros Da E. cbn [parseChunk length Nat.ltb Nat.leb firstn skipn].
  rewrite Da, E. reflexivity.
Qed.

Lemma getnum_two a b rest fixed :
  isDigit a = true -> isDigit b = true ->
  getnum (a :: b :: rest) fixed = Some (digitVal a * 10 + digitVal b, rest).
Proof. intros Da Db. unfold getnum. rewrite Da, Db. reflexivity. Qed.

(** A date of the calendar. *)
Definition validDateb (y m d : Z) : bool :=
  (1 <=? m) && (m <=? 12) && (1 <=? d) && (d <=? daysIn m y).

Lemma validDateb_spec y m d : validDateb y m d = true <-> validDate y m d.
Proof.
  unfold validDateb, validDate. rewrite !andb_true_iff, !Z.leb_le. tauto.
Qed.

(** What the primary format reads in a text written [YYYY-MM-DD]. *)
Lemma Parse_iso y m d :
  0 <= y <= 9999 -> 0 <= m <= 99 -> 0 <= d <= 99 ->
  Parse (str "2006-01-02") (isoDate (y, m, d))
  = if validDateb y m d then Some (midnightUTC y m d) else None.
Proof.
  intros Hy Hm Hd.
  destruct (yearText Hy) as (y1 & y2 & y3 & y4 & Ey & Dy1 & _ & _ & _ & Ay).
  destruct (twoDigits Hm) as (m1 & m2 & Em & Dm1 & Dm2 & Vm).
  destruct (twoDigits Hd) as (d1 & d2 & Ed & Dd1 & Dd2 & Vd).
  unfold Parse.
  rewrite parseLoop_steps by (left; reflexivity).
  change (layoutSteps (str "2006-01-02"))
    with [([], stdLongYear); (str "-", stdZeroMonth); (str "-", stdZeroDay)].
  unfold isoDate. rewrite Ey, Em, Ed.
  cbn [app str list_ascii_of_string parseSteps]. rewrite skip_nil.
  rewrite (@parseChunk_year_digits y1 y2 y3 y4 _ _ y Dy1 Ay).
  change (skip ("-"%char :: m1 :: m2 :: "-"%char :: [d1; d2]) ["-"%char])
    with (Some (m1 :: m2 :: "-"%char :: [d1; d2])).
  cbv beta iota. cbn [parseChunk]. rewrite (@getnum_two m1 m2 _ _ Dm1 Dm2), Vm.
  unfold validDateb.
  destruct (Z.leb_spec m 0) as [Hm0|Hm0]; cbn [orb].
  { destruct (Z.leb_spec 1 m); [lia|]. reflexivity. }
  destruct (Z.ltb_spec 12 m) as [Hm12|Hm12].
  { destruct (Z.leb_spec 1 m); [|lia]. destruct (Z.leb_spec m 12); [lia|]. reflexivity. }
  change (skip ("-"%char :: [d1; d2]) ["-"%char]) with (Some [d1; d2]).
  cbv beta iota. rewrite (@getnum_two d1 d2 _ _ Dd1 Dd2), Vd. cbn [skip length skipLoop].
  cbn [fMonth fDay fYear].
  destruct (Z.leb_spec 1 m); [|lia]. destruct (Z.leb_spec m 12); [|lia].
  cbn [andb].
  destruct (Z.ltb_spec m 0); [lia|].
  destruct (Z.ltb_spec d 0) as [Hd0|Hd0]; [lia|].
  destruct (Z.ltb_spec d 1); destruct (Z.leb_spec 1 d); try lia; cbn [orb andb];
    [reflexivity|].
  destruct (Z.gtb_spec d (daysIn m y)); destruct (Z.leb_spec d (daysIn m y));
    try lia; reflexivity.
Qed.


(** *** [TrimSpace] on a text with no white space at its ends *)

(** A byte of ASCII that is no white space. *)
Definition plain (c : ascii) : Prop := code c < 128 /\ asciiSpace c = false.

(** The encodings start with a byte outside ASCII. *)
Definition highStart (encodings : list gostring) : bool :=
  forallb (fun e => match e with h :: _ => 128 <=? code h | [] => false end)
          encodings.

Lemma startsWith_head e c s :
  match e with h :: _ => 128 <= code h | [] => False end ->
  code c < 128 -> startsWith e (c :: s) = false.
Proof.
  destruct e as [|h e]; [contradiction|]. intros Hh Hc.
  unfold startsWith, gostring_eqb. cbn [length firstn].
  destruct (list_eq_dec ascii_dec (c :: firstn (length e) s) (h :: e)) as [E|];
    [|reflexivity].
  inversion E; subst. lia.
Qed.

Lemma spaceAtHead_plain encodings c s :
  highStart encodings = true -> plain c -> spaceAtHead encodings (c :: s) = None.
Proof.
  intros He [Hc Hs]. unfold spaceAtHead. rewrite Hs.
  replace (find (fun e => startsWith e (c :: s)) encodings) with (@None gostring);
    [reflexivity|].
  symmetry. unfold highStart in He. rewrite forallb_forall in He.
  induction encodings as [|e encodings IH]; [reflexivity|].
  cbn [find]. rewrite startsWith_head.
  - apply IH. intros x Hx. apply He. right. exact Hx.
  - specialize (He e (or_introl eq_refl)). destruct e; [discriminate|].
    apply Z.leb_le, He.
  - exact Hc.
Qed.

Lemma trimHead_plain encodings fuel c s :
  highStart encodings = true -> plain c ->
  trimHead encodings fuel (c :: s) = c :: s.
Proof.
  intros He Hc. destruct fuel; [reflexivity|].
  cbn [trimHead]. rewrite spaceAtHead_plain by assumption. reflexivity.
Qed.

(** White space of ASCII at the head is taken off byte by byte. *)
Lemma trimHead_spaces encodings ws : forall fuel s,
  forallb asciiSpace ws = true ->
  trimHead encodings (length ws + fuel) (ws ++ s) = trimHead encodings fuel s.
Proof.
  induction ws as [|w ws IH]; intros fuel s H; [reflexivity|].
  cbn [forallb] in H. apply andb_true_iff in H. destruct H as [Hw Hws].
  cbn [length Nat.add app trimHead spaceAtHead]. rewrite Hw.
  cbn [skipn]. apply IH, Hws.
Qed.

Lemma highStart_unicodeSpaces : highStart unicodeSpaces = true.
Proof. vm_compute. reflexivity. Qed.

Lemma highStart_rev_unicodeSpaces : highStart (map (@rev ascii) unicodeSpaces) = true.
Proof. vm_compute. reflexivity. Qed.

(** The trimmed text is what stands between the white space. *)
Lemma TrimSpace_between ws1 ws2 s c1 s1 c2 s2 :
  forallb asciiSpace ws1 = true -> forallb asciiSpace ws2 = true ->
  s = c1 :: s1 -> rev s = c2 :: s2 -> plain c1 -> plain c2 ->
  TrimSpace (ws1 ++ s ++ ws2) = s.
Proof.
  intros H1 H2 E1 E2 P1 P2. unfold TrimSpace.
  assert (L : TrimLeftSpace (ws1 ++ s ++ ws2) = s ++ ws2).
  { unfold TrimLeftSpace. rewrite length_app.
    rewrite trimHead_spaces by exact H1.
    rewrite E1. cbn [app]. apply trimHead_plain; [apply highStart_unicodeSpaces|exact P1]. }
  rewrite L. unfold TrimRightSpace.
  rewrite rev_app_distr, length_app, Nat.add_comm, <- (length_rev ws2).
  rewrite trimHead_spaces.
  - rewrite E2, trimHead_plain by (apply highStart_rev_unicodeSpaces || exact P2).
    rewrite <- E2. apply rev_involutive.
  - rewrite forallb_forall in *. intros x Hx. apply H2, in_rev, Hx.
Qed.

Lemma TrimSpace_plain s c1 s1 c2 s2 :
  s = c1 :: s1 -> rev s = c2 :: s2 -> plain c1 -> plain c2 -> TrimSpace s = s.
Proof.
  intros E1 E2 P1 P2.
  rewrite <- (@TrimSpace_between [] [] s c1 s1 c2 s2) at 2;
    try assumption; try reflexivity.
  cbn [app]. rewrite app_nil_r. reflexivity.
Qed.

Lemma digit_plain c : isDigit c = true -> plain c.
Proof.
  intros H. apply isDigit_code in H. split; [lia|].
  unfold asciiSpace. apply orb_false_iff. split.
  - apply andb_false_iff. right. apply Z.leb_gt. lia.
  - apply Z.eqb_neq. lia.
Qed.


(** *** A date cell written [YYYY-MM-DD] *)

Lemma isoDate_bytes y m d :
  0 <= y <= 9999 -> 0 <= m <= 99 -> 0 <= d <= 99 ->
  exists y1 y2 y3 y4 m1 m2 d1 d2,
    isoDate (y, m, d)
    = [y1; y2; y3; y4; "-"%char; m1; m2; "-"%char; d1; d2]
    /\ isDigit y1 = true /\ isDigit y2 = true /\ isDigit y3 = true
    /\ isDigit y4 = true /\ isDigit d2 = true.
Proof.
  intros Hy Hm Hd.
  destruct (yearText Hy) as (y1 & y2 & y3 & y4 & Ey & Dy1 & Dy2 & Dy3 & Dy4 & _).
  destruct (twoDigits Hm) as (m1 & m2 & Em & _).
  destruct (twoDigits Hd) as (d1 & d2 & Ed & _ & Dd2 & _).
  exists y1, y2, y3, y4, m1, m2, d1, d2.
  unfold isoDate. rewrite Ey, Em, Ed. repeat split; assumption.
Qed.

Lemma TrimSpace_iso y m d :
  0 <= y <= 9999 -> 0 <= m <= 99 -> 0 <= d <= 99 ->
  TrimSpace (isoDate (y, m, d)) = isoDate (y, m, d).
Proof.
  intros Hy Hm Hd.
  destruct (isoDate_bytes Hy Hm Hd)
    as (y1 & y2 & y3 & y4 & m1 & m2 & d1 & d2 & E & Dy1 & _ & _ & _ & Dd2).
  rewrite E.
  eapply TrimSpace_plain; [reflexivity|reflexivity| |];
    apply digit_plain; assumption.
Qed.

(** No alternative format reads a text of this shape. *)
Lemma formats_fail_iso y m d layout :
  0 <= y <= 9999 -> 0 <= m <= 99 -> 0 <= d <= 99 ->
  In layout formats -> Parse layout (isoDate (y, m, d)) = None.
Proof.
  intros Hy Hm Hd Hin.
  destruct (Parse layout (isoDate (y, m, d))) as [t|] eqn:E; [|reflexivity].
  exfalso. apply Parse_shape in E; [|right; exact Hin].
  destruct (isoDate_bytes Hy Hm Hd)
    as (y1 & y2 & y3 & y4 & m1 & m2 & d1 & d2 & Eb & Dy1 & Dy2 & Dy3 & Dy4 & _).
  rewrite Eb in E. unfold shapeOf at 1 in E.
  rewrite Dy1, Dy2, Dy3, Dy4 in E.
  destruct (digit_not_sep y2 Dy2) as (S2 & _).
  destruct (digit_not_sep y3 Dy3) as (S3 & _).
  rewrite S2, S3 in E. cbn in E.
  cbv [formats map In] in Hin.
  destruct Hin as [<-|[<-|[<-|[<-|[]]]]]; vm_compute in E; discriminate E.
Qed.

Lemma fromText_iso y m d :
  0 <= y <= 9999 -> 0 <= m <= 99 -> 0 <= d <= 99 ->
  fromText (isoDate (y, m, d))
  = if validDateb y m d then isoDate (tomorrow (y, m, d)) else fallbackFilterDate.
Proof.
  intros Hy Hm Hd. destruct (validDateb y m d) eqn:V.
  - rewrite (@fromText_parsed _ (str "2006-01-02") (midnightUTC y m d)).
    + rewrite civil_midnightUTC by (apply validDateb_spec, V). reflexivity.
    + left. reflexivity.
    + rewrite Parse_iso, V by assumption. reflexivity.
  - apply fromText_unparsed. intros l [<-|Hl].
    + rewrite Parse_iso, V by assumption. reflexivity.
    + apply formats_fail_iso; assumption.
Qed.


(** *** The year [Parse] returns *)

Lemma atoi_year a b c d y :
  isDigit a = true -> isDigit b = true -> isDigit c = true -> isDigit d = true ->
  atoi [a; b; c; d] = Some y -> 0 <= y <= 9999.
Proof.
  intros Da Db Dc Dd. unfold atoi.
  destruct (digit_not_sep a Da) as (_ & Hm & Hp & _). rewrite Hm, Hp. cbn [orb].
  pose proof (isDigit_code _ Da). pose proof (isDigit_code _ Db).
  pose proof (isDigit_code _ Dc). pose proof (isDigit_code _ Dd).
  rewrite leadingInt_small by (assumption || lia).
  rewrite leadingInt_small by (assumption || unfold digitVal; lia).
  rewrite leadingInt_small by (assumption || unfold digitVal; lia).
  rewrite leadingInt_small by (assumption || unfold digitVal; lia).
  cbn [leadingInt]. intros E; inversion E; subst. unfold digitVal. lia.
Qed.

Definition yearSet (f : fields) : Prop := 0 <= fYear f <= 9999.

Lemma parseChunk_yearSet std value f value' f' :
  yearSet f -> parseChunk std value f = Some (value', f') -> yearSet f'.
Proof.
  intros Hf H. destruct std.
  - destruct (parseChunk_year _ _ H) as (a & b & c & d & -> & Da & Db & Dc & Dd).
    cbn [parseChunk length Nat.ltb Nat.leb firstn skipn] in H.
    rewrite Da in H. cbn [negb orb] in H.
    destruct (atoi [a; b; c; d]) as [year|] eqn:E; inversion H; subst.
    unfold yearSet. cbn [fYear]. exact (@atoi_year a b c d year Da Db Dc Dd E).
  - cbn [parseChunk] in H. destruct (getnum value true) as [[month v]|]; [|discriminate].
    destruct ((month <=? 0) || (12 <? month)); inversion H; subst. exact Hf.
  - cbn [parseChunk] in H. destruct (getnum value false) as [[month v]|]; [|discriminate].
    destruct ((month <=? 0) || (12 <? month)); inversion H; subst. exact Hf.
  - cbn [parseChunk] in H. destruct (getnum value true) as [[day v]|]; inversion H; subst. exact Hf.
  - cbn [parseChunk] in H. destruct (getnum value false) as [[day v]|]; inversion H; subst. exact Hf.
  - cbn [parseChunk] in H.
    destruct (lookup shortMonthNames 0 value) as [[month v]|]; inversion H; subst.
    exact Hf.
Qed.

Lemma parseLoop_yearSet fuel layout value f f' :
  yearSet f -> parseLoop fuel layout value f = Some f' -> yearSet f'.
Proof.
  revert layout value f. induction fuel as [|fuel IH]; intros layout value f Hf H;
    cbn [parseLoop] in H; [discriminate|].
  destruct (nextStdChunk layout) as [prefix std].
  destruct (skip value prefix) as [value1|]; [|discriminate].
  destruct std as [[std suffix]|].
  - destruct (parseChunk std value1 f) as [[value2 f2]|] eqn:E; [|discriminate].
    eapply IH; [|exact H]. eapply parseChunk_yearSet; eassumption.
  - destruct value1; inversion H; subst. exact Hf.
Qed.

(** A successful [Parse] returns midnight UTC of a date of the calendar in
    the years 0 to 9999. *)
Lemma Parse_range layout value t :
  Parse layout value = Some t ->
  exists y m d, validDate y m d /\ 0 <= y <= 9999 /\ t = midnightUTC y m d.
Proof.
  unfold Parse. intros H.
  destruct (parseLoop (S (length layout)) layout value (mkFields 0 (-1) (-1)))
    as [f|] eqn:E; [|discriminate].
  assert (Hm : monthSet f).
  { eapply parseLoop_monthSet; [|exact E]. left. reflexivity. }
  assert (Hy : yearSet f).
  { eapply parseLoop_yearSet; [|exact E]. unfold yearSet. cbn [fYear]. lia. }
  set (month := if fMonth f <? 0 then 1 else fMonth f) in *.
  set (day := if fDay f <? 0 then 1 else fDay f) in *.
  destruct (Z.ltb_spec day 1); cbn [orb] in H; [discriminate|].
  destruct (Z.gtb_spec day (daysIn month (fYear f))); inversion H; subst.
  exists (fYear f), month, day. split; [|split; [exact Hy|reflexivity]].
  split; [|lia]. unfold month. destruct Hm as [->|Hm]; [cbn; lia|].
  destruct (Z.ltb_spec (fMonth f) 0); lia.
Qed.

Lemma tryFormats_some fs dateStr d :
  tryFormats fs dateStr = Some d ->
  exists layout t, In layout fs /\ Parse layout dateStr = Some t
    /\ d = Format (AddDate t 0 0 1) (str "2006-01-02").
Proof.
  induction fs as [|l fs IH]; cbn [tryFormats]; [discriminate|].
  destruct (Parse l dateStr) as [t|] eqn:E.
  - intros H; inversion H; subst. exists l, t. repeat split; [left; reflexivity|exact E].
  - intros H. destruct (IH H) as (l' & t & Hin & HP & ->).
    exists l', t. repeat split; [right; exact Hin|exact HP].
Qed.

(** The filter date worked out from a text is the fallback date or the day
    after a date of the years 0 to 9999. *)
Lemma fromText_cases dateStr :
  fromText dateStr = fallbackFilterDate
  \/ exists y m d, validDate y m d /\ 0 <= y <= 9999
       /\ (exists layout, In layout allLayouts
             /\ Parse layout dateStr = Some (midnightUTC y m d))
       /\ fromText dateStr = isoDate (tomorrow (y, m, d)).
Proof.
  unfold fromText.
  destruct (Parse (str "2006-01-02") dateStr) as [t|] eqn:E.
  - right. destruct (Parse_range _ _ E) as (y & m & d & V & Hy & ->).
    exists y, m, d. split; [exact V|]. split; [exact Hy|]. split.
    + exists (str "2006-01-02"). split; [left; reflexivity|exact E].
    + rewrite (nextDay_of_Parse _ _ E), civil_midnightUTC by exact V.
      apply formatDate_iso.
  - destruct (tryFormats formats dateStr) as [d0|] eqn:T; [|left; reflexivity].
    right. destruct (tryFormats_some _ _ T) as (l & t & Hin & HP & ->).
    destruct (Parse_range _ _ HP) as (y & m & d & V & Hy & ->).
    exists y, m, d. split; [exact V|]. split; [exact Hy|]. split.
    + exists l. split; [right; exact Hin|exact HP].
    + rewrite (nextDay_of_Parse _ _ HP), civil_midnightUTC by exact V.
      apply formatDate_iso.
Qed.

Lemma dynamicFilterDate_cases rows :
  dynamicFilterDate rows = fallbackFilterDate
  \/ exists init cell rest, rows = init ++ [cell :: rest] /\ cell <> CNil
       /\ dynamicFilterDate rows = fromText (TrimSpace (sprintV cell)).
Proof.
  destruct (rev rows) as [|lastRow front] eqn:E.
  - left. unfold dynamicFilterDate. rewrite E. reflexivity.
  - assert (Hrows : rows = rev front ++ [lastRow]).
    { rewrite <- (rev_involutive rows), E. reflexivity. }
    destruct lastRow as [|cell rest].
    + left. unfold dynamicFilterDate. rewrite E. reflexivity.
    + destruct (Cell_nil_dec cell) as [->|Hc].
      * left. unfold dynamicFilterDate. rewrite E. reflexivity.
      * right. exists (rev front), cell, rest. split; [exact Hrows|].
        split; [exact Hc|]. rewrite Hrows, dynamicFilterDate_last.
        apply dynamicFilterDate_cell, Hc.
Qed.

Lemma tomorrow_year y m d :
  validDate y m d ->
  let '(y', m', d') := tomorrow (y, m, d) in
  validDate y' m' d' /\ (y' = y \/ (y' = y + 1 /\ m' = 1 /\ d' = 1)).
Proof.
  intros V. pose proof (tomorrow_spec V) as T. unfold tomorrow in *.
  destruct (d <? daysIn m y); [split; [apply T|left; reflexivity]|].
  destruct (m <? 12); [split; [apply T|left; reflexivity]|].
  split; [apply T|right; repeat split].
Qed.


(** *** Numbers in the date column *)












Lemma last_digit digits :
  forallb isDigit digits = true -> digits <> [] ->
  forall front, exists c s, rev (front ++ digits) = c :: s /\ isDigit c = true.
Proof.
  intros Hd Hne front. rewrite rev_app_distr.
  destruct (rev digits) as [|c s] eqn:E.
  - exfalso. apply Hne. rewrite <- (rev_involutive digits), E. reflexivity.
  - exists c, (s ++ rev front). split; [reflexivity|].
    rewrite forallb_forall in Hd. apply Hd, in_rev. rewrite E. left. reflexivity.
Qed.




(** *** The date of a time *)

Lemma civil_valid t y m d : civil t = (y, m, d) -> validDate y m d.
Proof.
  unfold civil. intros E.
  pose proof (absDate_sound (abs t / secondsPerDay)) as H.
  rewrite E in H. apply H.
Qed.

Lemma validDate_two_digits y m d :
  validDate y m d -> 0 <= m <= 99 /\ 0 <= d <= 99.
Proof.
  intros [Hm Hd]. rewrite daysIn_daysInMonth in Hd.
  pose proof (proj2 (monthStart_succ (isLeap y) Hm)). lia.
Qed.

Lemma Parse_written t y m d :
  civil t = (y, m, d) -> 0 <= y <= 9999 ->
  Parse (str "2006-01-02") (Format t (str "2006-01-02")) = Some (midnightUTC y m d).
Proof.
  intros E Hy. pose proof (civil_valid _ E) as V.
  destruct (validDate_two_digits V) as [Hm Hd].
  rewrite Format_formatDate, formatDate_iso, E, Parse_iso by assumption.
  apply validDateb_spec in V. rewrite V. reflexivity.
Qed.

(** X1.  The date [appendToSheet] writes for a time of the years 0 to 9999 is
    the text [YYYY-MM-DD] of its date in its own zone; [time.Parse] reads it
    back, under the primary format, as midnight UTC of the same date, and no
    alternative format reads it. *)
Theorem written_date_is_read_back :
  forall (t : Time) (y m d : Z),
    civil t = (y, m, d) -> 0 <= y <= 9999 ->
    Format t (str "2006-01-02") = isoDate (y, m, d)
    /\ Parse (str "2006-01-02") (Format t (str "2006-01-02"))
       = Some (GoTime.Date y m d 0 0 0 0 UTC)
    /\ civil (GoTime.Date y m d 0 0 0 0 UTC) = (y, m, d)
    /\ Clock (GoTime.Date y m d 0 0 0 0 UTC) = (0, 0, 0)
    /\ forall layout, In layout formats ->
         Parse layout (Format t (str "2006-01-02")) = None.
Proof.
  intros t y m d E Hy. pose proof (civil_valid _ E) as V.
  destruct (validDate_two_digits V) as [Hm Hd].
  split; [rewrite Format_formatDate, formatDate_iso, E; reflexivity|].
  split; [exact (Parse_written _ E Hy)|].
  split; [exact (civil_midnightUTC V)|].
  split; [exact (Clock_midnightUTC _ _ (proj1 V))|].
  intros layout Hin. rewrite Format_formatDate, formatDate_iso, E.
  apply formats_fail_iso; assumption.
Qed.

Lemma written_date_is_read_back_witness :
  civil (GoTime.Date 2024 2 29 23 30 0 0 (-25200)) = (2024, 2, 29)
  /\ Format (GoTime.Date 2024 2 29 23 30 0 0 (-25200)) (str "2006-01-02")
     = str "2024-02-29"
  /\ Parse (str "2006-01-02")
       (Format (GoTime.Date 2024 2 29 23 30 0 0 (-25200)) (str "2006-01-02"))
     = Some (GoTime.Date 2024 2 29 0 0 0 0 UTC).
Proof.
  split; [vm_compute; reflexivity|].
  pose proof (@written_date_is_read_back
                (GoTime.Date 2024 2 29 23 30 0 0 (-25200)) 2024 2 29
                ltac:(vm_compute; reflexivity) ltac:(lia)) as H.
  split; [exact (proj1 H)|exact (proj1 (proj2 H))].
Defined.

(** X2.  A last row whose first cell is a text written [YYYY-MM-DD]: the filter
    date is the day after when the text names a day of the calendar, and the
    fallback date when it does not; a day that its month does not have is
    not carried into the next month. *)
Theorem date_cell_must_name_a_real_day :
  forall (init : list Row) (rest : Row) (y m d : Z),
    0 <= y <= 9999 -> 0 <= m <= 99 -> 0 <= d <= 99 ->
    (validDate y m d ->
     dynamicFilterDate (init ++ [CString (isoDate (y, m, d)) :: rest])
     = isoDate (tomorrow (y, m, d)))
    /\ (~ validDate y m d ->
        dynamicFilterDate (init ++ [CString (isoDate (y, m, d)) :: rest])
        = fallbackFilterDate).
Proof.
  intros init rest y m d Hy Hm Hd.
  rewrite dynamicFilterDate_last, dynamicFilterDate_cell by discriminate.
  cbn [sprintV]. rewrite TrimSpace_iso, fromText_iso by assumption.
  destruct (validDateb y m d) eqn:V.
  - split; [reflexivity|]. intros H. exfalso. apply H, validDateb_spec, V.
  - split; [|reflexivity]. intros H. apply validDateb_spec in H. congruence.
Qed.

Lemma date_cell_must_name_a_real_day_witness :
  dynamicFilterDate
    ([[CString (str "2025-02-27"); CInt 4]]
     ++ [CString (isoDate (2025, 2, 30)) :: [CInt 5]])
  = fallbackFilterDate
  /\ dynamicFilterDate
       ([[CString (str "2025-02-27"); CInt 4]]
        ++ [CString (isoDate (2025, 2, 28)) :: [CInt 5]])
     = str "2025-03-01".
Proof.
  split.
  - apply (@date_cell_must_name_a_real_day
             [[CString (str "2025-02-27"); CInt 4]] [CInt 5] 2025 2 30);
      try lia.
    unfold validDate. vm_compute. intros [_ [_ H]]. apply H. reflexivity.
  - apply (@date_cell_must_name_a_real_day
             [[CString (str "2025-02-27"); CInt 4]] [CInt 5] 2025 2 28);
      try lia.
    unfold validDate. vm_compute. repeat split; discriminate.
Defined.

(** X3.  Whatever the sheet holds, the filter date is a day of the calendar
    written [YYYY-MM-DD]: the fallback date, or the day after a date of the
    years 0 to 9999.  [connectToYahooIMAP] reads it back with [time.Parse],
    as that day, unless it is the day after December 31, 9999, which has a
    year of five digits and is not read. *)
Theorem filter_date_is_a_calendar_date :
  forall rows : list Row,
  exists y m d : Z,
    validDate y m d /\ 0 <= y <= 10000
    /\ dynamicFilterDate rows = isoDate (y, m, d)
    /\ (y <= 9999 ->
        Parse (str "2006-01-02") (dynamicFilterDate rows)
        = Some (GoTime.Date y m d 0 0 0 0 UTC))
    /\ (y = 10000 ->
        m = 1 /\ d = 1
        /\ Parse (str "2006-01-02") (dynamicFilterDate rows) = None).
Proof.
  intros rows.
  assert (Fallback : dynamicFilterDate rows = fallbackFilterDate ->
    exists y m d : Z,
      validDate y m d /\ 0 <= y <= 10000
      /\ dynamicFilterDate rows = isoDate (y, m, d)
      /\ (y <= 9999 ->
          Parse (str "2006-01-02") (dynamicFilterDate rows)
          = Some (GoTime.Date y m d 0 0 0 0 UTC))
      /\ (y = 10000 ->
          m = 1 /\ d = 1
          /\ Parse (str "2006-01-02") (dynamicFilterDate rows) = None)).
  { intros ->. exists 2025, 5, 21.
    split; [unfold validDate; vm_compute; repeat split; discriminate|].
    split; [lia|]. split; [vm_compute; reflexivity|].
    split; [intros _; vm_compute; reflexivity|]. intros H. discriminate H. }
  destruct (dynamicFilterDate_cases rows)
    as [F|(init & cell & rest & -> & Hc & E)]; [exact (Fallback F)|].
  destruct (fromText_cases (TrimSpace (sprintV cell)))
    as [F|(y & m & d & V & Hy & _ & T)].
  { apply Fallback. rewrite E. exact F. }
  rewrite E, T. pose proof (tomorrow_year V) as Y.
  destruct (tomorrow (y, m, d)) as [[y' m'] d'] eqn:Et.
  destruct Y as [V' Y]. exists y', m', d'.
  split; [exact V'|]. split; [lia|]. split; [reflexivity|].
  destruct (validDate_two_digits V') as [Hm' Hd']. split.
  - intros Hy'. rewrite Parse_iso by (assumption || lia).
    apply validDateb_spec in V'. rewrite V'. reflexivity.
  - intros ->. destruct Y as [Y|(Y & -> & ->)]; [lia|].
    split; [reflexivity|]. split; [reflexivity|]. vm_compute. reflexivity.
Qed.

(** X4.  Of the sheet, the filter date depends on the first cell of the last row
    and on nothing else. *)
Theorem only_the_last_date_cell_counts :
  forall (init : list Row) (cell : Cell) (rest : Row),
    dynamicFilterDate (init ++ [cell :: rest]) = dynamicFilterDate [[cell]].
Proof.
  intros init cell rest. rewrite dynamicFilterDate_last.
  destruct cell; reflexivity.
Qed.

Lemma printable_plain c : printable c = true -> plain c.
Proof.
  unfold printable. rewrite andb_true_iff, !Z.leb_le. intros [H1 H2].
  split; [lia|]. unfold asciiSpace. apply orb_false_iff. split.
  - apply andb_false_iff. right. apply Z.leb_gt. lia.
  - apply Z.eqb_neq. lia.
Qed.

(** X5.  Spaces, tabs and line ends around the text of the date cell make no
    difference to the filter date. *)
Theorem white_space_around_date_is_ignored :
  forall (init : list Row) (rest : Row) (ws1 ws2 s : gostring),
    forallb asciiSpace ws1 = true -> forallb asciiSpace ws2 = true ->
    printableEnds s = true ->
    TrimSpace (ws1 ++ s ++ ws2) = s
    /\ dynamicFilterDate (init ++ [CString (ws1 ++ s ++ ws2) :: rest])
       = dynamicFilterDate [[CString s]].
Proof.
  intros init rest ws1 ws2 s H1 H2 Hs. unfold printableEnds in Hs.
  destruct s as [|c1 s1]; [discriminate|].
  destruct (rev (c1 :: s1)) as [|c2 s2] eqn:Er; [discriminate|].
  apply andb_true_iff in Hs. destruct Hs as [P1 P2].
  apply printable_plain in P1, P2.
  pose proof (@TrimSpace_between ws1 ws2 (c1 :: s1) c1 s1 c2 s2 H1 H2 eq_refl
                Er P1 P2) as T.
  split; [exact T|].
  rewrite dynamicFilterDate_last, !dynamicFilterDate_cell by discriminate.
  cbn [sprintV]. rewrite T.
  rewrite (@TrimSpace_plain (c1 :: s1) c1 s1 c2 s2 eq_refl Er P1 P2).
  reflexivity.
Qed.

Lemma white_space_around_date_is_ignored_witness :
  dynamicFilterDate
    ([] ++ [CString ([" "; "009"]%char ++ str "Jul 20, 2025" ++ ["010"%char])
            :: [CInt 3]])
  = dynamicFilterDate [[CString (str "Jul 20, 2025")]]
  /\ dynamicFilterDate [[CString (str "Jul 20, 2025")]] = str "2025-07-21".
Proof.
  split; [|vm_compute; reflexivity].
  apply (@white_space_around_date_is_ignored [] [CInt 3] [" "; "009"]%char
           ["010"%char] (str "Jul 20, 2025"));
    vm_compute; reflexivity.
Defined.

(** *** Floating-point numbers in the date column *)











End RoundTripFacts.

Module LayoutFacts.
Import GoTime GoTimeFacts ParseFacts WatermarkFacts GoStrings Sheets Zillow Notions
       RunNotions RoundTripFacts.

(** *** What [Format] writes under each layout *)

Lemma formatDate_us y m d :
  formatDate (str "1/2/2006") (y, m, d)
  = appendInt m 0 ++ str "/" ++ appendInt d 0 ++ str "/" ++ appendInt y 4.
Proof.
  unfold formatDate. cbv -[appendInt app]. rewrite app_nil_r. reflexivity.
Qed.

Lemma formatDate_us_padded y m d :
  formatDate (str "01/02/2006") (y, m, d)
  = appendInt m 2 ++ str "/" ++ appendInt d 2 ++ str "/" ++ appendInt y 4.
Proof.
  unfold formatDate. cbv -[appendInt app]. rewrite app_nil_r. reflexivity.
Qed.

Lemma formatDate_slash y m d :
  formatDate (str "2006/01/02") (y, m, d)
  = appendInt y 4 ++ str "/" ++ appendInt m 2 ++ str "/" ++ appendInt d 2.
Proof.
  unfold formatDate. cbv -[appendInt app]. rewrite app_nil_r. reflexivity.
Qed.

Lemma formatDate_named y m d :
  formatDate (str "Jan 2, 2006") (y, m, d)
  = nth (Z.to_nat (m - 1)) shortMonthNames []
    ++ str " " ++ appendInt d 0 ++ str ", " ++ appendInt y 4.
Proof.
  unfold formatDate.
  change (formatLoop (S (length (str "Jan 2, 2006"))) (str "Jan 2, 2006") (y, m, d))
    with ([] ++ formatChunk stdMonth (y, m, d)
          ++ str " " ++ formatChunk stdDay (y, m, d)
          ++ str ", " ++ formatChunk stdLongYear (y, m, d) ++ []).
  cbn [formatChunk app]. rewrite app_nil_r. reflexivity.
Qed.

(** *** Numbers without padding *)

Lemma appendInt_short n :
  0 <= n <= 99 ->
  appendInt n 0
  = if n <? 10 then [digitChar n] else [digitChar (n / 10); digitChar (n mod 10)].
Proof.
  intros Hn. unfold appendInt. rewrite Z.abs_eq by lia.
  destruct (Z.ltb_spec n 0); [lia|].
  rewrite utoa_four by lia.
  destruct (Z.ltb_spec n 10); [reflexivity|].
  destruct (Z.ltb_spec n 100); [reflexivity|lia].
Qed.

(** A number of one or two digits is read back up to the byte after it. *)
Lemma getnum_short n c rest :
  0 <= n <= 99 -> isDigit c = false ->
  getnum (appendInt n 0 ++ c :: rest) false = Some (n, c :: rest)
  /\ exists a s, appendInt n 0 = a :: s /\ isDigit a = true.
Proof.
  intros Hn Hc. rewrite appendInt_short by exact Hn.
  destruct (Z.ltb_spec n 10).
  - destruct (@digitChar_spec n ltac:(lia)) as [D V].
    split; [|exists (digitChar n), []; split; [reflexivity|exact D]].
    cbn [app]. unfold getnum. rewrite D, Hc, V. reflexivity.
  - assert (H1 : 0 <= n / 10 <= 9) by (Z.div_mod_to_equations; lia).
    assert (H2 : 0 <= n mod 10 <= 9) by (Z.div_mod_to_equations; lia).
    destruct (digitChar_spec H1) as [D1 V1]. destruct (digitChar_spec H2) as [D2 V2].
    split; [|exists (digitChar (n / 10)), [digitChar (n mod 10)];
             split; [reflexivity|exact D1]].
    cbn [app]. rewrite (@getnum_two _ _ _ _ D1 D2), V1, V2.
    do 2 f_equal. Z.div_mod_to_equations. lia.
Qed.

Lemma getnum_padded n rest fixed :
  0 <= n <= 99 ->
  getnum (appendInt n 2 ++ rest) fixed = Some (n, rest)
  /\ exists a s, appendInt n 2 = a :: s /\ isDigit a = true.
Proof.
  intros Hn. destruct (twoDigits Hn) as (a & b & -> & Da & Db & V).
  split; [|exists a, [b]; split; [reflexivity|exact Da]].
  cbn [app]. rewrite (@getnum_two _ _ _ _ Da Db), V. reflexivity.
Qed.

Lemma year_chunk y rest f :
  0 <= y <= 9999 ->
  parseChunk stdLongYear (appendInt y 4 ++ rest) f
  = Some (rest, mkFields y (fMonth f) (fDay f))
  /\ exists a s, appendInt y 4 = a :: s /\ isDigit a = true.
Proof.
  intros Hy. destruct (yearText Hy) as (a & b & c & d & -> & Da & _ & _ & _ & A).
  split; [|exists a, [b; c; d]; split; [reflexivity|exact Da]].
  cbn [app]. apply parseChunk_year_digits; assumption.
Qed.

(** *** Literal text between the numbers *)

Lemma skip_slash rest : skip ("/"%char :: rest) (str "/") = Some rest.
Proof. reflexivity. Qed.

Lemma skip_space c rest :
  (c =? " ")%char = false -> skip (" "%char :: c :: rest) (str " ") = Some (c :: rest).
Proof. intros H. unfold skip. cbn. rewrite H. reflexivity. Qed.

Lemma skip_comma c rest :
  (c =? " ")%char = false ->
  skip (","%char :: " "%char :: c :: rest) (str ", ") = Some (c :: rest).
Proof. intros H. unfold skip. cbn. rewrite H. reflexivity. Qed.

Lemma slash_not_digit : isDigit "/" = false.
Proof. reflexivity. Qed.

Lemma comma_not_digit : isDigit "," = false.
Proof. reflexivity. Qed.

(** *** Names of months *)

Lemma lookup_name m rest :
  1 <= m <= 12 ->
  lookup shortMonthNames 0 (nth (Z.to_nat (m - 1)) shortMonthNames [] ++ rest)
  = Some (m - 1, rest)
  /\ exists a s, nth (Z.to_nat (m - 1)) shortMonthNames [] = a :: s
                 /\ RunNotions.printable a = true.
Proof.
  intros Hm. month_cases m; (split; [reflexivity|]); do 2 eexists;
    (split; [reflexivity|reflexivity]).
Qed.

(** *** Reading back *)

Lemma Parse_finish layout value y m d :
  parseLoop (S (length layout)) layout value (mkFields 0 (-1) (-1))
  = Some (mkFields y m d) ->
  validDate y m d -> Parse layout value = Some (midnightUTC y m d).
Proof.
  intros H [Hm Hd]. unfold Parse. rewrite H. cbn [fYear fMonth fDay].
  destruct (Z.ltb_spec m 0); [lia|]. destruct (Z.ltb_spec d 0); [lia|].
  destruct (Z.ltb_spec d 1); [lia|].
  destruct (Z.gtb_spec d (daysIn m y)); [lia|]. reflexivity.
Qed.

Lemma month_in_range m :
  1 <= m <= 12 -> (m <=? 0) || (12 <? m) = false.
Proof.
  intros H. destruct (Z.leb_spec m 0); [lia|]. destruct (Z.ltb_spec 12 m); [lia|].
  reflexivity.
Qed.

Lemma zeroMonth_chunk m rest f :
  1 <= m <= 12 ->
  parseChunk stdZeroMonth (appendInt m 2 ++ rest) f
  = Some (rest, mkFields (fYear f) m (fDay f)).
Proof.
  intros Hm. cbn [parseChunk].
  assert (Hm' : 0 <= m <= 99) by lia.
  rewrite (proj1 (@getnum_padded m _ _ Hm')), (month_in_range Hm). reflexivity.
Qed.

Lemma zeroDay_chunk d rest f :
  0 <= d <= 99 ->
  parseChunk stdZeroDay (appendInt d 2 ++ rest) f
  = Some (rest, mkFields (fYear f) (fMonth f) d).
Proof.
  intros Hd. cbn [parseChunk]. rewrite (proj1 (@getnum_padded d _ _ Hd)). reflexivity.
Qed.

Lemma numMonth_chunk m c rest f :
  1 <= m <= 12 -> isDigit c = false ->
  parseChunk stdNumMonth (appendInt m 0 ++ c :: rest) f
  = Some (c :: rest, mkFields (fYear f) m (fDay f)).
Proof.
  intros Hm Hc. cbn [parseChunk].
  assert (Hm' : 0 <= m <= 99) by lia.
  rewrite (proj1 (@getnum_short m c rest Hm' Hc)), (month_in_range Hm).
  reflexivity.
Qed.

Lemma day_chunk d c rest f :
  0 <= d <= 99 -> isDigit c = false ->
  parseChunk stdDay (appendInt d 0 ++ c :: rest) f
  = Some (c :: rest, mkFields (fYear f) (fMonth f) d).
Proof.
  intros Hd Hc. cbn [parseChunk].
  rewrite (proj1 (@getnum_short d c rest Hd Hc)). reflexivity.
Qed.

Lemma month_chunk m rest f :
  1 <= m <= 12 ->
  parseChunk stdMonth (nth (Z.to_nat (m - 1)) shortMonthNames [] ++ rest) f
  = Some (rest, mkFields (fYear f) m (fDay f)).
Proof.
  intros Hm. cbn [parseChunk]. rewrite (proj1 (@lookup_name m _ Hm)).
  replace (m - 1 + 1) with m by ring. reflexivity.
Qed.

Lemma Parse_slash y m d :
  validDate y m d -> 0 <= y <= 9999 ->
  Parse (str "2006/01/02") (formatDate (str "2006/01/02") (y, m, d))
  = Some (midnightUTC y m d).
Proof.
  intros V Hy. destruct (validDate_two_digits V) as [Hm Hd].
  apply Parse_finish; [|exact V].
  rewrite parseLoop_steps by (cbv [allLayouts formats map In]; tauto).
  change (layoutSteps (str "2006/01/02"))
    with [([], stdLongYear); (str "/", stdZeroMonth); (str "/", stdZeroDay)].
  rewrite formatDate_slash, <- (app_nil_r (appendInt d 2)).
  change (str "/" ++ appendInt m 2 ++ str "/" ++ appendInt d 2 ++ [])
    with ("/"%char :: appendInt m 2 ++ "/"%char :: appendInt d 2 ++ []).
  cbn [parseSteps]. rewrite skip_nil.
  rewrite (proj1 (@year_chunk y _ _ Hy)), skip_slash.
  rewrite (@zeroMonth_chunk m _ _ (proj1 V)), skip_slash.
  rewrite (@zeroDay_chunk d _ _ Hd). reflexivity.
Qed.

Lemma Parse_us_padded y m d :
  validDate y m d -> 0 <= y <= 9999 ->
  Parse (str "01/02/2006") (formatDate (str "01/02/2006") (y, m, d))
  = Some (midnightUTC y m d).
Proof.
  intros V Hy. destruct (validDate_two_digits V) as [Hm Hd].
  apply Parse_finish; [|exact V].
  rewrite parseLoop_steps by (cbv [allLayouts formats map In]; tauto).
  change (layoutSteps (str "01/02/2006"))
    with [([], stdZeroMonth); (str "/", stdZeroDay); (str "/", stdLongYear)].
  rewrite formatDate_us_padded, <- (app_nil_r (appendInt y 4)).
  change (str "/" ++ appendInt d 2 ++ str "/" ++ appendInt y 4 ++ [])
    with ("/"%char :: appendInt d 2 ++ "/"%char :: appendInt y 4 ++ []).
  cbn [parseSteps]. rewrite skip_nil.
  rewrite (@zeroMonth_chunk m _ _ (proj1 V)), skip_slash.
  rewrite (@zeroDay_chunk d _ _ Hd), skip_slash.
  rewrite (proj1 (@year_chunk y _ _ Hy)). reflexivity.
Qed.

Lemma Parse_us y m d :
  validDate y m d -> 0 <= y <= 9999 ->
  Parse (str "1/2/2006") (formatDate (str "1/2/2006") (y, m, d))
  = Some (midnightUTC y m d).
Proof.
  intros V Hy. destruct (validDate_two_digits V) as [Hm Hd].
  apply Parse_finish; [|exact V].
  rewrite parseLoop_steps by (cbv [allLayouts formats map In]; tauto).
  change (layoutSteps (str "1/2/2006"))
    with [([], stdNumMonth); (str "/", stdDay); (str "/", stdLongYear)].
  rewrite formatDate_us, <- (app_nil_r (appendInt y 4)).
  change (str "/" ++ appendInt d 0 ++ str "/" ++ appendInt y 4 ++ [])
    with ("/"%char :: appendInt d 0 ++ "/"%char :: appendInt y 4 ++ []).
  cbn [parseSteps]. rewrite skip_nil.
  rewrite (@numMonth_chunk m "/"%char _ _ (proj1 V) slash_not_digit), skip_slash.
  rewrite (@day_chunk d "/"%char _ _ Hd slash_not_digit), skip_slash.
  rewrite (proj1 (@year_chunk y _ _ Hy)). reflexivity.
Qed.

Lemma Parse_named y m d :
  validDate y m d -> 0 <= y <= 9999 ->
  Parse (str "Jan 2, 2006") (formatDate (str "Jan 2, 2006") (y, m, d))
  = Some (midnightUTC y m d).
Proof.
  intros V Hy. destruct (validDate_two_digits V) as [Hm Hd].
  apply Parse_finish; [|exact V].
  rewrite parseLoop_steps by (cbv [allLayouts formats map In]; tauto).
  change (layoutSteps (str "Jan 2, 2006"))
    with [([], stdMonth); (str " ", stdDay); (str ", ", stdLongYear)].
  rewrite formatDate_named, <- (app_nil_r (appendInt y 4)).
  cbn [parseSteps]. rewrite skip_nil.
  rewrite (@month_chunk m _ _ (proj1 V)).
  destruct (@getnum_short d ","%char [] Hd comma_not_digit)
    as [_ (a & s & Ea & Da)].
  destruct (@year_chunk y [] (mkFields 0 m d) Hy) as [Y (b & t & Eb & Db)].
  change (str " " ++ appendInt d 0 ++ str ", " ++ appendInt y 4 ++ [])
    with (" "%char :: appendInt d 0 ++ ","%char :: " "%char :: appendInt y 4 ++ []).
  pose proof (@day_chunk d ","%char (" "%char :: appendInt y 4 ++ [])
                (mkFields 0 m (-1)) Hd comma_not_digit) as Dc.
  revert Dc. rewrite Ea. cbn [app]. intros Dc.
  rewrite skip_space by (apply digit_not_sep, Da).
  cbn [fYear fMonth fDay]. rewrite Dc. cbn [fYear fMonth fDay].
  revert Y. rewrite Eb. cbn [app]. intros Y.
  rewrite skip_comma by (apply digit_not_sep, Db).
  cbn [fYear fMonth fDay] in Y. rewrite Y. reflexivity.
Qed.

(** *** The text of a date has no white space at its ends *)

Lemma TrimSpace_ends s c1 s1 front digits :
  s = c1 :: s1 -> plain c1 -> s = front ++ digits ->
  forallb isDigit digits = true -> digits <> [] -> TrimSpace s = s.
Proof.
  intros E1 P1 E2 Hd Hne.
  destruct (last_digit Hd Hne front) as (c2 & s2 & Er & D2).
  rewrite <- E2 in Er.
  exact (@TrimSpace_plain s c1 s1 c2 s2 E1 Er P1 (digit_plain _ D2)).
Qed.

Lemma year_digits y :
  0 <= y <= 9999 -> forallb isDigit (appendInt y 4) = true /\ appendInt y 4 <> [].
Proof.
  intros Hy. destruct (yearText Hy) as (a & b & c & d & -> & Da & Db & Dc & Dd & _).
  cbn [forallb]. rewrite Da, Db, Dc, Dd. split; [reflexivity|discriminate].
Qed.

Lemma two_digits n :
  0 <= n <= 99 -> forallb isDigit (appendInt n 2) = true /\ appendInt n 2 <> [].
Proof.
  intros Hn. destruct (twoDigits Hn) as (a & b & -> & Da & Db & _).
  cbn [forallb]. rewrite Da, Db. split; [reflexivity|discriminate].
Qed.

Lemma TrimSpace_formatDate layout y m d :
  In layout allLayouts -> validDate y m d -> 0 <= y <= 9999 ->
  TrimSpace (formatDate layout (y, m, d)) = formatDate layout (y, m, d).
Proof.
  intros Hin V Hy. destruct (validDate_two_digits V) as [Hm Hd].
  destruct (year_digits Hy) as [Yd Yne]. destruct (two_digits Hd) as [Dd Dne].
  cbv [allLayouts formats map In] in Hin.
  destruct Hin as [<-|[<-|[<-|[<-|[<-|[]]]]]].
  - rewrite formatDate_iso. apply TrimSpace_iso; assumption.
  - rewrite formatDate_us.
    destruct (@getnum_short m "/"%char [] Hm slash_not_digit) as [_ (a & s & Ea & Da)].
    eapply (@TrimSpace_ends _ a _ (appendInt m 0 ++ str "/" ++ appendInt d 0 ++ str "/")
              (appendInt y 4));
      [rewrite Ea; reflexivity|apply digit_plain, Da| |exact Yd|exact Yne].
    rewrite <- !app_assoc. reflexivity.
  - rewrite formatDate_us_padded.
    destruct (@getnum_padded m [] true Hm) as [_ (a & s & Ea & Da)].
    eapply (@TrimSpace_ends _ a _ (appendInt m 2 ++ str "/" ++ appendInt d 2 ++ str "/")
              (appendInt y 4));
      [rewrite Ea; reflexivity|apply digit_plain, Da| |exact Yd|exact Yne].
    rewrite <- !app_assoc. reflexivity.
  - rewrite formatDate_slash.
    destruct (@year_chunk y [] (mkFields 0 0 0) Hy) as [_ (a & s & Ea & Da)].
    eapply (@TrimSpace_ends _ a _ (appendInt y 4 ++ str "/" ++ appendInt m 2 ++ str "/")
              (appendInt d 2));
      [rewrite Ea; reflexivity|apply digit_plain, Da| |exact Dd|exact Dne].
    rewrite <- !app_assoc. reflexivity.
  - rewrite formatDate_named.
    destruct (@lookup_name m [] (proj1 V)) as [_ (a & s & Ea & Pa)].
    eapply (@TrimSpace_ends _ a _
              (nth (Z.to_nat (m - 1)) shortMonthNames [] ++ str " "
               ++ appendInt d 0 ++ str ", ")
              (appendInt y 4));
      [rewrite Ea; reflexivity|apply printable_plain, Pa| |exact Yd|exact Yne].
    rewrite <- !app_assoc. reflexivity.
Qed.

Lemma Parse_formatDate layout y m d :
  In layout allLayouts -> validDate y m d -> 0 <= y <= 9999 ->
  Parse layout (formatDate layout (y, m, d)) = Some (midnightUTC y m d).
Proof.
  intros Hin V Hy. destruct (validDate_two_digits V) as [Hm Hd].
  cbv [allLayouts formats map In] in Hin.
  destruct Hin as [<-|[<-|[<-|[<-|[<-|[]]]]]].
  - rewrite formatDate_iso, Parse_iso by assumption.
    apply validDateb_spec in V. rewrite V. reflexivity.
  - apply Parse_us; assumption.
  - apply Parse_us_padded; assumption.
  - apply Parse_slash; assumption.
  - apply Parse_named; assumption.
Qed.

(** X22.  Each of the five formats reads the dates written in it: for a day of
    the calendar of the years 0 to 9999, the text [Format] writes for it
    under the format is read back by [time.Parse] under that format as
    midnight UTC of that day; and a last row with that text in its first
    cell gives the day after as the filter date. *)
Theorem every_format_reads_its_own_dates :
  forall (layout : gostring) (init : list Row) (rest : Row) (y m d : Z),
    layout = str "2006-01-02" \/ In layout formats ->
    validDate y m d -> 0 <= y <= 9999 ->
    Parse layout (formatDate layout (y, m, d))
    = Some (GoTime.Date y m d 0 0 0 0 UTC)
    /\ dynamicFilterDate (init ++ [CString (formatDate layout (y, m, d)) :: rest])
       = isoDate (tomorrow (y, m, d)).
Proof.
  intros layout init rest y m d Hin V Hy. apply allLayouts_iff in Hin.
  pose proof (Parse_formatDate Hin V Hy) as P.
  split; [exact P|].
  rewrite dynamicFilterDate_last, dynamicFilterDate_cell by discriminate.
  cbn [sprintV]. rewrite (TrimSpace_formatDate Hin V Hy).
  rewrite (fromText_parsed _ Hin P), civil_midnightUTC by exact V. reflexivity.
Qed.

Lemma every_format_reads_its_own_dates_witness :
  formatDate (str "Jan 2, 2006") (2024, 12, 31) = str "Dec 31, 2024"
  /\ dynamicFilterDate
       ([[CString (str "Date"); CString (str "Saves")]]
        ++ [CString (formatDate (str "Jan 2, 2006") (2024, 12, 31)) :: [CInt 9]])
     = str "2025-01-01".
Proof.
  split; [vm_compute; reflexivity|].
  apply (@every_format_reads_its_own_dates (str "Jan 2, 2006")
           [[CString (str "Date"); CString (str "Saves")]] [CInt 9] 2024 12 31).
  - right. cbv [formats map In]. tauto.
  - unfold validDate. vm_compute. repeat split; discriminate.
  - lia.
Defined.

End LayoutFacts.

Module RunFacts.
Import GoTime GoTimeFacts ParseFacts WatermarkFacts RoundTripFacts GoStrings
       Sheets GoSort SortFacts Zillow ExtractFacts PipelineFacts Notions
       RunNotions.

(** *** Sorted lists *)

(** Two sorted arrangements of the same elements are the same list when no
    two different elements are equal in the order. *)
Lemma sorted_perm_unique (A : Type) (less : A -> A -> bool) (l1 : list A) :
  (forall x, less x x = false) ->
  forall l2,
    sortedBy less l1 -> sortedBy less l2 -> Permutation l1 l2 ->
    (forall x y, In x l1 -> In y l1 ->
                 less x y = false -> less y x = false -> x = y) ->
    l1 = l2.
Proof.
  intros Hirr. induction l1 as [|h1 t1 IH]; intros l2 S1 S2 P Hd.
  - apply Permutation_nil in P. subst. reflexivity.
  - destruct l2 as [|h2 t2].
    { apply Permutation_sym, Permutation_nil in P. discriminate. }
    unfold sortedBy in S1, S2.
    apply StronglySorted_inv in S1. destruct S1 as [S1 F1].
    apply StronglySorted_inv in S2. destruct S2 as [S2 F2].
    rewrite Forall_forall in F1, F2.
    assert (H21 : In h2 (h1 :: t1)).
    { eapply Permutation_in; [apply Permutation_sym, P|left; reflexivity]. }
    assert (H12 : In h1 (h2 :: t2)).
    { eapply Permutation_in; [exact P|left; reflexivity]. }
    assert (L21 : less h2 h1 = false).
    { destruct H21 as [<-|H]; [apply Hirr|apply F1, H]. }
    assert (L12 : less h1 h2 = false).
    { destruct H12 as [<-|H]; [apply Hirr|apply F2, H]. }
    assert (E : h1 = h2) by (apply Hd; [left; reflexivity|exact H21|exact L12|exact L21]).
    subst h2. f_equal. apply IH; try assumption.
    + eapply Permutation_cons_inv, P.
    + intros x y Hx Hy. apply Hd; right; assumption.
Qed.

Lemma sorted_last (A : Type) (less : A -> A -> bool) (front : list A) (x : A) :
  sortedBy less (front ++ [x]) -> Forall (fun y => less x y = false) front.
Proof.
  unfold sortedBy. induction front as [|a front IH]; intros H; [constructor|].
  cbn [app] in H. apply StronglySorted_inv in H. destruct H as [H F].
  constructor; [|apply IH, H].
  rewrite Forall_forall in F. apply F, in_or_app. right. left. reflexivity.
Qed.

(** *** What a run leaves in the sheet *)

Lemma withCounts_app extract (l1 l2 : list EmailMessage) :
  withCounts extract (l1 ++ l2) = withCounts extract l1 ++ withCounts extract l2.
Proof. apply map_app. Qed.

Lemma appendToSheet_sheet srv id rng emails :
  sheet (fst (appendToSheet srv id rng emails))
  = if writable srv then sheet srv ++ map rowOf emails else sheet srv.
Proof.
  unfold appendToSheet, ValuesAppend.
  destruct emails as [|e emails].
  - cbn. destruct (writable srv); [rewrite app_nil_r|]; reflexivity.
  - cbn [map length Nat.eqb]. destruct (writable srv); reflexivity.
Qed.

Lemma appendToSheet_flags srv id rng emails :
  readable (fst (appendToSheet srv id rng emails)) = readable srv
  /\ writable (fst (appendToSheet srv id rng emails)) = writable srv.
Proof.
  unfold appendToSheet, ValuesAppend.
  destruct emails as [|e emails]; [split; reflexivity|].
  cbn [map length Nat.eqb]. destruct (writable srv); split; reflexivity.
Qed.

Lemma getSheetData_ok srv id rng rows :
  getSheetData srv id rng = (rows, None) -> readable srv = true /\ rows = sheet srv.
Proof.
  unfold getSheetData, ValuesGet. destruct (readable srv); [|discriminate].
  intros H. inversion H. split; reflexivity.
Qed.

(** The row of an email: the date of its time in its zone, and its count. *)
Lemma rowOf_iso email :
  rowOf email = [CString (isoDate (civil (Date email))); CInt (ZillowSaves email)].
Proof. unfold rowOf. rewrite Format_formatDate, formatDate_iso. reflexivity. Qed.

(** What [doZillow] returns, in every case. *)
Lemma doZillow_returned {tables : UnicodeTables} {sorter : SliceSorter}
    config w err srv batch :
  doZillow config w = Returned err srv batch ->
  (err <> None /\ srv = service w /\ batch = [])
  \/ exists emails,
       mailbox w emailSubject (dynamicFilterDate (sheet (service w)))
       = (emails, None)
       /\ err = None
       /\ batch = withCounts extractZillowSavesCount (Slice dateBefore emails)
       /\ srv = fst (appendToSheet (service w) (SpreadsheetID config)
                       (Range config) batch).
Proof.
  unfold doZillow. destruct (clientError w); [discriminate|].
  destruct (serviceError w).
  { intros H. inversion H; subst. left. repeat split. discriminate. }
  destruct (getSheetData (service w) (SpreadsheetID config) (Range config))
    as [rows [e|]] eqn:G; [discriminate|].
  destruct (getSheetData_ok _ _ _ G) as [_ ->].
  destruct (mailbox w emailSubject (dynamicFilterDate (sheet (service w))))
    as [emails [e|]] eqn:M; [discriminate|].
  rewrite processData_appends. intros H. inversion H; subst.
  right. exists emails. repeat split.
Qed.


(** X11.  A run that returns leaves the rows the sheet had where they were, and
    the rows it adds, none or one for each email of the batch, hold the
    text [YYYY-MM-DD] of a day of the calendar and a count that is not
    negative; the service reads and writes as before. *)
Theorem run_only_appends_rows :
  forall (tables : UnicodeTables) (sorter : SliceSorter) (config : Config)
         (w : World) (err : option error) (srv : Service)
         (batch : list EmailMessage),
    doZillow config w = Returned err srv batch ->
    exists added : list Row,
      sheet srv = sheet (service w) ++ added
      /\ (added = [] \/ added = map rowOf batch)
      /\ Forall (fun row =>
                   exists y m d n,
                     row = [CString (isoDate (y, m, d)); CInt n]
                     /\ validDate y m d /\ 0 <= n) added
      /\ readable srv = readable (service w)
      /\ writable srv = writable (service w).
Proof.
  intros tables sorter config w err srv batch H.
  destruct (doZillow_returned _ _ H)
    as [(_ & -> & ->)|(emails & _ & _ & Hb & ->)].
  - exists []. rewrite app_nil_r. repeat split; [left; reflexivity|constructor].
  - destruct (appendToSheet_flags (service w) (SpreadsheetID config)
                (Range config) batch) as [Hr Hw].
    rewrite appendToSheet_sheet.
    destruct (writable (service w)).
    + exists (map rowOf batch). split; [reflexivity|]. split; [right; reflexivity|].
      split; [|split; assumption].
      rewrite Forall_map, Hb. unfold withCounts. rewrite Forall_map.
      apply Forall_forall. intros e _. rewrite rowOf_iso.
      destruct (civil (Date (setZillowSaves e
                  (fst (extractZillowSavesCount (Content e)))))) as [[y m] d] eqn:E.
      exists y, m, d, (fst (extractZillowSavesCount (Content e))).
      split; [reflexivity|]. split; [exact (civil_valid _ E)|].
      apply extract_ok.
    + exists []. rewrite app_nil_r. split; [reflexivity|].
      split; [left; reflexivity|]. split; [constructor|split; assumption].
Qed.

Lemma run_only_appends_rows_witness :
  exists (srv : Service) (batch : list EmailMessage) (added : list Row),
    doZillow (tables := asciiText) (sorter := insertionSorter) testConfig
      (worldOf [[CString (str "2025-07-19"); CInt 4]]
         [emailAt "1" (GoTime.Date 2025 7 20 6 0 0 0 UTC) "Your home has 5 saves."])
    = Returned None srv batch
    /\ sheet srv = [[CString (str "2025-07-19"); CInt 4]] ++ added
    /\ length added = 1%nat.
Proof.
  eexists. eexists.
  assert (R : doZillow (tables := asciiText) (sorter := insertionSorter) testConfig
      (worldOf [[CString (str "2025-07-19"); CInt 4]]
         [emailAt "1" (GoTime.Date 2025 7 20 6 0 0 0 UTC) "Your home has 5 saves."])
    = Returned None
        (mkService [[CString (str "2025-07-19"); CInt 4];
                    [CString (str "2025-07-20"); CInt 5]]
           [mkAppendCall (str "sheet-id") (str "Sheet1!A:Z")
              [[CString (str "2025-07-20"); CInt 5]]] true true)
        [setZillowSaves
           (emailAt "1" (GoTime.Date 2025 7 20 6 0 0 0 UTC) "Your home has 5 saves.") 5])
    by (vm_compute; reflexivity).
  destruct (@run_only_appends_rows _ _ _ _ _ _ _ R) as (added & Hs & _).
  exists added. split; [exact R|]. split; [exact Hs|].
  cbn [sheet service worldOf] in Hs.
  change [[CString (str "2025-07-19"); CInt 4]; [CString (str "2025-07-20"); CInt 5]]
    with ([[CString (str "2025-07-19"); CInt 4]] ++ [[CString (str "2025-07-20"); CInt 5]])
    in Hs.
  apply app_inv_head in Hs. rewrite <- Hs. reflexivity.
Defined.

(** X12.  When the sheet cannot be written, a run with mail to record still
    returns a nil error: the append is attempted once, its error is dropped
    by [processData], and the sheet is as it was. *)
Theorem failed_append_is_not_reported :
  forall (tables : UnicodeTables) (sorter : SliceSorter) (config : Config)
         (w : World) (rows : list Row) (emails : list EmailMessage),
    clientError w = None -> serviceError w = None ->
    getSheetData (service w) (SpreadsheetID config) (Range config) = (rows, None) ->
    mailbox w emailSubject (dynamicFilterDate rows) = (emails, None) ->
    emails <> [] -> writable (service w) = false ->
    exists (srv : Service) (batch : list EmailMessage),
      doZillow config w = Returned None srv batch
      /\ snd (appendToSheet (service w) (SpreadsheetID config) (Range config) batch)
         = Some (Errorf "unable to append data to sheet")
      /\ sheet srv = sheet (service w)
      /\ appendCalls srv
         = appendCalls (service w)
           ++ [mkAppendCall (SpreadsheetID config) (Range config) (map rowOf batch)].
Proof.
  intros tables sorter config w rows emails Hc Hs Hrows Hmail Hne Hw.
  pose proof (doZillow_run config w Hc Hs Hrows Hmail) as Hrun. cbv zeta in Hrun.
  set (batch := withCounts extractZillowSavesCount (Slice dateBefore emails)) in *.
  exists (fst (appendToSheet (service w) (SpreadsheetID config) (Range config) batch)),
         batch.
  split; [exact Hrun|].
  assert (Hb : batch <> []).
  { unfold batch, withCounts. intros E. apply map_eq_nil in E.
    pose proof (Slice_perm dateBefore emails) as P. rewrite E in P.
    apply Permutation_sym, Permutation_nil in P. contradiction. }
  unfold appendToSheet, ValuesAppend. rewrite Hw.
  destruct batch as [|e batch']; [contradiction|].
  cbn [map length Nat.eqb fst snd sheet appendCalls]. repeat split.
Qed.

Lemma failed_append_is_not_reported_witness :
  exists (srv : Service) (batch : list EmailMessage),
    doZillow (tables := asciiText) (sorter := insertionSorter) testConfig
      (mkWorld None None
         (mkService [[CString (str "2025-07-19"); CInt 4]] [] true false)
         (fun _ _ => ([emailAt "1" (GoTime.Date 2025 7 20 6 0 0 0 UTC) "5 saves"],
                      None)))
    = Returned None srv batch
    /\ sheet srv = [[CString (str "2025-07-19"); CInt 4]].
Proof.
  destruct (@failed_append_is_not_reported asciiText insertionSorter testConfig
              (mkWorld None None
                 (mkService [[CString (str "2025-07-19"); CInt 4]] [] true false)
                 (fun _ _ => ([emailAt "1" (GoTime.Date 2025 7 20 6 0 0 0 UTC) "5 saves"],
                              None)))
              [[CString (str "2025-07-19"); CInt 4]]
              [emailAt "1" (GoTime.Date 2025 7 20 6 0 0 0 UTC) "5 saves"]
              eq_refl eq_refl eq_refl eq_refl ltac:(discriminate) eq_refl)
    as (srv & batch & R & _ & Hsheet & _).
  exists srv, batch. split; [exact R|exact Hsheet].
Defined.

(** X13.  With no mail since the filter date the run changes nothing: no append
    call is made, and the service is returned as it was. *)
Theorem no_mail_no_change :
  forall (tables : UnicodeTables) (sorter : SliceSorter) (config : Config)
         (w : World) (rows : list Row),
    clientError w = None -> serviceError w = None ->
    getSheetData (service w) (SpreadsheetID config) (Range config) = (rows, None) ->
    mailbox w emailSubject (dynamicFilterDate rows) = ([], None) ->
    doZillow config w = Returned None (service w) [].
Proof.
  intros tables sorter config w rows Hc Hs Hrows Hmail.
  rewrite (doZillow_run config w Hc Hs Hrows Hmail).
  pose proof (Slice_perm dateBefore (@nil EmailMessage)) as P.
  apply Permutation_nil in P. rewrite P. reflexivity.
Qed.

Lemma no_mail_no_change_witness :
  doZillow (tables := asciiText) (sorter := insertionSorter) testConfig
    (worldOf [[CString (str "2025-07-19"); CInt 4]] [])
  = Returned None (mkService [[CString (str "2025-07-19"); CInt 4]] [] true true) [].
Proof.
  apply (@no_mail_no_change asciiText insertionSorter testConfig
           (worldOf [[CString (str "2025-07-19"); CInt 4]] [])
           [[CString (str "2025-07-19"); CInt 4]]); reflexivity.
Defined.

(** X15.  Two runs that differ in the order in which the mail step delivers the
    same emails end the same way, when no two different emails have the
    same instant: the sort step decides the order of the rows. *)
Theorem fetch_order_is_irrelevant :
  forall (tables : UnicodeTables) (sorter : SliceSorter) (config : Config)
         (w1 w2 : World) (rows : list Row) (emails1 emails2 : list EmailMessage),
    clientError w1 = clientError w2 -> serviceError w1 = serviceError w2 ->
    service w1 = service w2 ->
    getSheetData (service w1) (SpreadsheetID config) (Range config) = (rows, None) ->
    mailbox w1 emailSubject (dynamicFilterDate rows) = (emails1, None) ->
    mailbox w2 emailSubject (dynamicFilterDate rows) = (emails2, None) ->
    Permutation emails1 emails2 ->
    (forall e1 e2, In e1 emails1 -> In e2 emails1 ->
                   Before (Date e1) (Date e2) = false ->
                   Before (Date e2) (Date e1) = false -> e1 = e2) ->
    Slice dateBefore emails1 = Slice dateBefore emails2
    /\ doZillow config w1 = doZillow config w2.
Proof.
  intros tables sorter config w1 w2 rows emails1 emails2 Hc Hs Hsrv Hrows
         Hm1 Hm2 P Hd.
  assert (E : Slice dateBefore emails1 = Slice dateBefore emails2).
  { apply (@sorted_perm_unique _ dateBefore).
    - apply dateBefore_order.
    - apply Slice_sorted, dateBefore_order.
    - apply Slice_sorted, dateBefore_order.
    - eapply Permutation_trans; [apply Permutation_sym, Slice_perm|].
      eapply Permutation_trans; [exact P|apply Slice_perm].
    - intros x y Hx Hy. apply Hd.
      + eapply Permutation_in; [apply Permutation_sym, Slice_perm|exact Hx].
      + eapply Permutation_in; [apply Permutation_sym, Slice_perm|exact Hy]. }
  split; [exact E|].
  unfold doZillow. rewrite <- Hc, <- Hs, <- Hsrv, Hrows, Hm1, Hm2, E. reflexivity.
Qed.

Lemma fetch_order_is_irrelevant_witness :
  doZillow (tables := asciiText) (sorter := reversingSorter) testConfig
    (worldOf [] [emailAt "2" (GoTime.Date 2025 7 21 6 0 0 0 UTC) "7 saves";
                 emailAt "1" (GoTime.Date 2025 7 20 6 0 0 0 UTC) "5 saves"])
  = doZillow (tables := asciiText) (sorter := reversingSorter) testConfig
      (worldOf [] [emailAt "1" (GoTime.Date 2025 7 20 6 0 0 0 UTC) "5 saves";
                   emailAt "2" (GoTime.Date 2025 7 21 6 0 0 0 UTC) "7 saves"]).
Proof.
  apply (@fetch_order_is_irrelevant asciiText reversingSorter testConfig
           (worldOf [] [emailAt "2" (GoTime.Date 2025 7 21 6 0 0 0 UTC) "7 saves";
                        emailAt "1" (GoTime.Date 2025 7 20 6 0 0 0 UTC) "5 saves"])
           (worldOf [] [emailAt "1" (GoTime.Date 2025 7 20 6 0 0 0 UTC) "5 saves";
                        emailAt "2" (GoTime.Date 2025 7 21 6 0 0 0 UTC) "7 saves"])
           []
           [emailAt "2" (GoTime.Date 2025 7 21 6 0 0 0 UTC) "7 saves";
            emailAt "1" (GoTime.Date 2025 7 20 6 0 0 0 UTC) "5 saves"]
           [emailAt "1" (GoTime.Date 2025 7 20 6 0 0 0 UTC) "5 saves";
            emailAt "2" (GoTime.Date 2025 7 21 6 0 0 0 UTC) "7 saves"]);
    try reflexivity.
  - apply perm_swap.
  - intros e1 e2 [<-|[<-|[]]] [<-|[<-|[]]]; try reflexivity;
      vm_compute; intros; discriminate.
Defined.

(** X16.  After a run that has recorded mail, the next run starts the day after
    the date of the newest email of the batch, the date in that email's own
    zone: the last row of the sheet is the row of the email no other is
    after, and the filter date read off it is the day after its date. *)
Theorem next_run_resumes_after_newest_email :
  forall (tables : UnicodeTables) (sorter : SliceSorter) (config : Config)
         (w : World) (rows : list Row) (emails : list EmailMessage),
    clientError w = None -> serviceError w = None ->
    getSheetData (service w) (SpreadsheetID config) (Range config) = (rows, None) ->
    mailbox w emailSubject (dynamicFilterDate rows) = (emails, None) ->
    emails <> [] -> writable (service w) = true ->
    (forall e, In e emails -> 0 <= fst (fst (civil (Date e))) <= 9999) ->
    exists (srv : Service) (batch : list EmailMessage) (newest : EmailMessage),
      doZillow config w = Returned None srv batch
      /\ In newest emails
      /\ (forall e, In e emails -> Before (Date newest) (Date e) = false)
      /\ dynamicFilterDate
           (fst (getSheetData srv (SpreadsheetID config) (Range config)))
         = isoDate (tomorrow (civil (Date newest))).
Proof.
  intros tables sorter config w rows emails Hc Hs Hrows Hmail Hne Hw Hyears.
  pose proof (doZillow_run config w Hc Hs Hrows Hmail) as Hrun. cbv zeta in Hrun.
  pose proof (Slice_perm dateBefore emails) as P.
  pose proof (Slice_sorted emails dateBefore_order) as S.
  destruct (getSheetData_ok _ _ _ Hrows) as [Hr _].
  destruct (exists_last (l := Slice dateBefore emails)) as (front & newest & E).
  { intros E. rewrite E in P. apply Permutation_sym, Permutation_nil in P.
    contradiction. }
  rewrite E in *.
  assert (Hin : In newest emails).
  { eapply Permutation_in; [apply Permutation_sym, P|].
    apply in_or_app. right. left. reflexivity. }
  eexists. eexists. exists newest. split; [exact Hrun|]. split; [exact Hin|].
  split.
  { intros e He. apply (Permutation_in _ P) in He.
    apply in_app_or in He. destruct He as [He|[<-|[]]].
    - pose proof (@sorted_last _ _ _ _ S) as F. rewrite Forall_forall in F.
      apply F, He.
    - apply dateBefore_order. }
  destruct (appendToSheet_flags (service w) (SpreadsheetID config) (Range config)
              (withCounts extractZillowSavesCount (front ++ [newest]))) as [Hr' _].
  unfold getSheetData, ValuesGet. rewrite Hr', Hr. cbn [fst].
  rewrite appendToSheet_sheet, Hw, withCounts_app, map_app, app_assoc.
  cbn [withCounts map]. rewrite dynamicFilterDate_last, rowOf_iso.
  cbn [setZillowSaves Date].
  rewrite dynamicFilterDate_cell by discriminate. cbn [sprintV].
  specialize (Hyears newest Hin).
  destruct (civil (Date newest)) as [[y m] d] eqn:Ec. cbn [fst] in Hyears.
  pose proof (civil_valid _ Ec) as V.
  destruct (validDate_two_digits V) as [Hm Hd].
  rewrite TrimSpace_iso, fromText_iso by assumption.
  apply validDateb_spec in V. rewrite V. reflexivity.
Qed.

Lemma next_run_resumes_after_newest_email_witness :
  exists (srv : Service) (batch : list EmailMessage),
    doZillow (tables := asciiText) (sorter := insertionSorter) testConfig
      (worldOf [[CString (str "2025-07-19"); CInt 4]]
         [emailAt "2" (GoTime.Date 2025 7 31 23 30 0 0 (-25200)) "7 saves";
          emailAt "1" (GoTime.Date 2025 7 20 6 0 0 0 UTC) "5 saves"])
    = Returned None srv batch
    /\ dynamicFilterDate (fst (getSheetData srv (str "sheet-id") (str "Sheet1!A:Z")))
       = str "2025-08-01".
Proof.
  destruct (@next_run_resumes_after_newest_email asciiText insertionSorter
              testConfig
              (worldOf [[CString (str "2025-07-19"); CInt 4]]
                 [emailAt "2" (GoTime.Date 2025 7 31 23 30 0 0 (-25200)) "7 saves";
                  emailAt "1" (GoTime.Date 2025 7 20 6 0 0 0 UTC) "5 saves"])
              [[CString (str "2025-07-19"); CInt 4]]
              [emailAt "2" (GoTime.Date 2025 7 31 23 30 0 0 (-25200)) "7 saves";
               emailAt "1" (GoTime.Date 2025 7 20 6 0 0 0 UTC) "5 saves"]
              eq_refl eq_refl eq_refl eq_refl ltac:(discriminate) eq_refl)
    as (srv & batch & newest & R & Hin & Hnew & Hnext).
  { intros e [<-|[<-|[]]]; vm_compute; split; discriminate. }
  exists srv, batch. split; [exact R|].
  change (SpreadsheetID testConfig) with (str "sheet-id") in Hnext.
  change (Range testConfig) with (str "Sheet1!A:Z") in Hnext.
  rewrite Hnext.
  destruct Hin as [<-|[<-|[]]].
  - vm_compute. reflexivity.
  - exfalso.
    specialize (Hnew (emailAt "2" (GoTime.Date 2025 7 31 23 30 0 0 (-25200)) "7 saves")
                  (or_introl eq_refl)).
    vm_compute in Hnew. discriminate Hnew.
Defined.


(** X14.  A run that can write records every email the mail step has delivered,
    once: the rows it appends are, in the order of the sort, one row for
    each email, with the date of the email in its own zone and the count
    extracted from the content of that same email. *)
Theorem every_email_gives_one_row :
  forall (tables : UnicodeTables) (sorter : SliceSorter) (config : Config)
         (w : World) (rows : list Row) (emails : list EmailMessage),
    clientError w = None -> serviceError w = None ->
    getSheetData (service w) (SpreadsheetID config) (Range config) = (rows, None) ->
    mailbox w emailSubject (dynamicFilterDate rows) = (emails, None) ->
    writable (service w) = true ->
    exists (srv : Service) (batch : list EmailMessage) (added : list Row),
      doZillow config w = Returned None srv batch
      /\ sheet srv = rows ++ added
      /\ Permutation
           (map (fun e => [CString (isoDate (civil (Date e)));
                           CInt (fst (extractZillowSavesCount (Content e)))])
                emails)
           added
      /\ length added = length emails.
Proof.
  intros tables sorter config w rows emails Hc Hs Hrows Hmail Hw.
  pose proof (doZillow_run config w Hc Hs Hrows Hmail) as Hrun. cbv zeta in Hrun.
  destruct (getSheetData_ok _ _ _ Hrows) as [_ ->].
  pose proof (Slice_perm dateBefore emails) as P.
  set (row := fun e : EmailMessage =>
                [CString (isoDate (civil (Date e)));
                 CInt (fst (extractZillowSavesCount (Content e)))]).
  eexists. eexists. exists (map row (Slice dateBefore emails)).
  split; [exact Hrun|]. split.
  - rewrite appendToSheet_sheet, Hw. f_equal.
    unfold withCounts. rewrite map_map. apply map_ext.
    intros e. rewrite rowOf_iso. reflexivity.
  - split; [apply Permutation_map, P|].
    rewrite length_map. symmetry. apply Permutation_length, P.
Qed.

Lemma every_email_gives_one_row_witness :
  exists (srv : Service) (batch : list EmailMessage) (added : list Row),
    doZillow (tables := asciiText) (sorter := insertionSorter) testConfig
      (worldOf [[CString (str "2025-07-19"); CInt 4]]
         [emailAt "2" (GoTime.Date 2025 7 21 6 0 0 0 UTC) "7 saves";
          emailAt "1" (GoTime.Date 2025 7 20 6 0 0 0 UTC) "no count"])
    = Returned None srv batch
    /\ sheet srv = [[CString (str "2025-07-19"); CInt 4]] ++ added
    /\ Permutation
         [[CString (str "2025-07-21"); CInt 7]; [CString (str "2025-07-20"); CInt 0]]
         added.
Proof.
  destruct (@every_email_gives_one_row asciiText insertionSorter testConfig
              (worldOf [[CString (str "2025-07-19"); CInt 4]]
                 [emailAt "2" (GoTime.Date 2025 7 21 6 0 0 0 UTC) "7 saves";
                  emailAt "1" (GoTime.Date 2025 7 20 6 0 0 0 UTC) "no count"])
              [[CString (str "2025-07-19"); CInt 4]]
              [emailAt "2" (GoTime.Date 2025 7 21 6 0 0 0 UTC) "7 saves";
               emailAt "1" (GoTime.Date 2025 7 20 6 0 0 0 UTC) "no count"]
              eq_refl eq_refl eq_refl eq_refl eq_refl)
    as (srv & batch & added & R & Hsheet & P & _).
  exists srv, batch, added. split; [exact R|]. split; [exact Hsheet|].
  exact P.
Defined.

End RunFacts.

Module CountFacts.
Import Regexp RegexpFacts GoStrings Zillow ExtractFacts Notions.

(** Where the pattern occurs at the head, group 1 is the leading digits. *)
Lemma find_at s :
  occursAt s ->
  exists whole, FindStringSubmatch savesPattern 1 s = [whole; leading isDigit s].
Proof.
  intros H. destruct (occursAt_savesAt H) as [m E].
  destruct (savesAt_shape _ E) as (whole & -> & _).
  exists whole. destruct s as [|c s].
  - cbn in E. discriminate.
  - cbn [FindStringSubmatch]. rewrite matchHere_saves, E. reflexivity.
Qed.

Lemma space_not_digit' w : isReSpace w = true -> isDigit w = false.
Proof.
  intros Hw. destruct (isDigit w) eqn:D; [|reflexivity].
  rewrite (digit_not_space _ D) in Hw. discriminate.
Qed.

Lemma occurrence ds ws post :
  ds <> [] -> forallb isDigit ds = true ->
  ws <> [] -> forallb isReSpace ws = true ->
  occursAt (ds ++ ws ++ str "save" ++ post)
  /\ leading isDigit (ds ++ ws ++ str "save" ++ post) = ds.
Proof.
  intros Hne Hds Hwne Hws. split.
  - exists ds, ws, post. repeat split; assumption.
  - apply leading_app; [exact Hds|].
    destruct ws as [|w ws]; [contradiction|]. cbn [app].
    cbn [forallb] in Hws. apply andb_true_iff in Hws.
    apply space_not_digit', Hws.
Qed.

(** *** Digits that stand for more than an [int] holds *)

Lemma decimalFrom_bound s : forall n,
  0 <= n -> forallb isDigit s = true ->
  decimalFrom n s < (n + 1) * 10 ^ Z.of_nat (length s).
Proof.
  induction s as [|c s IH]; intros n Hn Hs.
  - cbn [decimalFrom length]. change (10 ^ Z.of_nat 0) with 1. lia.
  - cbn [forallb] in Hs. apply andb_true_iff in Hs. destruct Hs as [Hc Hs].
    pose proof (digitVal_range _ Hc) as Hd. cbn [decimalFrom length].
    specialize (IH (n * 10 + digitVal c) ltac:(lia) Hs).
    rewrite Nat2Z.inj_succ, Z.pow_succ_r by lia.
    assert (0 < 10 ^ Z.of_nat (length s)) by (apply Z.pow_pos_nonneg; lia).
    nia.
Qed.

Lemma short_digits_fit s :
  forallb isDigit s = true -> (length s < 19)%nat ->
  decimalValue s <= Strconv.maxInt.
Proof.
  intros Hs Hlen. pose proof (@decimalFrom_bound s 0 ltac:(lia) Hs) as B.
  assert (10 ^ Z.of_nat (length s) <= 10 ^ 18) by (apply Z.pow_le_mono_r; lia).
  unfold decimalValue, Strconv.maxInt.
  change (10 ^ 18) with 1000000000000000000 in *.
  change (2 ^ 63) with 9223372036854775808. lia.
Qed.

Lemma parseUintLoop_overflow s : forall n,
  0 <= n <= Strconv.maxUint64 -> forallb isDigit s = true ->
  Strconv.maxUint64 < decimalFrom n s ->
  Strconv.parseUintLoop n s = (Strconv.maxUint64, Some ErrRange).
Proof.
  induction s as [|c s IH]; intros n Hn Hs Hgt.
  - cbn [decimalFrom] in Hgt. lia.
  - cbn [forallb] in Hs. apply andb_true_iff in Hs. destruct Hs as [Hc Hs].
    cbn [Strconv.parseUintLoop decimalFrom] in *. rewrite Hc. cbn [negb].
    pose proof (digitVal_range _ Hc) as Hd.
    destruct (n >=? Strconv.maxUint64 / 10 + 1); [reflexivity|].
    destruct (Z.gtb_spec (n * 10 + digitVal c) Strconv.maxUint64); [reflexivity|].
    apply IH; [lia|exact Hs|exact Hgt].
Qed.

(** [Atoi] reports a range error for digits beyond the largest [int]. *)
Lemma Atoi_overflow s :
  forallb isDigit s = true -> Strconv.maxInt < decimalValue s ->
  snd (Strconv.Atoi s) = Some ErrRange.
Proof.
  intros Hs Hbig.
  destruct s as [|c s]; [cbv in Hbig; discriminate|].
  pose proof Hs as Hs'. cbn [forallb] in Hs'. apply andb_true_iff in Hs'.
  destruct Hs' as [Hc _]. destruct (digit_not_sign _ Hc) as [Hm Hp].
  unfold Strconv.Atoi.
  destruct ((0 <? length (c :: s)) && (length (c :: s) <? 19))%nat eqn:L.
  - apply andb_true_iff in L. destruct L as [_ L]. apply Nat.ltb_lt in L.
    pose proof (short_digits_fit _ Hs L). lia.
  - unfold Strconv.ParseInt, Strconv.ParseUint. rewrite Hm, Hp. cbn [orb negb andb].
    change (2 ^ (Strconv.intSize - 1)) with 9223372036854775808.
    unfold Strconv.maxInt in Hbig. change (2 ^ 63) with 9223372036854775808 in Hbig.
    destruct (Z.le_gt_cases (decimalValue (c :: s)) Strconv.maxUint64) as [Hle|Hgt].
    + rewrite parseUintLoop_digits; [|lia|exact Hs|exact Hle].
      fold (decimalValue (c :: s)).
      destruct (Z.geb_spec (decimalValue (c :: s)) 9223372036854775808); [|lia].
      reflexivity.
    + rewrite parseUintLoop_overflow;
        [|unfold Strconv.maxUint64; cbn; lia|exact Hs|exact Hgt].
      reflexivity.
Qed.

(** X7.  The count is read off the first place where digits, white space of any
    kind and the letters [save] follow each other, whatever comes after the
    letters: [12 saves], [12 save], [12 saved searches], or the digits at
    the end of one line and [saves] at the start of the next. *)
Theorem count_is_read_at_first_occurrence :
  forall (tables : UnicodeTables) (content pre ds ws post : gostring),
    ToLower content = pre ++ ds ++ ws ++ str "save" ++ post ->
    ds <> [] -> forallb isDigit ds = true ->
    ws <> [] -> forallb isReSpace ws = true ->
    (forall i, (i < length pre)%nat -> ~ occursAt (skipn i (ToLower content))) ->
    decimalValue ds <= Strconv.maxInt ->
    extractZillowSavesCount content = (decimalValue ds, None).
Proof.
  intros tables content pre ds ws post Hlow Hne Hds Hwne Hws Hfirst Hfit.
  unfold extractZillowSavesCount, patterns. cbn [firstCount].
  rewrite Hlow in *. rewrite (find_skips pre _ Hfirst).
  destruct (occurrence post Hne Hds Hwne Hws) as [Hocc Hlead].
  destruct (find_at Hocc) as [whole ->]. rewrite Hlead.
  cbn [length Nat.ltb Nat.leb nth].
  rewrite (Atoi_digits Hne Hds Hfit). reflexivity.
Qed.

Lemma count_is_read_at_first_occurrence_witness :
  @extractZillowSavesCount asciiText
    (str "Views: 40" ++ ["010"%char] ++ str "Homes: 12" ++ ["009"; "010"]%char
     ++ str "Saved searches that match")
  = (decimalValue (str "12"), None).
Proof.
  apply (@count_is_read_at_first_occurrence asciiText _
           (str "views: 40" ++ ["010"%char] ++ str "homes: ") (str "12")
           ["009"; "010"]%char (str "d searches that match")).
  - vm_compute. reflexivity.
  - discriminate.
  - reflexivity.
  - discriminate.
  - reflexivity.
  - intros i Hi. apply savesAt_None.
    assert (Hnone : forallb (fun k =>
               match savesAt (skipn k
                 (@ToLower asciiText
                    (str "Views: 40" ++ ["010"%char] ++ str "Homes: 12"
                     ++ ["009"; "010"]%char ++ str "Saved searches that match")))
               with None => true | Some _ => false end)
               (seq 0 17) = true) by (vm_compute; reflexivity).
    rewrite forallb_forall in Hnone. specialize (Hnone i).
    assert (Hin : In i (seq 0 17)) by (apply in_seq; cbn in Hi; lia).
    specialize (Hnone Hin).
    destruct (savesAt _); [discriminate|reflexivity].
  - vm_compute. discriminate.
Defined.

(** X8.  When the digits at the first occurrence stand for more than an [int]
    holds, the extraction returns 0 with a nil error, whatever follows: a
    count further on in the content is not looked for. *)
Theorem oversized_count_gives_zero :
  forall (tables : UnicodeTables) (content pre ds ws post : gostring),
    ToLower content = pre ++ ds ++ ws ++ str "save" ++ post ->
    ds <> [] -> forallb isDigit ds = true ->
    ws <> [] -> forallb isReSpace ws = true ->
    (forall i, (i < length pre)%nat -> ~ occursAt (skipn i (ToLower content))) ->
    Strconv.maxInt < decimalValue ds ->
    extractZillowSavesCount content = (0, None).
Proof.
  intros tables content pre ds ws post Hlow Hne Hds Hwne Hws Hfirst Hbig.
  unfold extractZillowSavesCount, patterns. cbn [firstCount].
  rewrite Hlow in *. rewrite (find_skips pre _ Hfirst).
  destruct (occurrence post Hne Hds Hwne Hws) as [Hocc Hlead].
  destruct (find_at Hocc) as [whole ->]. rewrite Hlead.
  cbn [length Nat.ltb Nat.leb nth].
  pose proof (Atoi_overflow _ Hds Hbig) as E.
  destruct (Strconv.Atoi ds) as [count [err|]]; [reflexivity|discriminate E].
Qed.

Lemma oversized_count_gives_zero_witness :
  @extractZillowSavesCount asciiText
    (str "Ref 9223372036854775808 saves; today 7 saves")
  = (0, None).
Proof.
  apply (@oversized_count_gives_zero asciiText _
           (str "ref ") (str "9223372036854775808") (str " ")
           (str "s; today 7 saves")).
  - vm_compute. reflexivity.
  - discriminate.
  - reflexivity.
  - discriminate.
  - reflexivity.
  - intros i Hi. apply savesAt_None.
    assert (Hnone : forallb (fun k =>
               match savesAt (skipn k
                 (@ToLower asciiText
                    (str "Ref 9223372036854775808 saves; today 7 saves")))
               with None => true | Some _ => false end)
               (seq 0 4) = true) by (vm_compute; reflexivity).
    rewrite forallb_forall in Hnone. specialize (Hnone i).
    assert (Hin : In i (seq 0 4)) by (apply in_seq; cbn in Hi; lia).
    specialize (Hnone Hin).
    destruct (savesAt _); [discriminate|reflexivity].
  - vm_compute. reflexivity.
Defined.

End CountFacts.

Module MailFacts.
Import GoTime GoTimeFacts ParseFacts WatermarkFacts RoundTripFacts GoStrings
       Sheets GoSort SortFacts Zillow ExtractFacts PipelineFacts RunFacts
       Imap YahooImap Notions RunNotions.

(** *** [strings.Contains] *)

Lemma startsWith_spec p s :
  startsWith p s = true <-> exists post, s = p ++ post.
Proof.
  unfold startsWith, gostring_eqb.
  destruct (list_eq_dec ascii_dec (firstn (length p) s) p) as [E|N]; split.
  - intros _. exists (skipn (length p) s).
    rewrite <- E at 1. symmetry. apply firstn_skipn.
  - reflexivity.
  - discriminate.
  - intros [post ->]. exfalso. apply N.
    rewrite firstn_app, Nat.sub_diag, firstn_all. cbn [firstn]. apply app_nil_r.
Qed.

Lemma Contains_spec s substr :
  Contains s substr = true <-> exists pre post, s = pre ++ substr ++ post.
Proof.
  induction s as [|c s IH]; cbn [Contains]; rewrite orb_true_iff, startsWith_spec.
  - split.
    + intros [[post E]|H]; [|discriminate]. exists [], post. exact E.
    + intros (pre & post & E). left.
      destruct pre as [|? ?]; [|discriminate]. exists post. exact E.
  - rewrite IH. split.
    + intros [[post E]|(pre & post & E)].
      * exists [], post. exact E.
      * exists (c :: pre), post. rewrite E. reflexivity.
    + intros (pre & post & E). destruct pre as [|c' pre].
      * left. exists post. exact E.
      * right. inversion E; subst. exists pre, post. reflexivity.
Qed.

(** *** The emails [connectToYahooIMAP] returns *)

Lemma collect_matching {tables : UnicodeTables} subject messages :
  Forall (fun e =>
            Contains (ToLower (Subject e)) (ToLower subject) = true
            /\ ZillowSaves e = 0)
         (collect subject messages).
Proof.
  induction messages as [|msg messages IH]; cbn [collect]; [constructor|].
  destruct (msgEnvelope msg) as [envelope|]; [|exact IH].
  destruct (Contains (ToLower (envSubject envelope)) (ToLower subject)) eqn:E;
    cbn [negb]; [|exact IH].
  constructor; [|exact IH]. cbn [Subject ZillowSaves]. split; [exact E|reflexivity].
Qed.

Lemma collect_complete {tables : UnicodeTables} subject messages msg envelope :
  In msg messages -> msgEnvelope msg = Some envelope ->
  Contains (ToLower (envSubject envelope)) (ToLower subject) = true ->
  In (mkEmail (envSubject envelope) (envDate envelope) (readBody (Body msg))
        (sprintD (SeqNum msg)) 0)
     (collect subject messages).
Proof.
  intros Hin He Hc. induction messages as [|m messages IH]; [contradiction|].
  cbn [collect]. destruct Hin as [->|Hin].
  - rewrite He, Hc. cbn [negb]. left. reflexivity.
  - destruct (msgEnvelope m) as [env|]; [|apply IH, Hin].
    destruct (negb (Contains (ToLower (envSubject env)) (ToLower subject)));
      [apply IH, Hin|right; apply IH, Hin].
Qed.

(** What [connectToYahooIMAP] returns when every step before the fetch
    succeeds and the search finds messages. *)
Lemma connect_fetches {tables : UnicodeTables} server username password subject
    since filterTime uids :
  Parse (str "2006-01-02") since = Some filterTime ->
  dialTLS server yahooAddr = None ->
  login server username password = None ->
  select server (str "INBOX") false = None ->
  search server filterTime = (uids, None) -> uids <> [] ->
  connectToYahooIMAP server username password subject since
  = ((collect subject (fst (fetch server uids)),
      match snd (fetch server uids) with
      | Some _ => Some (Errorf "fetch failed")
      | None => None
      end),
     [CmdDialTLS yahooAddr; CmdLogin username password;
      CmdSelect (str "INBOX") false; CmdSearchSince filterTime;
      CmdFetch uids; CmdLogout]).
Proof.
  intros HP Hd Hl Hs Hq Hne. unfold connectToYahooIMAP.
  rewrite HP, Hd, Hl, Hs, Hq.
  destruct uids as [|uid uids]; [contradiction|]. cbn [length Nat.eqb].
  destruct (fetch server (uid :: uids)) as [messages done]. reflexivity.
Qed.

Lemma connect_emails {tables : UnicodeTables} server username password subject since :
  fst (fst (connectToYahooIMAP server username password subject since)) = []
  \/ exists uids,
       fst (fst (connectToYahooIMAP server username password subject since))
       = collect subject (fst (fetch server uids)).
Proof.
  unfold connectToYahooIMAP.
  destruct (Parse (str "2006-01-02") since); [|left; reflexivity].
  destruct (dialTLS server yahooAddr); [left; reflexivity|].
  destruct (login server username password); [left; reflexivity|].
  destruct (select server (str "INBOX") false); [left; reflexivity|].
  destruct (search server t) as [uids [e|]]; [left; reflexivity|].
  destruct (length uids =? 0)%nat; [left; reflexivity|].
  right. exists uids. destruct (fetch server uids) as [messages done].
  reflexivity.
Qed.

Lemma connect_matching {tables : UnicodeTables} server username password subject
    since :
  Forall (fun e =>
            (exists pre post,
                ToLower (Subject e) = pre ++ ToLower subject ++ post)
            /\ ZillowSaves e = 0)
         (fst (fst (connectToYahooIMAP server username password subject since))).
Proof.
  destruct (connect_emails server username password subject since)
    as [->|[uids ->]]; [constructor|].
  eapply Forall_impl; [|apply collect_matching].
  intros e [Hc Hz]. split; [apply Contains_spec, Hc|exact Hz].
Qed.

(** X17.  Every email [connectToYahooIMAP] returns has a subject in which, letter
    case apart, the subject asked for occurs, and a count of 0.  When every
    step succeeds, each fetched message that has an envelope and such a
    subject is returned, with its sequence number in decimal as its ID and
    the first body section that could be read as its content. *)
Theorem only_matching_subjects_are_returned :
  forall (tables : UnicodeTables) (server : Server)
         (username password subject since : gostring),
    Forall (fun e =>
              (exists pre post,
                  ToLower (Subject e) = pre ++ ToLower subject ++ post)
              /\ ZillowSaves e = 0)
           (fst (fst (connectToYahooIMAP server username password subject since)))
    /\ forall filterTime uids msg envelope,
         Parse (str "2006-01-02") since = Some filterTime ->
         dialTLS server yahooAddr = None ->
         login server username password = None ->
         select server (str "INBOX") false = None ->
         search server filterTime = (uids, None) -> uids <> [] ->
         In msg (fst (fetch server uids)) ->
         msgEnvelope msg = Some envelope ->
         (exists pre post,
             ToLower (envSubject envelope) = pre ++ ToLower subject ++ post) ->
         In (mkEmail (envSubject envelope) (envDate envelope)
               (readBody (Body msg)) (sprintD (SeqNum msg)) 0)
            (fst (fst (connectToYahooIMAP server username password subject since))).
Proof.
  intros tables server username password subject since. split.
  - apply connect_matching.
  - intros filterTime uids msg envelope HP Hd Hl Hs Hq Hne Hin He Hc.
    rewrite (@connect_fetches _ server username password subject since
               filterTime uids HP Hd Hl Hs Hq Hne). cbn [fst].
    apply collect_complete; [exact Hin|exact He|apply Contains_spec, Hc].
Qed.

(** *** The commands [connectToYahooIMAP] sends *)

(** X18.  Nothing is sent when the date is not read.  What is sent starts with
    the dial; when the dial fails nothing follows it; when it succeeds the
    login with the credentials follows, once, and the logout is the last
    command, sent once, whatever step fails in between. *)
Theorem connection_is_always_logged_out :
  forall (tables : UnicodeTables) (server : Server)
         (username password subject since : gostring),
    (snd (connectToYahooIMAP server username password subject since) = []
     <-> Parse (str "2006-01-02") since = None)
    /\ (snd (connectToYahooIMAP server username password subject since) = []
        \/ (dialTLS server yahooAddr <> None
            /\ snd (connectToYahooIMAP server username password subject since)
               = [CmdDialTLS yahooAddr])
        \/ (dialTLS server yahooAddr = None
            /\ exists mid,
                 snd (connectToYahooIMAP server username password subject since)
                 = CmdDialTLS yahooAddr :: CmdLogin username password
                   :: mid ++ [CmdLogout]
                 /\ existsb isLogout mid = false
                 /\ existsb isLogin mid = false)).
Proof.
  intros tables server username password subject since.
  unfold connectToYahooIMAP.
  destruct (Parse (str "2006-01-02") since) as [filterTime|];
    [|split; [split; reflexivity|left; reflexivity]].
  destruct (dialTLS server yahooAddr) as [e|] eqn:Hd.
  { split; [split; discriminate|]. right. left. split; [discriminate|reflexivity]. }
  assert (Shape : forall r mid,
            existsb isLogout mid = false -> existsb isLogin mid = false ->
            (snd (r : list EmailMessage * option error,
                    CmdDialTLS yahooAddr :: CmdLogin username password
                    :: mid ++ [CmdLogout]) = []
             <-> Some filterTime = None)
            /\ (snd (r, CmdDialTLS yahooAddr :: CmdLogin username password
                        :: mid ++ [CmdLogout]) = []
                \/ (@None error <> None /\
                    snd (r, CmdDialTLS yahooAddr :: CmdLogin username password
                            :: mid ++ [CmdLogout]) = [CmdDialTLS yahooAddr])
                \/ (@None error = None /\
                    exists mid0,
                      snd (r, CmdDialTLS yahooAddr :: CmdLogin username password
                              :: mid ++ [CmdLogout])
                      = CmdDialTLS yahooAddr :: CmdLogin username password
                        :: mid0 ++ [CmdLogout]
                      /\ existsb isLogout mid0 = false
                      /\ existsb isLogin mid0 = false))).
  { intros r mid H1 H2. split; [split; discriminate|].
    right. right. split; [reflexivity|]. exists mid. repeat split; assumption. }
  destruct (login server username password).
  { apply (Shape _ []); reflexivity. }
  destruct (select server (str "INBOX") false).
  { apply (Shape _ [CmdSelect (str "INBOX") false]); reflexivity. }
  destruct (search server filterTime) as [uids [e|]].
  { apply (Shape _ [CmdSelect (str "INBOX") false; CmdSearchSince filterTime]);
      reflexivity. }
  destruct (length uids =? 0)%nat.
  { apply (Shape _ [CmdSelect (str "INBOX") false; CmdSearchSince filterTime]);
      reflexivity. }
  destruct (fetch server uids) as [messages done].
  apply (Shape _ [CmdSelect (str "INBOX") false; CmdSearchSince filterTime;
                  CmdFetch uids]); reflexivity.
Qed.

(** *** The mail step in a run *)

(** X19.  The date [doZillow] hands to the mail step is read back there as the
    day it stands for: when the dial, the login and the selection succeed,
    the search asks for the mail since midnight UTC of the filter date. *)
Theorem search_starts_at_the_filter_date :
  forall (tables : UnicodeTables) (server : Server)
         (username password subject : gostring) (rows : list Row) (y m d : Z),
    dialTLS server yahooAddr = None ->
    login server username password = None ->
    select server (str "INBOX") false = None ->
    dynamicFilterDate rows = isoDate (y, m, d) ->
    validDate y m d -> 0 <= y <= 9999 ->
    exists more,
      snd (getYahooEmails server username password subject
             (dynamicFilterDate rows))
      = [CmdDialTLS yahooAddr; CmdLogin username password;
         CmdSelect (str "INBOX") false;
         CmdSearchSince (GoTime.Date y m d 0 0 0 0 UTC)] ++ more.
Proof.
  intros tables server username password subject rows y m d Hd Hl Hs E V Hy.
  destruct (validDate_two_digits V) as [Hm Hdd].
  unfold getYahooEmails, connectToYahooIMAP.
  rewrite E, Parse_iso by assumption.
  apply validDateb_spec in V. rewrite V, Hd, Hl, Hs.
  destruct (search server (midnightUTC y m d)) as [uids [e|]].
  - eexists. reflexivity.
  - destruct (length uids =? 0)%nat.
    + eexists. reflexivity.
    + destruct (fetch server uids) as [messages done]. eexists. reflexivity.
Qed.

Lemma search_starts_at_the_filter_date_witness :
  exists more,
    snd (@getYahooEmails asciiText (openServer [] []) (str "user")
           (str "secret") emailSubject
           (dynamicFilterDate [[CString (str "7/20/2025"); CInt 3]]))
    = [CmdDialTLS yahooAddr; CmdLogin (str "user") (str "secret");
       CmdSelect (str "INBOX") false;
       CmdSearchSince (GoTime.Date 2025 7 21 0 0 0 0 UTC)] ++ more.
Proof.
  apply (@search_starts_at_the_filter_date asciiText (openServer [] [])
           (str "user") (str "secret") emailSubject
           [[CString (str "7/20/2025"); CInt 3]] 2025 7 21);
    try reflexivity.
  - unfold validDate. vm_compute. repeat split; discriminate.
  - lia.
Defined.

(** X20.  A sheet whose last row has the date December 31, 9999: the filter date
    is written with a year of five digits, the mail step does not read it
    and sends nothing, and the run ends in [log.Fatalf]. *)
Theorem last_day_of_9999_stops_the_run :
  forall (tables : UnicodeTables) (sorter : SliceSorter) (config : Config)
         (srv : Service) (server : Server) (init : list Row) (cell : Cell)
         (rest : Row) (layout : gostring),
    readable srv = true -> sheet srv = init ++ [cell :: rest] ->
    layout = str "2006-01-02" \/ In layout formats ->
    parseDate layout (TrimSpace (sprintV cell)) = Some (9999, 12, 31) ->
    dynamicFilterDate (sheet srv) = str "10000-01-01"
    /\ getYahooEmails server (YahooUsername config) (YahooAppPassword config)
         emailSubject (dynamicFilterDate (sheet srv))
       = (([], Some (Errorf "invalid date format")), [])
    /\ doZillow config (yahooWorld config srv server)
       = Fatal "Failed to get Yahoo emails".
Proof.
  intros tables sorter config srv server init cell rest layout Hr Hsheet Hin HD.
  apply allLayouts_iff in Hin. unfold parseDate in HD.
  destruct (Parse layout (TrimSpace (sprintV cell))) as [t|] eqn:E; [|discriminate].
  cbn [option_map] in HD. inversion HD as [Ht].
  assert (Hc : cell <> CNil).
  { intros ->. rewrite (nil_text_unparsed Hin) in E. discriminate. }
  assert (W : dynamicFilterDate (sheet srv) = str "10000-01-01").
  { rewrite Hsheet, dynamicFilterDate_last, (dynamicFilterDate_cell rest Hc).
    rewrite (fromText_parsed _ Hin E), Ht. vm_compute. reflexivity. }
  assert (G : getYahooEmails server (YahooUsername config) (YahooAppPassword config)
                emailSubject (dynamicFilterDate (sheet srv))
              = (([], Some (Errorf "invalid date format")), [])).
  { rewrite W. unfold getYahooEmails, connectToYahooIMAP.
    replace (Parse (str "2006-01-02") (str "10000-01-01")) with (@None Time)
      by (vm_compute; reflexivity).
    reflexivity. }
  split; [exact W|]. split; [exact G|].
  unfold doZillow, yahooWorld.
  cbn [clientError serviceError service mailbox].
  unfold getSheetData, ValuesGet. rewrite Hr, G. reflexivity.
Qed.

Lemma last_day_of_9999_stops_the_run_witness :
  doZillow (tables := asciiText) (sorter := insertionSorter) testConfig
    (yahooWorld (tables := asciiText) testConfig
       (mkService [[CString (str "Dec 31, 9999"); CInt 1]] [] true true)
       (openServer [] []))
  = Fatal "Failed to get Yahoo emails".
Proof.
  apply (@last_day_of_9999_stops_the_run asciiText insertionSorter testConfig
           (mkService [[CString (str "Dec 31, 9999"); CInt 1]] [] true true)
           (openServer [] []) [] (CString (str "Dec 31, 9999")) [CInt 1]
           (str "Jan 2, 2006")).
  - reflexivity.
  - reflexivity.
  - right. cbv [formats map In]. tauto.
  - vm_compute. reflexivity.
Defined.

(** X21.  In a run whose mail comes from [connectToYahooIMAP], every email of the
    batch, and so every row that is appended, comes from a message whose
    subject, letter case apart, has the subject of the daily report in
    it. *)
Theorem rows_come_from_matching_mail :
  forall (tables : UnicodeTables) (sorter : SliceSorter) (config : Config)
         (srv : Service) (server : Server) (err : option error)
         (srv' : Service) (batch : list EmailMessage),
    doZillow config (yahooWorld config srv server) = Returned err srv' batch ->
    Forall (fun e =>
              exists pre post,
                ToLower (Subject e) = pre ++ ToLower emailSubject ++ post)
           batch.
Proof.
  intros tables sorter config srv server err srv' batch H.
  destruct (@doZillow_returned tables sorter config _ _ _ _ H)
    as [(_ & _ & ->)|(emails & Hm & _ & -> & _)]; [constructor|].
  unfold yahooWorld in Hm. cbn [mailbox service] in Hm.
  pose proof (connect_matching server (YahooUsername config)
                (YahooAppPassword config) emailSubject
                (dynamicFilterDate (sheet srv))) as F.
  unfold getYahooEmails in Hm.
  destruct (connectToYahooIMAP server (YahooUsername config)
              (YahooAppPassword config) emailSubject
              (dynamicFilterDate (sheet srv))) as [[emails0 err0] trace].
  cbn [fst] in *. inversion Hm; subst.
  unfold withCounts. rewrite Forall_map.
  rewrite Forall_forall in *. intros e He. cbn [setZillowSaves Subject].
  apply F. eapply Permutation_in; [apply Permutation_sym, Slice_perm|exact He].
Qed.


Lemma rows_come_from_matching_mail_witness :
  exists (srv' : Service) (batch : list EmailMessage),
    doZillow (tables := asciiText) (sorter := insertionSorter) testConfig
      (yahooWorld (tables := asciiText) testConfig
         (mkService [[CString (str "2025-07-19"); CInt 4]] [] true true)
         (openServer [41; 42; 43] threeMessages))
    = Returned None srv' batch
    /\ sheet srv' = [[CString (str "2025-07-19"); CInt 4];
                     [CString (str "2025-07-20"); CInt 12]]
    /\ Forall (fun e =>
                 exists pre post,
                   @ToLower asciiText (Subject e)
                   = pre ++ @ToLower asciiText emailSubject ++ post)
              batch.
Proof.
  assert (R : exists srv' batch,
             doZillow (tables := asciiText) (sorter := insertionSorter) testConfig
               (yahooWorld (tables := asciiText) testConfig
                  (mkService [[CString (str "2025-07-19"); CInt 4]] [] true true)
                  (openServer [41; 42; 43] threeMessages))
             = Returned None srv' batch
             /\ sheet srv' = [[CString (str "2025-07-19"); CInt 4];
                              [CString (str "2025-07-20"); CInt 12]]).
  { vm_compute. eexists. eexists. split; reflexivity. }
  destruct R as (srv' & batch & R & Hsheet).
  exists srv', batch. split; [exact R|]. split; [exact Hsheet|].
  exact (@rows_come_from_matching_mail _ _ _ _ _ _ _ _ R).
Defined.


(** X23.  A run records mail only when the whole mail step succeeds: whenever
    [getYahooEmails] returns an error, be it for the dial, the login, the
    selection, the search, or a fetch that fails after messages have
    arrived and have been collected, the run ends in [log.Fatalf] before
    anything is written; and it ends that way for no other reason. *)
Theorem mail_failure_stops_the_run :
  forall (tables : UnicodeTables) (sorter : SliceSorter) (config : Config)
         (srv : Service) (server : Server),
    readable srv = true ->
    (snd (fst (getYahooEmails server (YahooUsername config)
                 (YahooAppPassword config) emailSubject
                 (dynamicFilterDate (sheet srv)))) <> None
     <-> doZillow config (yahooWorld config srv server)
         = Fatal "Failed to get Yahoo emails").
Proof.
  intros tables sorter config srv server Hr.
  unfold doZillow, yahooWorld. cbn [clientError serviceError service mailbox].
  unfold getSheetData, ValuesGet. rewrite Hr.
  destruct (getYahooEmails server (YahooUsername config) (YahooAppPassword config)
              emailSubject (dynamicFilterDate (sheet srv)))
    as [[emails [e|]] trace]; cbn [fst snd].
  - split; [reflexivity|discriminate].
  - rewrite processData_appends. split; [intros H; contradiction|discriminate].
Qed.

Lemma mail_failure_stops_the_run_witness :
  fst (@getYahooEmails asciiText
         (mkServer (fun _ => None) (fun _ _ => None) (fun _ _ => None)
            (fun _ => ([41; 42; 43], None))
            (fun _ => (threeMessages, Some (Errorf "connection closed"))))
         (str "user@yahoo.com") (str "secret") emailSubject (str "2025-07-20"))
  = ([mkEmail (str "Fwd: YOUR DAILY LISTING REPORT: 9121 BLACKHAWK RD")
        (GoTime.Date 2025 7 20 6 0 0 0 UTC) (str "12 saves") (str "41") 0],
     Some (Errorf "fetch failed"))
  /\ doZillow (tables := asciiText) (sorter := insertionSorter) testConfig
       (yahooWorld (tables := asciiText) testConfig
          (mkService [[CString (str "2025-07-19"); CInt 4]] [] true true)
          (mkServer (fun _ => None) (fun _ _ => None) (fun _ _ => None)
             (fun _ => ([41; 42; 43], None))
             (fun _ => (threeMessages, Some (Errorf "connection closed")))))
     = Fatal "Failed to get Yahoo emails".
Proof.
  split; [vm_compute; reflexivity|].
  apply (@mail_failure_stops_the_run asciiText insertionSorter testConfig
           (mkService [[CString (str "2025-07-19"); CInt 4]] [] true true)
           (mkServer (fun _ => None) (fun _ _ => None) (fun _ _ => None)
              (fun _ => ([41; 42; 43], None))
              (fun _ => (threeMessages, Some (Errorf "connection closed"))))
           eq_refl).
  vm_compute. discriminate.
Defined.

End MailFacts.

Module ConsoleFacts.
Import Sheets Zillow Console.

(** X10.  The first loop of [processData] prints the first five rows of the
    sheet, numbered from 1, and nothing of the rows after them; once it has
    printed a fifth row it prints how many rows are left, which for a sheet
    of exactly five rows is the line "... and 0 more rows". *)
Theorem sheet_preview_stops_at_five :
  forall rows : list Row,
    printRows rows
    = map (fun p => rowLine (Z.of_nat (fst p)) (snd p))
          (combine (seq 1 5) (firstn 5 rows))
      ++ (if (5 <=? length rows)%nat
          then [moreLine (Z.of_nat (length rows) - 5)] else [])
    /\ (length rows = 5%nat ->
        last (printRows rows) [] = str "... and 0 more rows" ++ newline).
Proof.
  intros rows. unfold printRows.
  destruct rows as [|r1 [|r2 [|r3 [|r4 [|r5 rest]]]]];
    (split; [reflexivity|]); try discriminate.
  intros H. destruct rest; [|discriminate]. reflexivity.
Qed.

End ConsoleFacts.
